(** * Email agent front end: store, inbox threading, chat panels, composer

    A shallow embedding of the TypeScript front end of the email agent
    (the zustand store of [lib/store], [InboxViewer], [AgentChat], [Chat]
    and [GmailComposer]) together with the properties its specification
    states about them.

    Conventions of the embedding.
    - A JavaScript string is a [string]: a sequence of code units below 256.
    - An optional field [f?: T] is an [option T]; [None] is [undefined].
    - A JavaScript object used as a dictionary is a [gmap string _].
    - An [async] function is a function from the state before the call and
      the outcomes of the requests it awaits to a [Completion]: either the
      promise resolves ([Returned]) or it rejects ([Threw]). *)

From Stdlib Require Import ZArith Ascii String List Bool Lia.
From stdpp Require Import gmap strings list fin_maps pretty.
Import ListNotations.
Local Open Scope string_scope.
Local Open Scope list_scope.

(** ** JavaScript string primitives used by the sources *)

Module JsString.

(** [WhiteSpace] and [LineTerminator] code units below 256: what
    [String.prototype.trim] strips and what [\s] matches. *)
Definition isWhiteSpace (c : ascii) : bool :=
  let n := nat_of_ascii c in
  Nat.eqb n 9 || Nat.eqb n 10 || Nat.eqb n 11 || Nat.eqb n 12
  || Nat.eqb n 13 || Nat.eqb n 32 || Nat.eqb n 160.

(** Lower-casing of one code unit: [A-Z] and the Latin-1 capitals.  On
    code units below 256 [String.prototype.toLowerCase] lowers unit by
    unit; the rules that look at the neighbours of a letter (the final
    sigma) concern letters outside this range. *)
Definition lowerChar (c : ascii) : ascii :=
  let n := nat_of_ascii c in
  if (Nat.leb 65 n && Nat.leb n 90)
     || (Nat.leb 192 n && Nat.leb n 222 && negb (Nat.eqb n 215))
  then ascii_of_nat (n + 32) else c.

Fixpoint toLowerCase (s : string) : string :=
  match s with
  | EmptyString => EmptyString
  | String c r => String (lowerChar c) (toLowerCase r)
  end.

Fixpoint trimStart (s : string) : string :=
  match s with
  | EmptyString => EmptyString
  | String c r => if isWhiteSpace c then trimStart r else s
  end.

Fixpoint trimEnd (s : string) : string :=
  match s with
  | EmptyString => EmptyString
  | String c r =>
      match trimEnd r with
      | EmptyString => if isWhiteSpace c then EmptyString else String c EmptyString
      | r' => String c r'
      end
  end.

Definition trim (s : string) : string := trimEnd (trimStart s).

(** [s.split(sep)] for a separator of one code unit. *)
Fixpoint split (sep : ascii) (s : string) : list string :=
  match s with
  | EmptyString => [EmptyString]
  | String c r =>
      if Ascii.eqb c sep then EmptyString :: split sep r
      else match split sep r with
           | h :: t => String c h :: t
           | [] => [String c EmptyString]
           end
  end.

Fixpoint join (sep : string) (l : list string) : string :=
  match l with
  | [] => EmptyString
  | [x] => x
  | x :: r => x ++ sep ++ join sep r
  end.

Fixpoint startsWith (p s : string) : bool :=
  match p, s with
  | EmptyString, _ => true
  | String a p', String b s' => Ascii.eqb a b && startsWith p' s'
  | String _ _, EmptyString => false
  end.

(** [s.slice(n)] for [0 <= n]. *)
Fixpoint slice (n : nat) (s : string) : string :=
  match n, s with
  | O, _ => s
  | S n', String _ r => slice n' r
  | S _, EmptyString => EmptyString
  end.

(** [s.includes(needle)]. *)
Fixpoint includes (needle s : string) : bool :=
  startsWith needle s
  || match s with
     | EmptyString => false
     | String _ r => includes needle r
     end.

(** Truthiness of a string: [Boolean(s)]. *)
Definition truthy (s : string) : bool :=
  match s with EmptyString => false | String _ _ => true end.

(** Insertion of [x], which preceded every element of [l] in the array,
    into the sorted [l]: [x] moves right only past elements it compares
    greater than.  The step of a stable sort. *)
Fixpoint insertBy {A : Type} (cmp : A -> A -> Z) (x : A) (l : list A) : list A :=
  match l with
  | [] => [x]
  | y :: r => if (0 <? cmp x y)%Z then y :: insertBy cmp x r else x :: l
  end.

(** [Array.prototype.sort(cmp)]: a stable sort; [cmp a b > 0] puts [b]
    first, and elements that compare equal keep their order.  For a
    comparator that is consistent on the elements this is the order the
    language prescribes.  For an inconsistent one (a difference of dates
    of which one does not parse) the language leaves the order to the
    implementation, and this is one of the orders it allows: what is
    stated about the order of a sorted list assumes valid dates. *)
Definition sort {A : Type} (cmp : A -> A -> Z) (l : list A) : list A :=
  fold_right (insertBy cmp) [] l.

End JsString.

(** ** The data model ([types]) *)

Module Types.

Record ActionItem := mkActionItem {
  task : string;
  deadline : option string;
  completed : option bool
}.

Record Email := mkEmail {
  id : string;
  sender : string;
  subject : string;
  body : string;
  timestamp : string;
  read : bool;
  category : option string;
  action_items : option (list ActionItem);
  source : option string;
  snippet : option string;
  to : option (list string);
  cc : option (list string);
  bcc : option (list string);
  thread_id : option string;
  message_id : option string;
  history_id : option string;
  label_ids : option (list string);
  internal_date : option Z
}.

Record GmailStatus := mkGmailStatus {
  authenticated : bool;
  email_address : option string;
  last_sync : option string;
  last_manual_sync : option string;
  status_history_id : option string;
  total_synced : option Z;
  scopes : option (list string)
}.

(** [{ ...email, category: c }] *)
Definition with_category (e : Email) (c : option string) : Email :=
  mkEmail (id e) (sender e) (subject e) (body e) (timestamp e) (read e)
    c (action_items e) (source e) (snippet e) (to e) (cc e) (bcc e)
    (thread_id e) (message_id e) (history_id e) (label_ids e) (internal_date e).

(** [{ ...email, action_items: a }] *)
Definition with_action_items (e : Email) (a : option (list ActionItem)) : Email :=
  mkEmail (id e) (sender e) (subject e) (body e) (timestamp e) (read e)
    (category e) a (source e) (snippet e) (to e) (cc e) (bcc e)
    (thread_id e) (message_id e) (history_id e) (label_ids e) (internal_date e).

(** [{ ...email, read: true }] *)
Definition with_read (e : Email) (r : bool) : Email :=
  mkEmail (id e) (sender e) (subject e) (body e) (timestamp e) r
    (category e) (action_items e) (source e) (snippet e) (to e) (cc e) (bcc e)
    (thread_id e) (message_id e) (history_id e) (label_ids e) (internal_date e).

(** The same email under another thread id. *)
Definition with_thread_id (e : Email) (t : option string) : Email :=
  mkEmail (id e) (sender e) (subject e) (body e) (timestamp e) (read e)
    (category e) (action_items e) (source e) (snippet e) (to e) (cc e) (bcc e)
    t (message_id e) (history_id e) (label_ids e) (internal_date e).

(** [{ ...item, completed: c }] *)
Definition with_completed (i : ActionItem) (c : option bool) : ActionItem :=
  mkActionItem (task i) (deadline i) c.

Record Prompt := mkPrompt { name : string; template : string }.

Record Prompts := mkPrompts {
  categorization : Prompt;
  prompt_action_items : Prompt;
  auto_reply : Prompt
}.

Record Settings := mkSettings {
  llm_provider : string;
  groq_api_key : option string;
  groq_model : option string;
  ollama_model : option string
}.

(** How an [async] function settles, with the state it leaves behind:
    its promise resolves ([Returned]) or rejects ([Threw]). *)
Inductive Completion (St : Type) : Type :=
| Returned (s : St)
| Threw (s : St) (err : string).
Arguments Returned {St} s.
Arguments Threw {St} s err.

(** The state a settled call leaves behind. *)
Definition settled {St : Type} (c : Completion St) : St :=
  match c with
  | Returned s => s
  | Threw s _ => s
  end.

(** [try { body } catch { handler }] *)
Definition try_catch {St : Type} (body : Completion St)
    (handler : St -> string -> Completion St) : Completion St :=
  match body with
  | Returned s => Returned s
  | Threw s err => handler s err
  end.

(** [... finally { cleanup }], for a cleanup that does not throw. *)
Definition finally {St : Type} (body : Completion St) (cleanup : St -> St)
  : Completion St :=
  match body with
  | Returned s => Returned (cleanup s)
  | Threw s err => Threw (cleanup s) err
  end.

End Types.

(** ** The application store ([lib/store]) *)

Module Store.
Import JsString Types.

(** [email.source?.toLowerCase() === s] *)
Definition sourceIs (email : Email) (s : string) : bool :=
  match source email with
  | Some x => String.eqb (toLowerCase x) s
  | None => false
  end.

(** [status?.authenticated] as a condition. *)
Definition isAuthenticated (status : option GmailStatus) : bool :=
  match status with
  | Some st => authenticated st
  | None => false
  end.

Definition filterEmailsForDisplay (emails : list Email) (status : option GmailStatus)
  : list Email :=
  if isAuthenticated status then
    List.filter (fun email => sourceIs email "gmail" || sourceIs email "gmail_draft") emails
  else
    List.filter (fun email => negb (sourceIs email "gmail")
                              && negb (sourceIs email "gmail_draft")) emails.

Record AppState := mkAppState {
  emails : list Email;
  allEmails : list Email;
  prompts : option Prompts;
  settings : option Settings;
  selectedEmailId : option string;
  selectedThreadEmails : list Email;
  isLoading : bool;
  gmailStatus : option GmailStatus;
  isSyncingGmail : bool
}.

Definition initialState : AppState :=
  mkAppState [] [] None None None [] false None false.

(** [set({ isLoading: b })] *)
Definition set_isLoading (b : bool) (s : AppState) : AppState :=
  mkAppState (emails s) (allEmails s) (prompts s) (settings s) (selectedEmailId s)
    (selectedThreadEmails s) b (gmailStatus s) (isSyncingGmail s).

(** [set({ allEmails: all, emails: shown })] *)
Definition set_lists (all shown : list Email) (s : AppState) : AppState :=
  mkAppState shown all (prompts s) (settings s) (selectedEmailId s)
    (selectedThreadEmails s) (isLoading s) (gmailStatus s) (isSyncingGmail s).

(** [set({ selectedEmailId: i })] *)
Definition set_selectedEmailId (i : option string) (s : AppState) : AppState :=
  mkAppState (emails s) (allEmails s) (prompts s) (settings s) i
    (selectedThreadEmails s) (isLoading s) (gmailStatus s) (isSyncingGmail s).

(** The requests the store fires without awaiting them
    ([api.x(...).catch(console.error)]). *)
Inductive Request :=
| MarkAsRead (emailId : string)
| ToggleActionItem (emailId : string) (taskIndex : Z)
| DeleteActionItem (emailId : string) (taskIndex : Z).

(** *** [fetchGmailStatus], once [api.getGmailStatus()] resolved with [status] *)
Definition fetchGmailStatus (status : GmailStatus) (s : AppState) : AppState :=
  mkAppState (filterEmailsForDisplay (allEmails s) (Some status)) (allEmails s)
    (prompts s) (settings s) (selectedEmailId s) (selectedThreadEmails s)
    (isLoading s) (Some status) (isSyncingGmail s).

(** *** [fetchEmails]; [response] is what [api.getEmails()] settled with *)
Definition fetchEmails (response : option (list Email)) (s : AppState)
  : Completion AppState :=
  let s1 := set_isLoading true s in
  match response with
  | Some fetched =>
      let status := gmailStatus s1 in
      Returned (set_isLoading false
                  (set_lists fetched (filterEmailsForDisplay fetched status) s1))
  | None => Threw (set_isLoading false s1) "TypeError: Failed to fetch"
  end.

(** *** [setSelectedEmailId] *)
Definition markRead (i : string) (l : list Email) : list Email :=
  map (fun email => if String.eqb (id email) i then with_read email true else email) l.

Definition setSelectedEmailId (i : option string) (s : AppState)
  : AppState * list Request :=
  let s1 := set_selectedEmailId i s in
  match i with
  | Some (String c r as i') =>
      (mkAppState (markRead i' (emails s1)) (markRead i' (allEmails s1)) (prompts s1)
         (settings s1) (selectedEmailId s1) (selectedThreadEmails s1) (isLoading s1)
         (gmailStatus s1) (isSyncingGmail s1),
       [MarkAsRead i'])
  | _ => (s1, [])
  end.

(** *** [setSelectedThreadEmails] *)
Definition setSelectedThreadEmails (l : list Email) (s : AppState) : AppState :=
  mkAppState (emails s) (allEmails s) (prompts s) (settings s) (selectedEmailId s)
    l (isLoading s) (gmailStatus s) (isSyncingGmail s).

(** *** [toggleActionItem]

    [taskIndex] is a JavaScript number; an integral one is a [Z], and
    [idx === taskIndex] compares it with the position [idx]. *)
Fixpoint mapi_from {A B : Type} (f : A -> nat -> B) (idx : nat) (l : list A) : list B :=
  match l with
  | [] => []
  | x :: r => f x idx :: mapi_from f (S idx) r
  end.

(** [array.map((item, idx) => f item idx)] *)
Definition mapi {A B : Type} (f : A -> nat -> B) (l : list A) : list B :=
  mapi_from f 0 l.

Fixpoint filteri_from {A : Type} (p : A -> nat -> bool) (idx : nat) (l : list A) : list A :=
  match l with
  | [] => []
  | x :: r => if p x idx then x :: filteri_from p (S idx) r else filteri_from p (S idx) r
  end.

(** [array.filter((item, idx) => p item idx)] *)
Definition filteri {A : Type} (p : A -> nat -> bool) (l : list A) : list A :=
  filteri_from p 0 l.

(** [!item.completed]: an absent flag is falsy. *)
Definition notCompleted (item : ActionItem) : bool :=
  match completed item with
  | Some b => negb b
  | None => true
  end.

Definition toggleItems (taskIndex : Z) (items : list ActionItem) : list ActionItem :=
  mapi (fun item idx =>
          if Z.eqb (Z.of_nat idx) taskIndex
          then with_completed item (Some (notCompleted item))
          else item) items.

Definition toggleList (emailId : string) (taskIndex : Z) (l : list Email) : list Email :=
  map (fun email =>
         match action_items email with
         | Some items =>
             if String.eqb (id email) emailId
             then with_action_items email (Some (toggleItems taskIndex items))
             else email
         | None => email
         end) l.

Definition toggleActionItem (emailId : string) (taskIndex : Z) (s : AppState)
  : AppState * list Request :=
  (mkAppState (toggleList emailId taskIndex (emails s))
     (toggleList emailId taskIndex (allEmails s)) (prompts s) (settings s)
     (selectedEmailId s) (selectedThreadEmails s) (isLoading s) (gmailStatus s)
     (isSyncingGmail s),
   [ToggleActionItem emailId taskIndex]).

(** *** [deleteActionItem] *)
Definition deleteItems (taskIndex : Z) (items : list ActionItem) : list ActionItem :=
  filteri (fun _ idx => negb (Z.eqb (Z.of_nat idx) taskIndex)) items.

Definition deleteList (emailId : string) (taskIndex : Z) (l : list Email) : list Email :=
  map (fun email =>
         match action_items email with
         | Some items =>
             if String.eqb (id email) emailId
             then with_action_items email (Some (deleteItems taskIndex items))
             else email
         | None => email
         end) l.

Definition deleteActionItem (emailId : string) (taskIndex : Z) (s : AppState)
  : AppState * list Request :=
  (mkAppState (deleteList emailId taskIndex (emails s))
     (deleteList emailId taskIndex (allEmails s)) (prompts s) (settings s)
     (selectedEmailId s) (selectedThreadEmails s) (isLoading s) (gmailStatus s)
     (isSyncingGmail s),
   [DeleteActionItem emailId taskIndex]).

(** *** [ingestEmails]

    The state the function acts on: the store, the alerts shown to the
    user, and how many times [GET /emails] was requested.

    [ingestEmails] below is one run with no other action of the store
    between its awaits.  The status is read once, before the first
    await, and every [set] of the run uses that value: [handleData] and
    [handleLine] take it as [status], apart from the store they act on,
    so that a run which other actions interleave with is a sequence of
    their steps. *)
Record World := mkWorld {
  store : AppState;
  alerts : list string;
  requested : nat
}.

Definition with_store (f : AppState -> AppState) (w : World) : World :=
  mkWorld (f (store w)) (alerts w) (requested w).

(** One decoded event of the ingestion stream: the value of
    [JSON.parse(line.slice(6))], of which [type], [message] and [email]
    are read. *)
Record Data := mkData {
  type : option string;
  message : option string;
  email : option Email
}.

(** What [fetch(`${API_BASE}/ingest`)] settled with.  [chunks] are the
    decoded chunks that [reader.read()] delivers until [done]; the body
    is absent when [response.body] is null. *)
Inductive IngestResponse :=
| FetchRejected
| Response (ok : bool) (chunks : option (list string)).

(** Control after one line of the stream. *)
Inductive Flow :=
| Continue (w : World)
| Return (w : World)
| Throw (w : World) (err : string).

Definition typeIs (data : Data) (t : string) : bool :=
  match type data with
  | Some x => String.eqb x t
  | None => false
  end.

(** [data.message?.includes(needle)] as a condition. *)
Definition messageIncludes (data : Data) (needle : string) : bool :=
  match message data with
  | Some m => includes needle m
  | None => false
  end.

(** [`${data.message}`] *)
Definition messageText (data : Data) : string :=
  match message data with
  | Some m => m
  | None => "undefined"
  end.

(** The [set] callback of a ["category"] event. *)
Definition applyCategory (status : option GmailStatus) (updatedEmail : Email)
    (state : AppState) : AppState :=
  let allEmails' :=
    map (fun email => if String.eqb (id email) (id updatedEmail)
                      then with_category email (category updatedEmail)
                      else email) (allEmails state) in
  set_lists allEmails' (filterEmailsForDisplay allEmails' status) state.

(** The [set] callback of an ["action_items"] event. *)
Definition applyActionItems (status : option GmailStatus) (updatedEmail : Email)
    (state : AppState) : AppState :=
  let allEmails' :=
    map (fun email => if String.eqb (id email) (id updatedEmail)
                      then with_action_items email (action_items updatedEmail)
                      else email) (allEmails state) in
  set_lists allEmails' (filterEmailsForDisplay allEmails' status) state.

Section Ingestion.

(** [JSON.parse]; [None] when it throws, or when the parsed value is
    [null] so that reading [data.type] throws. *)
Variable JSON_parse : string -> option Data.

(** What the [n]-th request [api.getEmails()] resolves with; [None]
    when it rejects. *)
Variable getEmails : nat -> option (list Email).

(** [const allEmails = await api.getEmails(); set({ allEmails, emails: ... })] *)
Definition refresh (status : option GmailStatus) (w : World) : option World :=
  match getEmails (requested w) with
  | Some fetched =>
      Some (mkWorld (set_lists fetched (filterEmailsForDisplay fetched status) (store w))
              (alerts w) (S (requested w)))
  | None => None
  end.

(** The body of [if (line.startsWith("data: "))] for the decoded [data]. *)
Definition handleData (status : option GmailStatus) (hasShownError : bool)
    (data : Data) (w : World) : Flow :=
  if typeIs data "error" && messageIncludes data "Error calling Groq" then
    let w1 :=
      if negb hasShownError
      then mkWorld (store w)
             (alerts w ++ [String.append "Ingestion Error:" (String.append (String "010" (String "010" EmptyString)) (messageText data))])
             (requested w)
      else w in
    match refresh status w1 with
    | Some w2 => Return w2
    | None => Throw (mkWorld (store w1) (alerts w1) (S (requested w1)))
                "TypeError: Failed to fetch"
    end
  else if typeIs data "category" then
    match email data, allEmails (store w) with
    | Some updatedEmail, _ => Continue (with_store (applyCategory status updatedEmail) w)
    | None, [] => Continue (with_store (set_lists [] (filterEmailsForDisplay [] status)) w)
    | None, _ :: _ => Throw w "TypeError: Cannot read properties of undefined"
    end
  else if typeIs data "action_items" then
    match email data, allEmails (store w) with
    | Some updatedEmail, _ => Continue (with_store (applyActionItems status updatedEmail) w)
    | None, [] => Continue (with_store (set_lists [] (filterEmailsForDisplay [] status)) w)
    | None, _ :: _ => Throw w "TypeError: Cannot read properties of undefined"
    end
  else if typeIs data "complete" then
    match refresh status w with
    | Some w1 => Continue w1
    | None => Throw (mkWorld (store w) (alerts w) (S (requested w)))
                "TypeError: Failed to fetch"
    end
  else Continue w.

Definition handleLine (status : option GmailStatus) (hasShownError : bool)
    (line : string) (w : World) : Flow :=
  if startsWith "data: " line then
    match JSON_parse (slice 6 line) with
    | Some data => handleData status hasShownError data w
    | None => Throw w "SyntaxError"
    end
  else Continue w.

(** [for (const line of lines) { ... }]: [hasShownError] is written
    only on the path that returns, so every iteration reads the value
    it was declared with. *)
Fixpoint forLines (status : option GmailStatus) (hasShownError : bool)
    (lines : list string) (w : World) : Flow :=
  match lines with
  | [] => Continue w
  | line :: rest =>
      match handleLine status hasShownError line w with
      | Continue w' => forLines status hasShownError rest w'
      | stop => stop
      end
  end.

(** [while (true) { const { done, value } = await reader.read(); ... }] *)
Fixpoint readLoop (status : option GmailStatus) (hasShownError : bool)
    (chunks : list string) (w : World) : Flow :=
  match chunks with
  | [] => Continue w
  | chunk :: rest =>
      match forLines status hasShownError (split "010" chunk) w with
      | Continue w' => readLoop status hasShownError rest w'
      | stop => stop
      end
  end.

Definition ingestEmails (response : IngestResponse) (w : World) : Completion World :=
  let w0 := with_store (set_isLoading true) w in
  let hasShownError := false in
  let status := gmailStatus (store w0) in
  let flow :=
    match response with
    | FetchRejected => Throw w0 "TypeError: Failed to fetch"
    | Response false _ => Throw w0 "Failed to start ingestion"
    | Response true None => Throw w0 "No response body"
    | Response true (Some chunks) => readLoop status hasShownError chunks w0
    end in
  match flow with
  | Continue w' | Return w' => Returned (with_store (set_isLoading false) w')
  | Throw w' err => Threw (with_store (set_isLoading false) w') err
  end.

End Ingestion.

End Store.

(** ** The inbox list ([components/InboxViewer]) *)

Module InboxViewer.
Import JsString Types.

Record EmailThread := mkEmailThread {
  t_id : string;
  t_subject : string;
  t_emails : list Email;
  latestTimestamp : string;
  hasUnread : bool
}.

(** Does [s] start with the lower-case pattern [p], ignoring case? *)
Fixpoint startsWithIgnoreCase (p s : string) : bool :=
  match p, s with
  | EmptyString, _ => true
  | String a p', String b s' => Ascii.eqb a (lowerChar b) && startsWithIgnoreCase p' s'
  | String _ _, EmptyString => false
  end.

(** [subject.replace(/^(re|fwd|fw):\s*/gi, '')]: the pattern is anchored
    at the start of the string, so at most one prefix is removed. *)
Definition stripReplyPrefix (subject : string) : string :=
  if startsWithIgnoreCase "re:" subject then trimStart (slice 3 subject)
  else if startsWithIgnoreCase "fwd:" subject then trimStart (slice 4 subject)
  else if startsWithIgnoreCase "fw:" subject then trimStart (slice 3 subject)
  else subject.

Definition normalizeSubject (subject : string) : string :=
  toLowerCase (trim (stripReplyPrefix subject)).

Section Threads.

(** [new Date(s).getTime()]; [None] is [NaN], an invalid date. *)
Variable getTime : string -> option Z.

(** [new Date(a) > new Date(b)] *)
Definition isLater (a b : string) : bool :=
  match getTime a, getTime b with
  | Some x, Some y => (y <? x)%Z
  | _, _ => false
  end.

(** [new Date(b).getTime() - new Date(a).getTime()]; a [NaN] result
    orders like [0]. *)
Definition byNewest (a b : string) : Z :=
  match getTime b, getTime a with
  | Some y, Some x => (y - x)%Z
  | _, _ => 0%Z
  end.

(** [threadMap.has(key)]: the map and the array hold the same thread
    objects, one per key, so the array alone represents both. *)
Definition hasThread (key : string) (threads : list EmailThread) : bool :=
  existsb (fun t => String.eqb (t_id t) key) threads.

(** The [else] branch of the grouping loop, on [threadMap.get(key)]. *)
Definition pushEmail (email : Email) (thread : EmailThread) : EmailThread :=
  mkEmailThread (t_id thread) (t_subject thread) (t_emails thread ++ [email])
    (if isLater (timestamp email) (latestTimestamp thread)
     then timestamp email else latestTimestamp thread)
    (if negb (read email) then true else hasUnread thread).

Fixpoint updateThread (key : string) (f : EmailThread -> EmailThread)
    (threads : list EmailThread) : list EmailThread :=
  match threads with
  | [] => []
  | t :: r => if String.eqb (t_id t) key then f t :: r
              else t :: updateThread key f r
  end.

(** One iteration of [filteredEmails.forEach]. *)
Definition groupEmail (threads : list EmailThread) (email : Email)
  : list EmailThread :=
  let normalizedSubject := normalizeSubject (subject email) in
  if negb (hasThread normalizedSubject threads) then
    threads ++ [mkEmailThread normalizedSubject (subject email) [email]
                  (timestamp email) (negb (read email))]
  else updateThread normalizedSubject (pushEmail email) threads.

Definition groupThreads (filteredEmails : list Email) : list EmailThread :=
  fold_left groupEmail filteredEmails [].

(** [thread.emails.sort(...)] *)
Definition sortThreadEmails (thread : EmailThread) : EmailThread :=
  mkEmailThread (t_id thread) (t_subject thread)
    (sort (fun a b => byNewest (timestamp a) (timestamp b)) (t_emails thread))
    (latestTimestamp thread) (hasUnread thread).

(** The [threads] array of a render. *)
Definition threads (filteredEmails : list Email) : list EmailThread :=
  sort (fun a b => byNewest (latestTimestamp a) (latestTimestamp b))
    (map sortThreadEmails (groupThreads filteredEmails)).

End Threads.

(** [handleEmailClick]: [selectedEmailId] and [expandedThreads] are the
    values of the render the click happens in. *)
Definition handleEmailClick (email : Email) (thread : EmailThread)
    (expandedThreads : gset string) (s : Store.AppState)
  : gset string * Store.AppState * list Store.Request :=
  let selectedEmailId := Store.selectedEmailId s in
  let '(s1, requests) := Store.setSelectedEmailId (Some (id email)) s in
  if Nat.ltb 1 (length (t_emails thread)) then
    let isCurrentlyExpanded := bool_decide (t_id thread ∈ expandedThreads) in
    let isAlreadySelected :=
      match selectedEmailId with
      | Some i => String.eqb i (id email)
      | None => false
      end in
    let expandedThreads' :=
      if isAlreadySelected then
        (if isCurrentlyExpanded then expandedThreads ∖ {[t_id thread]}
         else expandedThreads ∪ {[t_id thread]})
      else expandedThreads ∪ {[t_id thread]} in
    let willBeExpanded :=
      if isAlreadySelected then negb isCurrentlyExpanded else true in
    if willBeExpanded
    then (expandedThreads', Store.setSelectedThreadEmails [email] s1, requests)
    else (expandedThreads', Store.setSelectedThreadEmails (t_emails thread) s1, requests)
  else (expandedThreads, Store.setSelectedThreadEmails [email] s1, requests).

End InboxViewer.

(** ** The per-email chat panel ([components/AgentChat]) *)

Module AgentChat.
Import JsString Types.

Inductive Role := user | agent.

Record Message := mkMessage { role : Role; content : string }.

(** The body of [POST /chat] built by [api.chat]. *)
Record ChatRequest := mkChatRequest {
  req_message : string;
  email_id : option string;
  thread_email_ids : option (list string)
}.

(** What [api.chat] settled with. *)
Inductive ChatOutcome :=
| Resolved (response : string)
| Rejected (err : string).

(** The component state, and the requests it has issued. *)
Record Panel := mkPanel {
  history : gmap string (list Message);
  input : string;
  isLoading : bool;
  sent : list ChatRequest
}.

(** The default comparison of [Array.prototype.sort] on strings. *)
Definition compareStrings (a b : string) : Z :=
  match String.compare a b with
  | Lt => (-1)%Z
  | Eq => 0%Z
  | Gt => 1%Z
  end.

Definition chatKey (selectedEmailId : option string) (selectedThreadEmails : list Email)
  : option string :=
  match selectedEmailId with
  | None | Some EmptyString => None
  | Some i =>
      if Nat.ltb 1 (length selectedThreadEmails)
      then Some (String.append "thread:" (join "," (sort compareStrings (map id selectedThreadEmails))))
      else Some (String.append "email:" i)
  end.

Definition greeting (selectedThreadEmails : list Email) : string :=
  if Nat.ltb 1 (length selectedThreadEmails)
  then String.append "Hi! I'm your Email Agent. I have context of all "
         (String.append (pretty (length selectedThreadEmails))
            " emails in this thread. Ask me anything!")
  else "Hi! I'm your Email Agent. Ask me anything about this email.".

(** [history[chatKey] || [{ role: "agent", content: greeting }]], and the
    placeholder when nothing is selected. *)
Definition currentMessages (history : gmap string (list Message))
    (selectedEmailId : option string) (selectedThreadEmails : list Email)
  : list Message :=
  match chatKey selectedEmailId selectedThreadEmails with
  | Some key =>
      match history !! key with
      | Some messages => messages
      | None => [mkMessage agent (greeting selectedThreadEmails)]
      end
  | None => [mkMessage agent "Select an email to start chatting."]
  end.

(** [threadEmailIds] of [handleSend]. *)
Definition threadEmailIds (selectedThreadEmails : list Email) : option (list string) :=
  if Nat.ltb 1 (length selectedThreadEmails)
  then Some (map id selectedThreadEmails)
  else None.

(** [setHistory(prev => ({ ...prev, [chatKey]: [...(prev[chatKey] || []), m] }))] *)
Definition appendTurn (key : string) (m : Message) (p : Panel) : Panel :=
  mkPanel (<[key := default [] (history p !! key) ++ [m]]> (history p))
    (input p) (isLoading p) (sent p).

Definition setIsLoading (b : bool) (p : Panel) : Panel :=
  mkPanel (history p) (input p) b (sent p).

Section Send.

(** The backend behind [api.chat]. *)
Variable chat : ChatRequest -> ChatOutcome.

(** [handleSend] reads [history] and [input] of the render it belongs to,
    which are those of the panel [p] when it is called; the functional
    updates after the [await] run on the state the optimistic update
    left. *)

Definition handleSend (selectedEmailId : option string)
    (selectedThreadEmails : list Email) (p : Panel) : Completion Panel :=
  match selectedEmailId, chatKey selectedEmailId selectedThreadEmails with
  | Some (String _ _ as emailId), Some key =>
      if negb (truthy (trim (input p))) then Returned p
      else
        let userMsg := input p in
        (* optimistic update *)
        let turns :=
          match history p !! key with
          | Some turns => turns
          | None => [mkMessage agent (greeting selectedThreadEmails)]
          end in
        let newHistory := <[key := turns ++ [mkMessage user userMsg]]> (history p) in
        let request :=
          mkChatRequest userMsg (Some emailId) (threadEmailIds selectedThreadEmails) in
        let p1 := mkPanel newHistory "" true (sent p ++ [request]) in
        finally
          (try_catch
             match chat request with
             | Resolved response => Returned (appendTurn key (mkMessage agent response) p1)
             | Rejected err => Threw p1 err
             end
             (fun p2 _ =>
                Returned (appendTurn key
                            (mkMessage agent "Sorry, I encountered an error.") p2)))
          (setIsLoading false)
  | _, _ => Returned p
  end.

End Send.

Definition handleReset (selectedEmailId : option string)
    (selectedThreadEmails : list Email) (p : Panel) : Panel :=
  match chatKey selectedEmailId selectedThreadEmails with
  | None => p
  | Some key =>
      let greeting :=
        if Nat.ltb 1 (length selectedThreadEmails)
        then "Chat reset. How can I help you with this thread?"
        else "Chat reset. How can I help you with this email?" in
      mkPanel (<[key := [mkMessage agent greeting]]> (history p))
        (input p) (isLoading p) (sent p)
  end.

End AgentChat.

(** ** The general chat page ([components/Chat]) *)

Module Chat.
Import JsString Types.

Inductive Role := user | assistant.

(** [timestamp] is the [Date] as milliseconds since the epoch. *)
Record Message := mkMessage { role : Role; content : string; timestamp : Z }.

Record Panel := mkPanel {
  messages : list Message;
  input : string;
  isLoading : bool;
  sent : list AgentChat.ChatRequest;
  console : list string
}.

Definition pushMessage (m : Message) (p : Panel) : Panel :=
  mkPanel (messages p ++ [m]) (input p) (isLoading p) (sent p) (console p).

Definition setIsLoading (b : bool) (p : Panel) : Panel :=
  mkPanel (messages p) (input p) b (sent p) (console p).

Definition consoleError (line : string) (p : Panel) : Panel :=
  mkPanel (messages p) (input p) (isLoading p) (sent p) (console p ++ [line]).

Section Send.

Variable chat : AgentChat.ChatRequest -> AgentChat.ChatOutcome.

(** [now] and [later] are the two readings of the clock ([new Date()]):
    when the user message is built and when the reply is. *)
Definition handleSend (now later : Z) (p : Panel) : Completion Panel :=
  if negb (truthy (trim (input p))) || isLoading p then Returned p
  else
    let userMessage := mkMessage user (input p) now in
    let request := AgentChat.mkChatRequest (input p) None None in
    let p1 := mkPanel (messages p ++ [userMessage]) "" true
                (sent p ++ [request]) (console p) in
    finally
      (try_catch
         match chat request with
         | AgentChat.Resolved response =>
             Returned (pushMessage (mkMessage assistant response later) p1)
         | AgentChat.Rejected err => Threw p1 err
         end
         (fun p2 err =>
            Returned
              (pushMessage
                 (mkMessage assistant
                    "Sorry, I encountered an error. Please try again." later)
                 (consoleError (String.append "Chat error: " err) p2))))
      (setIsLoading false).

End Send.

End Chat.

(** ** The Gmail composer ([components/GmailComposer]) *)

Module GmailComposer.
Import JsString Types.

Record ComposerConfig := mkComposerConfig {
  cfg_to : option (list string);
  cfg_cc : option (list string);
  cfg_bcc : option (list string);
  cfg_subject : option string;
  cfg_body : option string;
  threadId : option string;
  inReplyTo : option string
}.

Definition toInput (value : option (list string)) : string :=
  match value with
  | Some ((_ :: _) as v) => join ", " v
  | _ => ""
  end.

Definition parseRecipients (value : string) : list string :=
  List.filter truthy (map trim (split "," value)).

(** The argument of [api.sendGmail]. *)
Record SendPayload := mkSendPayload {
  p_to : list string;
  p_cc : list string;
  p_bcc : list string;
  p_subject : string;
  p_body : string;
  p_thread_id : option string;
  p_in_reply_to : option string
}.

(** The fields of the form. *)
Record Composer := mkComposer {
  to : string;
  cc : string;
  bcc : string;
  subject : string;
  body : string;
  isSending : bool;
  error : option string
}.

(** What the composer does to the outside, in order. *)
Inductive Effect :=
| SendGmail (payload : SendPayload)
| FetchEmails
| FetchGmailStatus
| OnClose
| ConsoleError (line : string).

Record World := mkWorld {
  composer : Composer;
  effects : list Effect
}.

(** Whether each awaited call resolves. *)
Record Backend := mkBackend {
  sendGmail : SendPayload -> bool;
  fetchEmails : bool;
  fetchGmailStatus : bool
}.

Definition setError (e : option string) (w : World) : World :=
  let c := composer w in
  mkWorld (mkComposer (to c) (cc c) (bcc c) (subject c) (body c) (isSending c) e)
    (effects w).

Definition setIsSending (b : bool) (w : World) : World :=
  let c := composer w in
  mkWorld (mkComposer (to c) (cc c) (bcc c) (subject c) (body c) b (error c))
    (effects w).

Definition perform (e : Effect) (w : World) : World :=
  mkWorld (composer w) (effects w ++ [e]).

(** [await call]: the call is issued, then resolves or rejects. *)
Definition await (e : Effect) (resolves : bool) (w : World) : Completion World :=
  if resolves then Returned (perform e w) else Threw (perform e w) "rejected".

Definition andThen (c : Completion World) (k : World -> Completion World)
  : Completion World :=
  match c with
  | Returned w => k w
  | Threw w err => Threw w err
  end.

Definition handleSend (config : ComposerConfig) (backend : Backend) (w : World)
  : Completion World :=
  let c := composer w in
  let toList := parseRecipients (to c) in
  if Nat.eqb (length toList) 0 then
    Returned (setError (Some "At least one recipient is required.") w)
  else
    let w1 := setError None (setIsSending true w) in
    let payload :=
      mkSendPayload toList (parseRecipients (cc c)) (parseRecipients (bcc c))
        (subject c) (body c) (threadId config) (inReplyTo config) in
    finally
      (try_catch
         (andThen (await (SendGmail payload) (sendGmail backend payload) w1) (fun w2 =>
          andThen (await FetchEmails (fetchEmails backend) w2) (fun w3 =>
          andThen (await FetchGmailStatus (fetchGmailStatus backend) w3) (fun w4 =>
          Returned (perform OnClose w4)))))
         (fun w' _ =>
            Returned
              (setError
                 (Some "Unable to send email. Please recheck recipients and try again.")
                 (perform (ConsoleError "Failed to send Gmail message") w'))))
      (setIsSending false).

End GmailComposer.

(** ** The retrieval context builder (backend) *)

Module ContextBuilder.
Import Types.

(** Modelled from the spec: an entry of the context bundle of the
    Retrieval Context Builder, which runs in the backend and is absent
    from the front-end sources: a focus email, carried whole, or a
    retrieved email with its similarity score. *)
Inductive Entry :=
| Focus (e : Email)
| Retrieved (e : Email) (score : Z).

(** Modelled from the spec: read-by-id on the Email Store, missing from
    the sources (ids are unique, so the first match is the email). *)
Definition lookupEmail (emailStore : list Email) (i : string) : option Email :=
  find (fun e => String.eqb (id e) i) emailStore.

(** Modelled from the spec: the ids of the focus of a chat request, which
    the missing builder reads from [focus_email_id] and
    [focus_thread_ids]: the single email, then the thread in its order,
    each id once. *)
Fixpoint distinct (seen ids : list string) : list string :=
  match ids with
  | [] => []
  | i :: r => if existsb (String.eqb i) seen then distinct seen r
              else i :: distinct (i :: seen) r
  end.

(** Modelled from the spec: the focus ids of a request as the missing
    builder takes them. *)
Definition focusIds (focus_email_id : option string)
    (focus_thread_ids : option (list string)) : list string :=
  distinct []
    (match focus_email_id with Some i => [i] | None => [] end
     ++ match focus_thread_ids with Some ids => ids | None => [] end).

(** Modelled from the spec: the focus block of the missing builder, every
    focus email that the store holds, verbatim. *)
Definition focusBlock (emailStore : list Email) (ids : list string) : list Email :=
  flat_map (fun i => match lookupEmail emailStore i with
                     | Some e => [e]
                     | None => []
                     end) ids.

(** Modelled from the spec: truncation to the input budget in the missing
    builder.  Dropping the lowest-ranked retrieved items until the
    bundle fits keeps the longest prefix of the ranking that fits in
    the room the focus block leaves. *)
Fixpoint fit {A : Type} (size : A -> nat) (room : nat) (ranked : list A) : list A :=
  match ranked with
  | [] => []
  | x :: r => if Nat.leb (size x) room then x :: fit size (room - size x) r else []
  end.

Section Builder.

(** Modelled from the spec: the similarity of an indexed email to the
    query text as the missing Vector Index scores it, the time of an
    email, which breaks ties, and what an email costs of the backend's
    input budget. *)
Variable similarity : string -> Email -> Z.
Variable recency : Email -> Z.
Variable size : Email -> nat.

(** Modelled from the spec: the ranking of the missing Vector Index
    query, descending similarity, ties by most recent timestamp. *)
Definition byRelevance (query : string) (a b : Email) : Z :=
  if Z.eqb (similarity query b) (similarity query a)
  then (recency b - recency a)%Z
  else (similarity query b - similarity query a)%Z.

(** Modelled from the spec: the semantic query of the missing builder,
    up to [top_k] emails of the corpus ranked against the query text,
    without those already present via focus. *)
Definition retrieve (emailStore : list Email) (query : string) (top_k : nat)
    (focus : list Email) : list Email :=
  firstn top_k
    (JsString.sort (byRelevance query)
       (List.filter
          (fun e => negb (existsb (fun f => String.eqb (id f) (id e)) focus))
          emailStore)).

(** Modelled from the spec: the final bundle of the missing builder,
    the focus emails, then the ranked retrieved emails that fit. *)
Definition buildContext (emailStore : list Email) (query : string)
    (focus_email_id : option string) (focus_thread_ids : option (list string))
    (top_k budget : nat) : list Entry :=
  let focus := focusBlock emailStore (focusIds focus_email_id focus_thread_ids) in
  let room := budget - list_sum (map size focus) in
  map Focus focus
  ++ map (fun e => Retrieved e (similarity query e))
       (fit size room (retrieve emailStore query top_k focus)).

(** Modelled from the spec: the context the missing chat endpoint builds
    for a request of the front end, whose [email_id] is the focus email
    and whose [thread_email_ids] is the focus thread. *)
Definition contextOfRequest (emailStore : list Email) (request : AgentChat.ChatRequest)
    (top_k budget : nat) : list Entry :=
  buildContext emailStore (AgentChat.req_message request)
    (AgentChat.email_id request) (AgentChat.thread_email_ids request) top_k budget.

(** Modelled from the spec: the body text an entry of the missing
    builder's bundle carries to the model. *)
Definition entryBody (en : Entry) : string :=
  match en with
  | Focus e => body e
  | Retrieved e _ => body e
  end.

End Builder.

End ContextBuilder.

(** ** Notions the properties are stated with *)

Module Spec.
Import JsString Types.

(** An email of the Gmail corpus: its source reads [gmail] or
    [gmail_draft] once lower-cased. *)
Definition gmailCorpus (e : Email) : Prop :=
  exists src, source e = Some src
              /\ (toLowerCase src = "gmail" \/ toLowerCase src = "gmail_draft").

(** [items'] is [items] without position [i]: one shorter, the same
    below [i], shifted down by one from [i] on. *)
Definition compacted (i : nat) (items items' : list ActionItem) : Prop :=
  length items' = length items - 1
  /\ (forall j, j < i -> items' !! j = items !! j)
  /\ (forall j, i <= j -> items' !! j = items !! S j).

(** How [deleteActionItem emailId i] relates an email before and after. *)
Definition deletedAt (emailId : string) (i : nat) (e e' : Email) : Prop :=
  (id e <> emailId -> e' = e)
  /\ (id e = emailId ->
      forall items, action_items e = Some items -> i < length items ->
      exists items', e' = with_action_items e (Some items')
                     /\ compacted i items items').

(** The completion flag read as a boolean: absent is not completed. *)
Definition isCompleted (item : ActionItem) : bool :=
  match completed item with
  | Some b => b
  | None => false
  end.

(** [items'] is [items] with the completion flag of position [i] flipped. *)
Definition flippedAt (i : nat) (items items' : list ActionItem) : Prop :=
  length items' = length items
  /\ (forall j, j <> i -> items' !! j = items !! j)
  /\ (forall item, items !! i = Some item ->
      items' !! i = Some (with_completed item (Some (negb (isCompleted item))))).

(** How [toggleActionItem emailId i] relates an email before and after. *)
Definition toggledAt (emailId : string) (i : nat) (e e' : Email) : Prop :=
  (id e <> emailId -> e' = e)
  /\ (action_items e = None -> e' = e)
  /\ (id e = emailId ->
      forall items, action_items e = Some items ->
      exists items', e' = with_action_items e (Some items')
                     /\ flippedAt i items items').

(** Every item that [toggleActionItem emailId i] addresses in [l]
    carries a completion flag. *)
Definition flagPresent (emailId : string) (i : nat) (l : list Email) : Prop :=
  forall e items item,
    In e l -> id e = emailId -> action_items e = Some items ->
    items !! i = Some item -> completed item <> None.

(** [e'] is [e] in every field but [category]. *)
Definition sameButCategory (e e' : Email) : Prop :=
  id e' = id e /\ sender e' = sender e /\ subject e' = subject e
  /\ body e' = body e /\ timestamp e' = timestamp e /\ read e' = read e
  /\ action_items e' = action_items e /\ source e' = source e
  /\ snippet e' = snippet e /\ to e' = to e /\ cc e' = cc e /\ bcc e' = bcc e
  /\ thread_id e' = thread_id e /\ message_id e' = message_id e
  /\ history_id e' = history_id e /\ label_ids e' = label_ids e
  /\ internal_date e' = internal_date e.

(** [e'] is [e] in every field but [action_items]. *)
Definition sameButActionItems (e e' : Email) : Prop :=
  id e' = id e /\ sender e' = sender e /\ subject e' = subject e
  /\ body e' = body e /\ timestamp e' = timestamp e /\ read e' = read e
  /\ category e' = category e /\ source e' = source e
  /\ snippet e' = snippet e /\ to e' = to e /\ cc e' = cc e /\ bcc e' = bcc e
  /\ thread_id e' = thread_id e /\ message_id e' = message_id e
  /\ history_id e' = history_id e /\ label_ids e' = label_ids e
  /\ internal_date e' = internal_date e.

(** The map callback of a ["category"] event for [updated]. *)
Definition setCategory (updated email : Email) : Email :=
  if String.eqb (id email) (id updated)
  then with_category email (category updated) else email.

(** The map callback of an ["action_items"] event for [updated]. *)
Definition setActionItems (updated email : Email) : Email :=
  if String.eqb (id email) (id updated)
  then with_action_items email (action_items updated) else email.

(** What a ["category"] event for [updated] does to an email. *)
Definition recategorized (updated e e' : Email) : Prop :=
  (id e <> id updated -> e' = e)
  /\ (id e = id updated ->
      sameButCategory e e' /\ category e' = category updated).

(** What an ["action_items"] event for [updated] does to an email. *)
Definition reitemized (updated e e' : Email) : Prop :=
  (id e <> id updated -> e' = e)
  /\ (id e = id updated ->
      sameButActionItems e e' /\ action_items e' = action_items updated).


(** The store outside its two email lists. *)
Definition sameButLists (s s' : Store.AppState) : Prop :=
  Store.prompts s' = Store.prompts s /\ Store.settings s' = Store.settings s
  /\ Store.selectedEmailId s' = Store.selectedEmailId s
  /\ Store.selectedThreadEmails s' = Store.selectedThreadEmails s
  /\ Store.isLoading s' = Store.isLoading s
  /\ Store.gmailStatus s' = Store.gmailStatus s
  /\ Store.isSyncingGmail s' = Store.isSyncingGmail s.

(** Every email of every thread has the thread's key as normalized
    subject, and comes from [source]. *)
Definition grouped (source : list Email) (ts : list InboxViewer.EmailThread) : Prop :=
  forall t e, In t ts -> In e (InboxViewer.t_emails t) ->
    In e source /\ InboxViewer.normalizeSubject (subject e) = InboxViewer.t_id t.

(** Every email of [source] is in a thread. *)
Definition covered (source : list Email) (ts : list InboxViewer.EmailThread) : Prop :=
  forall e, In e source -> exists t, In t ts /\ In e (InboxViewer.t_emails t).

(** A thread whose emails are passed through [g]. *)
Definition mapThread (g : Email -> Email) (t : InboxViewer.EmailThread)
  : InboxViewer.EmailThread :=
  InboxViewer.mkEmailThread (InboxViewer.t_id t) (InboxViewer.t_subject t)
    (map g (InboxViewer.t_emails t)) (InboxViewer.latestTimestamp t)
    (InboxViewer.hasUnread t).

(** The thread ids a chat request carries when it is sent right after
    the click on [email] of [thread]. *)
Definition threadContextAfterClick (email : Email) (thread : InboxViewer.EmailThread)
    (expandedThreads : gset string) (s : Store.AppState) : option (list string) :=
  AgentChat.threadEmailIds
    (Store.selectedThreadEmails
       (snd (fst (InboxViewer.handleEmailClick email thread expandedThreads s)))).

End Spec.

(** ** Sample data *)

Module Sample.
Import Types.

Definition mail (i subj stamp : string) (src thread : option string)
    (items : option (list ActionItem)) : Email :=
  mkEmail i "ana@example.com" subj "Please review the attached budget." stamp false
    None items src None None None None thread None None None None.

Definition connected : GmailStatus :=
  mkGmailStatus true (Some "me@gmail.com") None None None None None.

Definition disconnected : GmailStatus :=
  mkGmailStatus false None None None None None None.

Definition todo (t : string) (c : option bool) : ActionItem :=
  mkActionItem t None c.

Definition stateOf (l : list Email) (status : option GmailStatus) : Store.AppState :=
  Store.mkAppState (Store.filterEmailsForDisplay l status) l None None None []
    false status false.

(** [new Date(s).getTime()] on the timestamps of the samples. *)
Definition clock (s : string) : option Z :=
  if String.eqb s "2024-03-01T09:00:00Z" then Some 1709283600000%Z
  else if String.eqb s "2024-03-02T09:00:00Z" then Some 1709370000000%Z
  else None.

Definition budget : Email :=
  mail "m1" "Budget" "2024-03-01T09:00:00Z" (Some "gmail") (Some "thread-17") None.

(** Another conversation, which happens to carry the same subject. *)
Definition budgetAgain : Email :=
  mail "m2" "RE:  budget " "2024-03-02T09:00:00Z" (Some "gmail") (Some "thread-42") None.

(** A reply in the first conversation, which arrives later. *)
Definition budgetLater : Email :=
  mail "m5" "Re: Budget" "2024-03-02T09:00:00Z" (Some "gmail") (Some "thread-17") None.

Definition asking (question : string) : AgentChat.Panel :=
  AgentChat.mkPanel ∅ question false [].

Definition lunch : Email :=
  mail "m3" "Lunch" "2024-03-02T09:00:00Z" (Some "mock") None None.

Definition categoryEvent (i c : string) : Store.Data :=
  Store.mkData (Some "category") None
    (Some (Types.with_category (mail i "" "" None None None) (Some c))).

(** The events of the sample streams, and a decoder that knows their
    texts. *)
Definition groqFailure : Store.Data :=
  Store.mkData (Some "error")
    (Some "Error calling Groq API: 401 Invalid API Key") None.

Definition ollamaFailure : Store.Data :=
  Store.mkData (Some "error")
    (Some "Error calling Ollama: connection refused") None.

Definition decode (text : string) : option Store.Data :=
  if String.eqb text "{category m1 Work}" then Some (categoryEvent "m1" "Work")
  else if String.eqb text "{category m3 Personal}" then Some (categoryEvent "m3" "Personal")
  else if String.eqb text "{error groq}" then Some groqFailure
  else if String.eqb text "{error ollama}" then Some ollamaFailure
  else if String.eqb text "{complete}" then Some (Store.mkData (Some "complete") None None)
  else None.

Definition newline : string := String "010" EmptyString.

Definition worldOf (l : list Email) (status : option GmailStatus) : Store.World :=
  Store.mkWorld (stateOf l status) [] 0.

Definition form (recipients : string) : GmailComposer.World :=
  GmailComposer.mkWorld
    (GmailComposer.mkComposer recipients "" "" "Budget" "See attached." false None) [].

Definition plainConfig : GmailComposer.ComposerConfig :=
  GmailComposer.mkComposerConfig None None None None None None None.

Definition reliable : GmailComposer.Backend :=
  GmailComposer.mkBackend (fun _ => true) true true.

End Sample.

From stdpp Require Import sorting.

(** ** The other actions of the store ([lib/store]) *)

Module StoreOps.
Import JsString Types Store.

(** [set({ isSyncingGmail: b })] *)
Definition set_isSyncingGmail (b : bool) (s : AppState) : AppState :=
  mkAppState (emails s) (allEmails s) (prompts s) (settings s) (selectedEmailId s)
    (selectedThreadEmails s) (isLoading s) (gmailStatus s) b.

(** [fetchGmailStatus]; [response] is what [api.getGmailStatus()] settled
    with, [None] when it rejects. *)
Definition fetchGmailStatusCall (response : option GmailStatus) (s : AppState)
  : Completion AppState :=
  match response with
  | Some status => Returned (fetchGmailStatus status s)
  | None => Threw s "Unable to fetch Gmail status"
  end.

(** [resetInbox]; [reset] tells whether [api.resetInbox()] resolves and
    [response] is what [api.getEmails()] settled with. *)
Definition resetInbox (reset : bool) (response : option (list Email)) (s : AppState)
  : Completion AppState :=
  let s1 := set_isLoading true s in
  finally
    (if reset then
       match response with
       | Some fetched =>
           let status := gmailStatus s1 in
           Returned
             (mkAppState (filterEmailsForDisplay fetched status) fetched (prompts s1)
                (settings s1) None (selectedThreadEmails s1) (isLoading s1)
                (gmailStatus s1) (isSyncingGmail s1))
       | None => Threw s1 "TypeError: Failed to fetch"
       end
     else Threw s1 "TypeError: Failed to fetch")
    (set_isLoading false).

(** [loadOAuthEmails]; [response] is the [emails] of what
    [api.loadOAuthEmails()] settled with. *)
Definition loadOAuthEmails (response : option (list Email)) (s : AppState)
  : Completion AppState :=
  let s1 := set_isLoading true s in
  finally
    match response with
    | Some fetched =>
        let status := gmailStatus s1 in
        Returned (set_lists fetched (filterEmailsForDisplay fetched status) s1)
    | None => Threw s1 "TypeError: Failed to fetch"
    end
    (set_isLoading false).

(** [manualGmailSync]; [synced] tells whether [api.syncGmail(full)]
    resolves, then come the settlements of [api.getEmails()] and
    [api.getGmailStatus()]. *)
Definition manualGmailSync (synced : bool) (fetched : option (list Email))
    (response : option GmailStatus) (s : AppState) : Completion AppState :=
  let s1 := set_isSyncingGmail true s in
  finally
    (if synced then
       match fetched, response with
       | Some all, Some status =>
           Returned
             (mkAppState (filterEmailsForDisplay all (Some status)) all (prompts s1)
                (settings s1) (selectedEmailId s1) (selectedThreadEmails s1)
                (isLoading s1) (Some status) (isSyncingGmail s1))
       | Some _, None => Threw s1 "Unable to fetch Gmail status"
       | None, _ => Threw s1 "TypeError: Failed to fetch"
       end
     else Threw s1 "Sync failed")
    (set_isSyncingGmail false).

(** [logoutGmail]; the settlements of [api.logoutGmail()] and
    [api.getEmails()]. *)
Definition logoutGmail (response : option GmailStatus) (fetched : option (list Email))
    (s : AppState) : Completion AppState :=
  match response, fetched with
  | Some status, Some all =>
      Returned
        (mkAppState (filterEmailsForDisplay all (Some status)) all (prompts s)
           (settings s) None (selectedThreadEmails s) (isLoading s) (Some status)
           (isSyncingGmail s))
  | Some _, None => Threw s "TypeError: Failed to fetch"
  | None, _ => Threw s "Unable to logout from Gmail"
  end.

(** [clearIndexes]; [cleared] tells whether [api.clearIndexes()] resolves. *)
Definition clearIndexes (cleared : bool) (s : AppState) : Completion AppState :=
  if cleared then
    Returned
      (mkAppState [] [] (prompts s) (settings s) None (selectedThreadEmails s)
         (isLoading s) (gmailStatus s) (isSyncingGmail s))
  else Threw s "Unable to clear email index".

(** [set({ prompts })] *)
Definition set_prompts (p : Prompts) (s : AppState) : AppState :=
  mkAppState (emails s) (allEmails s) (Some p) (settings s) (selectedEmailId s)
    (selectedThreadEmails s) (isLoading s) (gmailStatus s) (isSyncingGmail s).

(** [set({ settings })] *)
Definition set_settings (v : Settings) (s : AppState) : AppState :=
  mkAppState (emails s) (allEmails s) (prompts s) (Some v) (selectedEmailId s)
    (selectedThreadEmails s) (isLoading s) (gmailStatus s) (isSyncingGmail s).

(** [fetchPrompts]; [response] is what [api.getPrompts()] settled with. *)
Definition fetchPrompts (response : option Prompts) (s : AppState)
  : Completion AppState :=
  match response with
  | Some p => Returned (set_prompts p s)
  | None => Threw s "TypeError: Failed to fetch"
  end.

(** [updatePrompts]; [saved] tells whether [api.updatePrompts(prompts)]
    resolves. *)
Definition updatePrompts (saved : bool) (p : Prompts) (s : AppState)
  : Completion AppState :=
  if saved then Returned (set_prompts p s) else Threw s "TypeError: Failed to fetch".

(** [fetchSettings]; [response] is what [api.getSettings()] settled with. *)
Definition fetchSettings (response : option Settings) (s : AppState)
  : Completion AppState :=
  match response with
  | Some v => Returned (set_settings v s)
  | None => Threw s "TypeError: Failed to fetch"
  end.

(** [updateSettings]; [saved] tells whether [api.updateSettings(settings)]
    resolves. *)
Definition updateSettings (saved : bool) (v : Settings) (s : AppState)
  : Completion AppState :=
  if saved then Returned (set_settings v s) else Threw s "TypeError: Failed to fetch".

(** [emails.filter(e => !e.read).length] of the page. *)
Definition unreadCount (emails : list Email) : nat :=
  length (List.filter (fun e => negb (read e)) emails).

(** [emails.find(e => e.id === selectedEmailId)] of the page. *)
Definition selectedEmail (s : AppState) : option Email :=
  match selectedEmailId s with
  | Some i => find (fun e => String.eqb (id e) i) (emails s)
  | None => None
  end.

(** The world a [Flow] carries. *)
Definition flowWorld (f : Flow) : World :=
  match f with
  | Continue w => w
  | Return w => w
  | Throw w _ => w
  end.

End StoreOps.

(** ** The rest of the inbox list ([components/InboxViewer]) *)

Module InboxView.
Import JsString Types InboxViewer.

Inductive Folder := inbox | drafts | sent | spam.

(** [email.category?.toLowerCase().includes(word)], [undefined] without a
    category. *)
Definition categoryIncludes (email : Email) (word : string) : option bool :=
  match category email with
  | Some c => Some (includes word (toLowerCase c))
  | None => None
  end.

(** [!x] and [x || false] on such a value: [undefined] is falsy. *)
Definition isFalsy (x : option bool) : bool :=
  match x with
  | Some b => negb b
  | None => true
  end.

Definition orFalse (x : option bool) : bool :=
  match x with
  | Some b => b
  | None => false
  end.

Definition matchesFolder (filter : Folder) (email : Email) : bool :=
  match filter with
  | inbox => isFalsy (categoryIncludes email "spam")
             && isFalsy (categoryIncludes email "draft")
             && isFalsy (categoryIncludes email "sent")
  | spam => orFalse (categoryIncludes email "spam")
  | drafts => orFalse (categoryIncludes email "draft")
  | sent => orFalse (categoryIncludes email "sent")
  end.

(** The callback of [emails.filter] that gives [filteredEmails]. *)
Definition keepEmail (filter : Folder) (subFilter : string) (email : Email) : bool :=
  if negb (matchesFolder filter email) then false
  else if String.eqb subFilter "unread" then negb (read email)
  else if negb (String.eqb subFilter "all") then
    match category email with
    | Some c => String.eqb c subFilter
    | None => false
    end
  else true.

Definition filteredEmails (filter : Folder) (subFilter : string) (emails : list Email)
  : list Email :=
  List.filter (keepEmail filter subFilter) emails.

(** [Array.from(new Set(values))]: the values in the order of their first
    occurrence. *)
Fixpoint fromSet (seen values : list string) : list string :=
  match values with
  | [] => []
  | v :: r => if existsb (String.eqb v) seen then fromSet seen r
              else v :: fromSet (v :: seen) r
  end.

(** The [categories] of the filter pills. *)
Definition categories (emails : list Email) : list string :=
  fromSet []
    (flat_map (fun email =>
                 match category email with
                 | Some cat => if negb (String.eqb (trim cat) "") then [cat] else []
                 | None => []
                 end) emails).

(** [toggleThread] *)
Definition toggleThread (threadId : string) (expandedThreads : gset string) : gset string :=
  if bool_decide (threadId ∈ expandedThreads)
  then expandedThreads ∖ {[threadId]}
  else expandedThreads ∪ {[threadId]}.

(** [displayEmails] of a thread in the list; a thread holds an email. *)
Definition displayEmails (thread : EmailThread) (expandedThreads : gset string)
  : list Email :=
  let isExpanded := bool_decide (t_id thread ∈ expandedThreads) in
  if Nat.eqb (length (t_emails thread)) 1 then t_emails thread
  else if isExpanded then t_emails thread
  else firstn 1 (t_emails thread).

End InboxView.

(** ** Reset of the general chat ([components/Chat]) *)

Module ChatPage.
Import Types.

(** [handleReset]; [confirmed] is the answer to [confirm(...)]. *)
Definition handleReset (confirmed : bool) (p : Chat.Panel) : Chat.Panel :=
  if confirmed
  then Chat.mkPanel [] (Chat.input p) (Chat.isLoading p) (Chat.sent p) (Chat.console p)
  else p.

End ChatPage.

(** ** Opening the composer ([components/GmailComposer]) *)

Module ComposerForm.
Import JsString Types GmailComposer.

(** The effect that runs when [config] changes. *)
Definition loadConfig (config : option ComposerConfig) (c : Composer) : Composer :=
  match config with
  | Some cfg =>
      mkComposer (toInput (cfg_to cfg)) (toInput (cfg_cc cfg)) (toInput (cfg_bcc cfg))
        (match cfg_subject cfg with Some (String _ _ as s) => s | _ => "" end)
        (match cfg_body cfg with Some (String _ _ as b) => b | _ => "" end)
        (isSending c) None
  | None => c
  end.

End ComposerForm.

(** ** Replying from the page ([app/page]) *)

Module Page.
Import JsString GmailComposer Types.

Inductive Tab :=
| tab_inbox | tab_drafts | tab_sent | tab_spam | tab_compose
| tab_action_items | tab_prompts | tab_settings | tab_chat.

Record PageState := mkPageState {
  activeTab : Tab;
  composerConfig : option ComposerConfig;
  shown : list string
}.

(** The characters before the first [>]; [None] without one. *)
Fixpoint upToGt (s : string) : option string :=
  match s with
  | EmptyString => None
  | String c r =>
      if Ascii.eqb c ">" then Some EmptyString
      else match upToGt r with
           | Some inner => Some (String c inner)
           | None => None
           end
  end.

(** The group of the first match of [/<([^>]+)>/]. *)
Fixpoint matchAngle (s : string) : option string :=
  match s with
  | EmptyString => None
  | String c r =>
      if Ascii.eqb c "<" then
        match upToGt r with
        | Some (String _ _ as inner) => Some inner
        | _ => matchAngle r
        end
      else matchAngle r
  end.

Definition extractAddress (value : option string) : string :=
  match value with
  | Some (String _ _ as v) =>
      match matchAngle v with
      | Some address => address
      | None => v
      end
  | _ => ""
  end.

Definition openComposer (gmailStatus : option GmailStatus)
    (config : option ComposerConfig) (p : PageState) : PageState :=
  if negb (Store.isAuthenticated gmailStatus) then
    mkPageState (activeTab p) (composerConfig p)
      (shown p ++ ["Connect Gmail before composing."])
  else
    let orEmpty (l : option (list string)) :=
      match l with Some x => x | None => [] end in
    let orBlank (s : option string) :=
      match s with Some (String _ _ as x) => x | _ => "" end in
    mkPageState tab_compose
      (Some (mkComposerConfig
               (Some (orEmpty (match config with Some c => cfg_to c | None => None end)))
               (Some (orEmpty (match config with Some c => cfg_cc c | None => None end)))
               None
               (Some (orBlank (match config with Some c => cfg_subject c | None => None end)))
               (Some (orBlank (match config with Some c => cfg_body c | None => None end)))
               (match config with Some c => threadId c | None => None end)
               (match config with Some c => inReplyTo c | None => None end)))
      (shown p).

(** [email.body.split("\n").map((line) => `> ${line}`).join("\n")], and
    the empty text for an empty body. *)
Definition quoted (body : string) : string :=
  match body with
  | EmptyString => EmptyString
  | _ => join (String "010" EmptyString)
           (map (fun line => String.append "> " line) (split "010" body))
  end.

(** The subject of the reply. *)
Definition replySubject (subject : string) : string :=
  if startsWith "Re:" subject then subject else String.append "Re: " subject.

Section Reply.

(** [new Date(timestamp).toLocaleString()] *)
Variable toLocaleString : string -> string.

(** The argument [handleReplyWithGmail] gives to [openComposer]. *)
Definition replyConfig (email : Email) : ComposerConfig :=
  mkComposerConfig (Some [extractAddress (Some (sender email))]) None None
    (Some (replySubject (subject email)))
    (Some (String.append (String "010" (String "010" EmptyString))
             (String.append "On "
                (String.append (toLocaleString (timestamp email))
                   (String.append ", "
                      (String.append (sender email)
                         (String.append " wrote:"
                            (String.append (String "010" EmptyString)
                               (quoted (body email))))))))))
    (thread_id email) (message_id email).

Definition handleReplyWithGmail (gmailStatus : option GmailStatus) (email : Email)
    (p : PageState) : PageState :=
  openComposer gmailStatus (Some (replyConfig email)) p.

End Reply.

End Page.

(** ** Notions the further properties are stated with *)

Module Props.
Import JsString Types.

(** The displayed list is the display filter of the full list under the
    status of the store. *)
Definition displayConsistent (s : Store.AppState) : Prop :=
  Store.emails s
  = Store.filterEmailsForDisplay (Store.allEmails s) (Store.gmailStatus s).

(** One step of the store during ingestion under [status]: nothing, or
    both lists replaced by a list and its display filter. *)
Definition listsStep (status : option GmailStatus) (s s' : Store.AppState) : Prop :=
  s' = s
  \/ exists all, s' = Store.set_lists all (Store.filterEmailsForDisplay all status) s.

(** The store as ingestion may leave it, past the loading flag: the
    status, the selection, the prompts and the settings of [s], and
    either the lists of [s] or a displayed list that is the display
    filter of the full list. *)
Definition ingested (s s' : Store.AppState) : Prop :=
  Store.gmailStatus s' = Store.gmailStatus s
  /\ Store.selectedEmailId s' = Store.selectedEmailId s
  /\ Store.selectedThreadEmails s' = Store.selectedThreadEmails s
  /\ Store.prompts s' = Store.prompts s
  /\ Store.settings s' = Store.settings s
  /\ Store.isSyncingGmail s' = Store.isSyncingGmail s
  /\ Store.isLoading s' = true
  /\ ((Store.emails s' = Store.emails s /\ Store.allEmails s' = Store.allEmails s)
      \/ displayConsistent s').

(** The worlds ingestion passes through, from the world [w0] it started
    in: while it runs no alert is shown, when it stops at most one is. *)
Definition running (w0 w : Store.World) : Prop :=
  ingested (Store.store w0) (Store.store w) /\ Store.alerts w = Store.alerts w0.

Definition stopped (w0 w : Store.World) : Prop :=
  ingested (Store.store w0) (Store.store w)
  /\ (Store.alerts w = Store.alerts w0
      \/ exists m, Store.alerts w = Store.alerts w0 ++ [m]).

(** The index [k] addresses no action item of the emails [emailId] of [l]. *)
Definition outOfRange (emailId : string) (k : Z) (l : list Email) : Prop :=
  forall e items, In e l -> id e = emailId -> action_items e = Some items ->
    (k < 0 \/ Z.of_nat (length items) <= k)%Z.

(** Where the item of index [j] is found once index [i] is deleted. *)
Definition shifted (i j : nat) : nat := if Nat.ltb j i then j else j - 1.

(** A string without the code unit [c]. *)
Fixpoint lacks (c : ascii) (s : string) : bool :=
  match s with
  | EmptyString => true
  | String a r => negb (Ascii.eqb a c) && lacks c r
  end.

(** A recipient as [parseRecipients] returns it: not empty, trimmed, and
    without a comma. *)
Definition cleanRecipient (r : string) : Prop :=
  r <> "" /\ trim r = r /\ lacks "," r = true.

(** Every timestamp of [l] is a valid date. *)
Definition datesValid (getTime : string -> option Z) (l : list Email) : Prop :=
  forall e, In e l -> getTime (timestamp e) <> None.

(** [a] is not older than [b]. *)
Definition notOlder (getTime : string -> option Z) (a b : string) : Prop :=
  match getTime a, getTime b with
  | Some x, Some y => (y <= x)%Z
  | _, _ => False
  end.

(** A valid date. *)
Definition dated (getTime : string -> option Z) (stamp : string) : Prop :=
  getTime stamp <> None.

(** The summary a thread carries is that of its emails: it holds an
    email, it is unread exactly when one of its emails is, and its latest
    timestamp is the timestamp of one of its emails, not older than any. *)
Definition summarized (getTime : string -> option Z) (t : InboxViewer.EmailThread)
  : Prop :=
  InboxViewer.t_emails t <> []
  /\ InboxViewer.hasUnread t
     = existsb (fun e => negb (read e)) (InboxViewer.t_emails t)
  /\ (exists e, In e (InboxViewer.t_emails t)
                /\ InboxViewer.latestTimestamp t = timestamp e)
  /\ (forall e, In e (InboxViewer.t_emails t) ->
        notOlder getTime (InboxViewer.latestTimestamp t) (timestamp e)).

(** A string of white space only. *)
Fixpoint blank (s : string) : bool :=
  match s with
  | EmptyString => true
  | String c r => isWhiteSpace c && blank r
  end.

(** The order of [Array.prototype.sort()] on strings. *)
Definition strLe (a b : string) : Prop := String.compare a b <> Gt.

(** One write to the store that is not [setSelectedThreadEmails]: an
    action of the store as it settles, or, for the ingestion run, which
    the other actions interleave with, one of its writes (the loading
    flag, or what one line of the stream does under the status the run
    captured). *)
Inductive acts : Store.AppState -> Store.AppState -> Prop :=
| acts_fetchEmails r s : acts s (settled (Store.fetchEmails r s))
| acts_fetchPrompts r s : acts s (settled (StoreOps.fetchPrompts r s))
| acts_updatePrompts b p s : acts s (settled (StoreOps.updatePrompts b p s))
| acts_fetchSettings r s : acts s (settled (StoreOps.fetchSettings r s))
| acts_updateSettings b v s : acts s (settled (StoreOps.updateSettings b v s))
| acts_setSelectedEmailId i s : acts s (fst (Store.setSelectedEmailId i s))
| acts_resetInbox b r s : acts s (settled (StoreOps.resetInbox b r s))
| acts_loadOAuthEmails r s : acts s (settled (StoreOps.loadOAuthEmails r s))
| acts_toggleActionItem i k s : acts s (fst (Store.toggleActionItem i k s))
| acts_deleteActionItem i k s : acts s (fst (Store.deleteActionItem i k s))
| acts_fetchGmailStatus r s : acts s (settled (StoreOps.fetchGmailStatusCall r s))
| acts_manualGmailSync b f r s : acts s (settled (StoreOps.manualGmailSync b f r s))
| acts_logoutGmail r f s : acts s (settled (StoreOps.logoutGmail r f s))
| acts_clearIndexes b s : acts s (settled (StoreOps.clearIndexes b s))
| acts_setLoading b s : acts s (Store.set_isLoading b s)
| acts_ingestLine parse getEmails status shown line w :
    acts (Store.store w)
      (Store.store
         (StoreOps.flowWorld (Store.handleLine parse getEmails status shown line w))).

(** [s'] is the store some writes after [s], none of them a
    [setSelectedThreadEmails]. *)
Inductive reaches : Store.AppState -> Store.AppState -> Prop :=
| reaches_now s : reaches s s
| reaches_step s s' s'' : reaches s s' -> acts s' s'' -> reaches s s''.

(** The click on [email] of [thread] collapses the thread: the thread
    holds several emails, [email] is the selected one and the thread is
    expanded. *)
Definition collapses (email : Email) (thread : InboxViewer.EmailThread)
    (expandedThreads : gset string) (s : Store.AppState) : bool :=
  Nat.ltb 1 (length (InboxViewer.t_emails thread))
  && match Store.selectedEmailId s with
     | Some i => String.eqb i (id email)
     | None => false
     end
  && bool_decide (InboxViewer.t_id thread ∈ expandedThreads).

(** The chat panel [p] sends when asked to: the input is not blank and
    an email is selected. *)
Definition sends (selectedEmailId : option string) (p : AgentChat.Panel) : bool :=
  truthy (trim (AgentChat.input p))
  && match selectedEmailId with
     | Some (String _ _) => true
     | _ => false
     end.

End Props.

(** * Properties *)

(** ** The primitives on sample inputs *)

Example split_keeps_empty_entries :
  JsString.split "," "a,,b," = ["a"; ""; "b"; ""].
Proof. reflexivity. Qed.

Example trim_both_ends :
  JsString.trim (String "009" " a b  ") = "a b".
Proof. reflexivity. Qed.

Example normalizeSubject_reply :
  InboxViewer.normalizeSubject "RE:  Budget " = "budget".
Proof. reflexivity. Qed.

Example normalizeSubject_forward :
  InboxViewer.normalizeSubject "Fwd:Budget" = "budget"
  /\ InboxViewer.normalizeSubject "fw: Budget" = "budget".
Proof. split; reflexivity. Qed.

Example normalizeSubject_one_prefix_only :
  InboxViewer.normalizeSubject "Re: Fwd: Budget" = "fwd: budget".
Proof. reflexivity. Qed.

Example normalizeSubject_no_prefix :
  InboxViewer.normalizeSubject "Regarding the budget" = "regarding the budget".
Proof. reflexivity. Qed.

Example parseRecipients_sample :
  GmailComposer.parseRecipients " ana@example.com ,, bo@example.com" =
  ["ana@example.com"; "bo@example.com"].
Proof. reflexivity. Qed.

Example sort_is_stable :
  JsString.sort (fun a b => (Z.of_nat (fst b) - Z.of_nat (fst a))%Z)
    [(1, "a"); (3, "b"); (1, "c"); (3, "d")]
  = [(3, "b"); (3, "d"); (1, "a"); (1, "c")].
Proof. reflexivity. Qed.

Example chatKey_thread :
  AgentChat.chatKey (Some "m2") [Sample.budgetAgain; Sample.budget] = Some "thread:m1,m2"
  /\ AgentChat.chatKey (Some "m2") [Sample.budgetAgain] = Some "email:m2"
  /\ AgentChat.chatKey None [Sample.budgetAgain] = None.
Proof. repeat split; reflexivity. Qed.

Example greeting_counts_the_thread :
  AgentChat.greeting [Sample.budgetAgain; Sample.budget]
  = "Hi! I'm your Email Agent. I have context of all 2 emails in this thread. Ask me anything!".
Proof. vm_compute. reflexivity. Qed.

Example filterEmailsForDisplay_sample :
  Store.filterEmailsForDisplay [Sample.budget; Sample.lunch] (Some Sample.connected)
  = [Sample.budget]
  /\ Store.filterEmailsForDisplay [Sample.budget; Sample.lunch] (Some Sample.disconnected)
     = [Sample.lunch]
  /\ Store.filterEmailsForDisplay [Sample.budget; Sample.lunch] None = [Sample.lunch].
Proof. repeat split; reflexivity. Qed.

(** ** The displayed view holds one corpus *)

Section DisplayFilter.
Import JsString Types Store Spec.

Lemma sourceIs_true (e : Email) (s : string) :
  sourceIs e s = true <-> exists src, source e = Some src /\ toLowerCase src = s.
Proof.
  unfold sourceIs. destruct (source e) as [src|].
  - rewrite String.eqb_eq. split.
    + intros H. exists src. auto.
    + intros (src' & Hs & Hl). congruence.
  - split; [discriminate | intros (src' & Hs & _); discriminate].
Qed.

Lemma gmailCorpus_test (e : Email) :
  gmailCorpus e <-> sourceIs e "gmail" || sourceIs e "gmail_draft" = true.
Proof.
  unfold gmailCorpus. rewrite orb_true_iff, !sourceIs_true. split.
  - intros (src & Hs & [H | H]); [left | right]; eauto.
  - intros [(src & Hs & H) | (src & Hs & H)]; exists src; auto.
Qed.

Lemma not_gmailCorpus_test (e : Email) :
  ~ gmailCorpus e <->
  negb (sourceIs e "gmail") && negb (sourceIs e "gmail_draft") = true.
Proof.
  rewrite gmailCorpus_test, <- negb_orb, negb_true_iff.
  destruct (sourceIs e "gmail" || sourceIs e "gmail_draft"); split; congruence.
Qed.

Lemma displayed_connected (l : list Email) (status : option GmailStatus) (e : Email) :
  isAuthenticated status = true ->
  (In e (filterEmailsForDisplay l status) <-> In e l /\ gmailCorpus e).
Proof.
  intros Ha. unfold filterEmailsForDisplay. rewrite Ha, filter_In, gmailCorpus_test.
  reflexivity.
Qed.

Lemma displayed_disconnected (l : list Email) (status : option GmailStatus) (e : Email) :
  isAuthenticated status = false ->
  (In e (filterEmailsForDisplay l status) <-> In e l /\ ~ gmailCorpus e).
Proof.
  intros Ha. unfold filterEmailsForDisplay. rewrite Ha, filter_In, not_gmailCorpus_test.
  reflexivity.
Qed.

(** C2, as stated, fails: with Gmail connected, an email whose source is
    spelled [Gmail] is displayed, although its source is neither
    [gmail] nor [gmail_draft]. *)
Lemma display_exact_source_counterexample :
  let e := Sample.mail "m1" "Budget" "2024-03-01T09:00:00Z" (Some "Gmail") None None in
  isAuthenticated (Some Sample.connected) = true
  /\ In e (filterEmailsForDisplay [e] (Some Sample.connected))
  /\ source e <> Some "gmail" /\ source e <> Some "gmail_draft".
Proof.
  cbv zeta. split; [reflexivity |]. split; [left; reflexivity |].
  split; discriminate.
Qed.

(** C2, amended: the displayed view holds one corpus, the source being
    compared in lower case.  With an authenticated status every
    displayed email is of the Gmail corpus, without one (or with no
    status at all) none is, and every email of the list is displayed
    under exactly one of the two. *)
Theorem display_corpus_exclusive (l : list Email) (on off : option GmailStatus) :
  isAuthenticated on = true ->
  isAuthenticated off = false ->
  Forall gmailCorpus (filterEmailsForDisplay l on)
  /\ Forall (fun e => ~ gmailCorpus e) (filterEmailsForDisplay l off)
  /\ (forall e, In e l ->
      (In e (filterEmailsForDisplay l on) /\ ~ In e (filterEmailsForDisplay l off))
      \/ (~ In e (filterEmailsForDisplay l on) /\ In e (filterEmailsForDisplay l off))).
Proof.
  intros Hon Hoff. split; [| split].
  - apply List.Forall_forall. intros e He.
    apply (displayed_connected l on e Hon) in He. tauto.
  - apply List.Forall_forall. intros e He.
    apply (displayed_disconnected l off e Hoff) in He. tauto.
  - intros e He.
    rewrite (displayed_connected l on e Hon), (displayed_disconnected l off e Hoff).
    destruct (sourceIs e "gmail" || sourceIs e "gmail_draft") eqn:Hb.
    + left. split; [split; [exact He | apply gmailCorpus_test; exact Hb] |].
      intros [_ Hn]. apply Hn, gmailCorpus_test. exact Hb.
    + right. split; [| split; [exact He |]].
      * intros [_ Hg]. apply gmailCorpus_test in Hg. congruence.
      * intros Hg. apply gmailCorpus_test in Hg. congruence.
Qed.

Lemma display_corpus_exclusive_witness :
  let g := Sample.mail "m1" "Budget" "2024-03-01T09:00:00Z" (Some "GMAIL") None None in
  let m := Sample.mail "m2" "Lunch" "2024-03-02T09:00:00Z" (Some "mock") None None in
  Forall gmailCorpus (filterEmailsForDisplay [g; m] (Some Sample.connected))
  /\ Forall (fun e => ~ gmailCorpus e) (filterEmailsForDisplay [g; m] None)
  /\ (forall e, In e [g; m] ->
      (In e (filterEmailsForDisplay [g; m] (Some Sample.connected))
       /\ ~ In e (filterEmailsForDisplay [g; m] None))
      \/ (~ In e (filterEmailsForDisplay [g; m] (Some Sample.connected))
          /\ In e (filterEmailsForDisplay [g; m] None))).
Proof.
  intros g m.
  apply (display_corpus_exclusive [g; m] (Some Sample.connected) None);
    reflexivity.
Defined.

End DisplayFilter.

(** ** Action items: delete and toggle *)

Section ActionItems.
Import JsString Types Store Spec.

Lemma with_action_items_same (e : Email) (items : list ActionItem) :
  action_items e = Some items -> with_action_items e (Some items) = e.
Proof. destruct e; simpl; intros ->; reflexivity. Qed.

Lemma filteri_from_all {A : Type} (p : A -> nat -> bool) (k : nat) (l : list A) :
  (forall x idx, k <= idx -> p x idx = true) -> filteri_from p k l = l.
Proof.
  revert k. induction l as [|x r IH]; intros k Hp; simpl; [reflexivity |].
  rewrite Hp by lia. f_equal. apply IH. intros y idx Hle. apply Hp. lia.
Qed.

Lemma filteri_from_skip (k i : nat) (items : list ActionItem) :
  filteri_from (fun _ idx => negb (Z.eqb (Z.of_nat idx) (Z.of_nat (k + i)))) k items
  = take i items ++ drop (S i) items.
Proof.
  revert k i. induction items as [|x r IH]; intros k i; simpl.
  - destruct i; reflexivity.
  - destruct i as [|i].
    + replace (k + 0) with k by lia. rewrite Z.eqb_refl. simpl.
      rewrite drop_0. apply filteri_from_all.
      intros _ idx Hle. apply negb_true_iff, Z.eqb_neq. lia.
    + destruct (Z.eqb_spec (Z.of_nat k) (Z.of_nat (k + S i))) as [Heq | _]; [lia |].
      simpl. f_equal. replace (k + S i) with (S k + i) by lia. apply IH.
Qed.

Lemma deleteItems_skip (i : nat) (items : list ActionItem) :
  deleteItems (Z.of_nat i) items = take i items ++ drop (S i) items.
Proof. apply (filteri_from_skip 0 i items). Qed.

Lemma deleteItems_compacted (i : nat) (items : list ActionItem) :
  i < length items -> compacted i items (deleteItems (Z.of_nat i) items).
Proof.
  intros Hi. rewrite deleteItems_skip. split; [| split].
  - rewrite length_app, length_take, length_drop. lia.
  - intros j Hj. rewrite lookup_app_l by (rewrite length_take; lia).
    apply lookup_take_lt. exact Hj.
  - intros j Hj. rewrite lookup_app_r by (rewrite length_take; lia).
    rewrite length_take, lookup_drop. f_equal. lia.
Qed.

Lemma deleteList_related (emailId : string) (i : nat) (l : list Email) :
  Forall2 (deletedAt emailId i) l (deleteList emailId (Z.of_nat i) l).
Proof.
  induction l as [|e r IH]; simpl; constructor; [| exact IH].
  unfold deletedAt. destruct (action_items e) as [items|] eqn:Ha.
  - destruct (String.eqb_spec (id e) emailId) as [Heq | Hne].
    + split; [congruence |]. intros _ items0 H0 Hlt. injection H0 as <-.
      eexists. split; [reflexivity |]. apply deleteItems_compacted. exact Hlt.
    + split; [reflexivity | congruence].
  - split; [reflexivity | discriminate].
Qed.

(** C6: deleting the action item at a valid index [i] of the email
    [emailId] compacts that email's list, in the displayed and in the
    full list: the list is one shorter, items below [i] keep their
    index, items above shift down by one, and every other email is
    unchanged. *)
Theorem deleteActionItem_compacts (s : AppState) (emailId : string) (i : nat) :
  let s' := fst (deleteActionItem emailId (Z.of_nat i) s) in
  Forall2 (deletedAt emailId i) (emails s) (emails s')
  /\ Forall2 (deletedAt emailId i) (allEmails s) (allEmails s').
Proof. simpl. split; apply deleteList_related. Qed.

Lemma deleteActionItem_compacts_witness :
  let items := [Sample.todo "call" None; Sample.todo "pay" (Some true);
                Sample.todo "sign" (Some false)] in
  let e := Sample.mail "m1" "Budget" "2024-03-01T09:00:00Z" None None (Some items) in
  let s' := fst (deleteActionItem "m1" 1 (Sample.stateOf [e] None)) in
  1 < length items
  /\ allEmails s'
     = [with_action_items e (Some [Sample.todo "call" None; Sample.todo "sign" (Some false)])]
  /\ Forall2 (deletedAt "m1" 1) [e] (allEmails s').
Proof.
  intros items e s'. split; [simpl; lia |]. split; [reflexivity |].
  exact (proj2 (deleteActionItem_compacts (Sample.stateOf [e] None) "m1" 1)).
Defined.

Lemma mapi_from_length {A B : Type} (f : A -> nat -> B) (k : nat) (l : list A) :
  length (mapi_from f k l) = length l.
Proof. revert k. induction l; intros k; simpl; [reflexivity | f_equal; auto]. Qed.

Lemma mapi_from_lookup {A B : Type} (f : A -> nat -> B) (k j : nat) (l : list A) :
  mapi_from f k l !! j = (fun x => f x (k + j)) <$> (l !! j).
Proof.
  revert k j. induction l as [|x r IH]; intros k j; simpl; [reflexivity |].
  destruct j as [|j]; simpl.
  - replace (k + 0) with k by lia. reflexivity.
  - rewrite IH. replace (S k + j) with (k + S j) by lia. reflexivity.
Qed.

Lemma notCompleted_flip (item : ActionItem) : notCompleted item = negb (isCompleted item).
Proof. unfold notCompleted, isCompleted. destruct (completed item); reflexivity. Qed.

Lemma toggleItems_flipped (i : nat) (items : list ActionItem) :
  flippedAt i items (toggleItems (Z.of_nat i) items).
Proof.
  unfold toggleItems, mapi. split; [apply mapi_from_length | split].
  - intros j Hj. rewrite mapi_from_lookup. simpl.
    destruct (Z.eqb_spec (Z.of_nat j) (Z.of_nat i)) as [Heq | _]; [lia |].
    destruct (items !! j); reflexivity.
  - intros item Hi. rewrite mapi_from_lookup, Hi. simpl.
    rewrite Z.eqb_refl, notCompleted_flip. reflexivity.
Qed.

Lemma toggleList_related (emailId : string) (i : nat) (l : list Email) :
  Forall2 (toggledAt emailId i) l (toggleList emailId (Z.of_nat i) l).
Proof.
  induction l as [|e r IH]; simpl; constructor; [| exact IH].
  unfold toggledAt. destruct (action_items e) as [items|] eqn:Ha.
  - destruct (String.eqb_spec (id e) emailId) as [Heq | Hne].
    + split; [congruence |]. split; [discriminate |].
      intros _ items0 H0. injection H0 as <-.
      eexists. split; [reflexivity |]. apply toggleItems_flipped.
    + split; [reflexivity |]. split; [reflexivity | congruence].
  - split; [reflexivity |]. split; [reflexivity | discriminate].
Qed.

Lemma toggleItems_twice (i : nat) (items : list ActionItem) :
  (forall item, items !! i = Some item -> completed item <> None) ->
  toggleItems (Z.of_nat i) (toggleItems (Z.of_nat i) items) = items.
Proof.
  intros Hflag. apply list_eq. intros j. unfold toggleItems, mapi.
  rewrite !mapi_from_lookup. simpl.
  destruct (items !! j) as [item|] eqn:Hj; simpl; [| reflexivity].
  destruct (Z.eqb_spec (Z.of_nat j) (Z.of_nat i)) as [Heq | _]; [| reflexivity].
  assert (j = i) as -> by lia. specialize (Hflag item Hj).
  destruct item as [t d [b|]]; [| simpl in Hflag; congruence].
  unfold notCompleted, with_completed. simpl. rewrite negb_involutive. reflexivity.
Qed.

Lemma toggleList_twice (emailId : string) (i : nat) (l : list Email) :
  flagPresent emailId i l ->
  toggleList emailId (Z.of_nat i) (toggleList emailId (Z.of_nat i) l) = l.
Proof.
  induction l as [|e r IH]; intros Hflag; simpl; [reflexivity |].
  f_equal.
  - destruct (action_items e) as [items|] eqn:Ha.
    + destruct (String.eqb_spec (id e) emailId) as [Heq | Hne].
      * simpl. destruct e; simpl in *. subst.
        rewrite String.eqb_refl. unfold with_action_items. simpl. do 2 f_equal.
        apply toggleItems_twice. intros item Hi.
        eapply (Hflag _ _ item); [left; reflexivity | reflexivity | reflexivity | exact Hi].
      * rewrite Ha. apply String.eqb_neq in Hne. rewrite Hne. reflexivity.
    + rewrite Ha. reflexivity.
  - apply IH. intros e' items item Hin. apply Hflag. right. exact Hin.
Qed.

(** C9, as stated, fails: an action item that carries no [completed]
    flag has it set to [true] by the first toggle and to [false] by the
    second, so two toggles do not give the original lists back. *)
Lemma toggle_twice_counterexample :
  let e := Sample.mail "m1" "Budget" "2024-03-01T09:00:00Z" None None
             (Some [Sample.todo "call" None]) in
  let s := Sample.stateOf [e] None in
  let s2 := fst (toggleActionItem "m1" 0 (fst (toggleActionItem "m1" 0 s))) in
  allEmails s2
  = [with_action_items e (Some [Sample.todo "call" (Some false)])]
  /\ allEmails s2 <> allEmails s /\ emails s2 <> emails s.
Proof. cbv zeta. split; [reflexivity |]. split; discriminate. Qed.

(** C9, amended: one toggle at index [i] of the email [emailId] flips
    exactly the completion flag of item [i] of that email, an absent flag
    counting as not completed, and changes nothing else in either list;
    when the items it addresses carry a completion flag, a second
    toggle gives the original state back. *)
Theorem toggleActionItem_involutive (s : AppState) (emailId : string) (i : nat) :
  let s1 := fst (toggleActionItem emailId (Z.of_nat i) s) in
  let s2 := fst (toggleActionItem emailId (Z.of_nat i) s1) in
  Forall2 (toggledAt emailId i) (emails s) (emails s1)
  /\ Forall2 (toggledAt emailId i) (allEmails s) (allEmails s1)
  /\ (flagPresent emailId i (emails s) -> flagPresent emailId i (allEmails s) ->
      s2 = s).
Proof.
  simpl. split; [apply toggleList_related |]. split; [apply toggleList_related |].
  intros He Ha. rewrite !toggleList_twice by assumption. destruct s; reflexivity.
Qed.

Lemma toggleActionItem_involutive_witness :
  let e := Sample.mail "m1" "Budget" "2024-03-01T09:00:00Z" None None
             (Some [Sample.todo "call" (Some false); Sample.todo "pay" (Some true)]) in
  let s := Sample.stateOf [e] None in
  flagPresent "m1" 1 (emails s) /\ flagPresent "m1" 1 (allEmails s)
  /\ fst (toggleActionItem "m1" 1 (fst (toggleActionItem "m1" 1 s))) = s.
Proof.
  intros e s.
  assert (Hflag : flagPresent "m1" 1 [e]).
  { intros e' items item [<- | []] _ Ha Hi. simpl in Ha. injection Ha as <-.
    simpl in Hi. injection Hi as <-. discriminate. }
  split; [exact Hflag |]. split; [exact Hflag |].
  exact (proj2 (proj2 (toggleActionItem_involutive s "m1" 1)) Hflag Hflag).
Defined.

End ActionItems.

(** ** The composer sends only to a recipient *)

Section Composer.
Import JsString Types GmailComposer.

Lemma parseRecipients_entries (value : string) :
  Forall (fun r => r <> "") (parseRecipients value).
Proof.
  unfold parseRecipients. apply List.Forall_forall. intros r Hr.
  apply filter_In in Hr. destruct Hr as [_ Ht]. destruct r; [discriminate | discriminate].
Qed.

Lemma handleSend_effects (config : ComposerConfig) (backend : Backend) (w : World) :
  exists new,
    effects (settled (handleSend config backend w)) = effects w ++ new
    /\ forall payload, In (SendGmail payload) new ->
         parseRecipients (to (composer w)) <> []
         /\ p_to payload = parseRecipients (to (composer w)).
Proof.
  unfold handleSend.
  destruct (parseRecipients (to (composer w))) as [|r rs] eqn:Hto; simpl.
  - exists []. split; [rewrite app_nil_r; reflexivity | intros payload []].
  - unfold await.
    destruct (sendGmail backend _); simpl;
      try (destruct (fetchEmails backend); simpl);
      try (destruct (fetchGmailStatus backend); simpl);
      rewrite <- ?app_assoc; simpl.
    all: eexists; split; [reflexivity |].
    all: intros payload [Hin | Hin];
      [ injection Hin as <-; simpl; split; [discriminate | reflexivity]
      | simpl in Hin; intuition discriminate ].
Qed.

(** C10: the composer never issues a send request with an empty
    recipient list.  When the To field parses to no recipient,
    [handleSend] sets the error message and returns without any call;
    whatever the form and the backend, every send request it issues
    carries the recipients parsed from the To field, of which there is
    at least one and none is empty. *)
Theorem composer_send_needs_recipient
    (config : ComposerConfig) (backend : Backend) (w : World) :
  (parseRecipients (to (composer w)) = [] ->
   exists w', handleSend config backend w = Returned w'
              /\ error (composer w') = Some "At least one recipient is required."
              /\ effects w' = effects w)
  /\ (exists new,
       effects (settled (handleSend config backend w)) = effects w ++ new
       /\ forall payload, In (SendGmail payload) new ->
            parseRecipients (to (composer w)) <> []
            /\ p_to payload = parseRecipients (to (composer w))
            /\ Forall (fun r => r <> "") (p_to payload)).
Proof.
  split.
  - intros Hto. unfold handleSend. rewrite Hto. simpl.
    eexists. split; [reflexivity |]. split; reflexivity.
  - destruct (handleSend_effects config backend w) as (new & Heff & Hnew).
    exists new. split; [exact Heff |]. intros payload Hin.
    destruct (Hnew payload Hin) as [Hne Hto]. split; [exact Hne |].
    split; [exact Hto |]. rewrite Hto. apply parseRecipients_entries.
Qed.

Lemma composer_send_needs_recipient_witness :
  parseRecipients " , ,, " = []
  /\ (exists w', handleSend Sample.plainConfig Sample.reliable (Sample.form " , ,, ")
                 = Returned w'
                 /\ error (composer w') = Some "At least one recipient is required."
                 /\ effects w' = [])
  /\ parseRecipients "ana@example.com, , bo@example.com " = ["ana@example.com"; "bo@example.com"].
Proof.
  split; [reflexivity |]. split; [| reflexivity].
  apply (proj1 (composer_send_needs_recipient Sample.plainConfig Sample.reliable
                  (Sample.form " , ,, "))).
  reflexivity.
Defined.

End Composer.

(** ** Chat panels: failure of the backend, and isolation of sessions *)

Section ChatPanels.
Import JsString Types.

Lemma AgentChat_handleSend_rejected
    (chat : AgentChat.ChatRequest -> AgentChat.ChatOutcome)
    (emailId key err : string) (thread : list Email) (p : AgentChat.Panel) :
  emailId <> "" ->
  AgentChat.chatKey (Some emailId) thread = Some key ->
  truthy (trim (AgentChat.input p)) = true ->
  chat (AgentChat.mkChatRequest (AgentChat.input p) (Some emailId)
          (AgentChat.threadEmailIds thread)) = AgentChat.Rejected err ->
  exists p',
    AgentChat.handleSend chat (Some emailId) thread p = Returned p'
    /\ AgentChat.isLoading p' = false
    /\ AgentChat.history p' !! key
       = Some (AgentChat.currentMessages (AgentChat.history p) (Some emailId) thread
               ++ [AgentChat.mkMessage AgentChat.user (AgentChat.input p);
                   AgentChat.mkMessage AgentChat.agent "Sorry, I encountered an error."]).
Proof.
  intros Hid Hkey Hin Hrej. destruct emailId as [|c r]; [congruence |].
  unfold AgentChat.handleSend, AgentChat.currentMessages.
  rewrite Hkey, Hin. simpl negb. cbv iota. cbv zeta. rewrite Hrej. simpl.
  eexists. split; [reflexivity |]. split; [reflexivity |]. simpl.
  rewrite lookup_insert_eq. rewrite lookup_insert_eq. simpl.
  rewrite <- app_assoc. reflexivity.
Qed.

Lemma Chat_handleSend_rejected
    (chat : AgentChat.ChatRequest -> AgentChat.ChatOutcome)
    (now later : Z) (err : string) (p : Chat.Panel) :
  truthy (trim (Chat.input p)) = true ->
  Chat.isLoading p = false ->
  chat (AgentChat.mkChatRequest (Chat.input p) None None) = AgentChat.Rejected err ->
  exists p',
    Chat.handleSend chat now later p = Returned p'
    /\ Chat.isLoading p' = false
    /\ Chat.messages p'
       = Chat.messages p
         ++ [Chat.mkMessage Chat.user (Chat.input p) now;
             Chat.mkMessage Chat.assistant
               "Sorry, I encountered an error. Please try again." later].
Proof.
  intros Hin Hload Hrej. unfold Chat.handleSend. rewrite Hin, Hload. simpl.
  rewrite Hrej. simpl. eexists. split; [reflexivity |]. split; [reflexivity |].
  simpl. rewrite <- app_assoc. reflexivity.
Qed.

(** C7: a chat send whose backend call rejects does not fail.  In the
    per-email panel and in the general chat page alike, [handleSend]
    returns normally, the conversation ends with the user's message
    followed by the fallback assistant message in place of a response,
    and the loading flag is reset. *)
Theorem chat_failure_falls_back
    (chat : AgentChat.ChatRequest -> AgentChat.ChatOutcome) (err : string) :
  (forall (emailId key : string) (thread : list Email) (p : AgentChat.Panel),
     emailId <> "" ->
     AgentChat.chatKey (Some emailId) thread = Some key ->
     truthy (trim (AgentChat.input p)) = true ->
     chat (AgentChat.mkChatRequest (AgentChat.input p) (Some emailId)
             (AgentChat.threadEmailIds thread)) = AgentChat.Rejected err ->
     exists p',
       AgentChat.handleSend chat (Some emailId) thread p = Returned p'
       /\ AgentChat.isLoading p' = false
       /\ AgentChat.history p' !! key
          = Some (AgentChat.currentMessages (AgentChat.history p) (Some emailId) thread
                  ++ [AgentChat.mkMessage AgentChat.user (AgentChat.input p);
                      AgentChat.mkMessage AgentChat.agent
                        "Sorry, I encountered an error."]))
  /\ (forall (now later : Z) (p : Chat.Panel),
        truthy (trim (Chat.input p)) = true ->
        Chat.isLoading p = false ->
        chat (AgentChat.mkChatRequest (Chat.input p) None None)
        = AgentChat.Rejected err ->
        exists p',
          Chat.handleSend chat now later p = Returned p'
          /\ Chat.isLoading p' = false
          /\ Chat.messages p'
             = Chat.messages p
               ++ [Chat.mkMessage Chat.user (Chat.input p) now;
                   Chat.mkMessage Chat.assistant
                     "Sorry, I encountered an error. Please try again." later]).
Proof.
  split.
  - intros emailId key thread p. apply AgentChat_handleSend_rejected.
  - intros now later p. apply Chat_handleSend_rejected.
Qed.

Lemma chat_failure_falls_back_witness :
  let chat := fun _ : AgentChat.ChatRequest => AgentChat.Rejected "503" in
  let p := AgentChat.mkPanel ∅ "What is due?" false [] in
  let q := Chat.mkPanel [] "What is due?" false [] [] in
  (exists p',
     AgentChat.handleSend chat (Some "m1") [] p = Returned p'
     /\ AgentChat.isLoading p' = false
     /\ AgentChat.history p' !! "email:m1"
        = Some (AgentChat.currentMessages ∅ (Some "m1") []
                ++ [AgentChat.mkMessage AgentChat.user "What is due?";
                    AgentChat.mkMessage AgentChat.agent "Sorry, I encountered an error."]))
  /\ (exists q',
        Chat.handleSend chat 1000 2000 q = Returned q'
        /\ Chat.isLoading q' = false
        /\ Chat.messages q'
           = [Chat.mkMessage Chat.user "What is due?" 1000;
              Chat.mkMessage Chat.assistant
                "Sorry, I encountered an error. Please try again." 2000]).
Proof.
  intros chat p q. split.
  - apply (proj1 (chat_failure_falls_back chat "503") "m1" "email:m1" [] p);
      [discriminate | reflexivity | reflexivity | reflexivity].
  - apply (proj2 (chat_failure_falls_back chat "503") 1000%Z 2000%Z q);
      reflexivity.
Defined.

Lemma appendTurn_other (a b : string) (m : AgentChat.Message) (p : AgentChat.Panel) :
  a <> b -> AgentChat.history (AgentChat.appendTurn a m p) !! b = AgentChat.history p !! b.
Proof. intros Hab. unfold AgentChat.appendTurn. simpl. apply lookup_insert_ne. exact Hab. Qed.

Lemma handleSend_other
    (chat : AgentChat.ChatRequest -> AgentChat.ChatOutcome)
    (a b : string) (sel : option string) (thread : list Email) (p : AgentChat.Panel) :
  a <> b ->
  AgentChat.chatKey sel thread = Some a ->
  AgentChat.history (settled (AgentChat.handleSend chat sel thread p)) !! b
  = AgentChat.history p !! b.
Proof.
  intros Hab Hkey. destruct sel as [[|c r]|]; [discriminate | | discriminate].
  unfold AgentChat.handleSend. rewrite Hkey.
  destruct (negb (truthy (trim (AgentChat.input p)))); [reflexivity |].
  cbv zeta. destruct (chat _) as [response | err]; simpl;
    rewrite !lookup_insert_ne by exact Hab; reflexivity.
Qed.

Lemma currentMessages_lookup
    (h h' : gmap string (list AgentChat.Message)) (b : string)
    (sel : option string) (thread : list Email) :
  AgentChat.chatKey sel thread = Some b ->
  h' !! b = h !! b ->
  AgentChat.currentMessages h' sel thread = AgentChat.currentMessages h sel thread.
Proof.
  intros Hkey Hb. unfold AgentChat.currentMessages. rewrite Hkey, Hb. reflexivity.
Qed.

(** C8: chat sessions are isolated.  For distinct keys [a] and [b],
    appending a turn under [a], and a whole send under [a] (the user's
    message, then the agent's response or the fallback), leave the
    turns stored under [b] unchanged, so the messages read for a
    selection whose key is [b] are what they were. *)
Theorem session_isolation
    (chat : AgentChat.ChatRequest -> AgentChat.ChatOutcome)
    (a b : string) (p : AgentChat.Panel) :
  a <> b ->
  (forall m, AgentChat.history (AgentChat.appendTurn a m p) !! b
             = AgentChat.history p !! b)
  /\ (forall sel thread,
        AgentChat.chatKey sel thread = Some a ->
        let p' := settled (AgentChat.handleSend chat sel thread p) in
        AgentChat.history p' !! b = AgentChat.history p !! b
        /\ forall sel' thread',
             AgentChat.chatKey sel' thread' = Some b ->
             AgentChat.currentMessages (AgentChat.history p') sel' thread'
             = AgentChat.currentMessages (AgentChat.history p) sel' thread').
Proof.
  intros Hab. split.
  - intros m. apply appendTurn_other. exact Hab.
  - intros sel thread Hkey p'.
    assert (Hb : AgentChat.history p' !! b = AgentChat.history p !! b)
      by (apply handleSend_other with (a := a); assumption).
    split; [exact Hb |]. intros sel' thread' Hkey'.
    apply currentMessages_lookup with (b := b); assumption.
Qed.

Lemma session_isolation_witness :
  let chat := fun _ : AgentChat.ChatRequest => AgentChat.Resolved "Friday." in
  let turns := [AgentChat.mkMessage AgentChat.agent "Chat reset. How can I help you with this email?"] in
  let p := AgentChat.mkPanel {[ "email:m2" := turns ]} "What is due?" false [] in
  let p' := settled (AgentChat.handleSend chat (Some "m1") [] p) in
  "email:m1" <> "email:m2"
  /\ AgentChat.history p' !! "email:m2" = Some turns
  /\ AgentChat.currentMessages (AgentChat.history p') (Some "m2") [] = turns.
Proof.
  intros chat turns p p'.
  assert (Hne : "email:m1" <> "email:m2") by discriminate.
  destruct (proj2 (session_isolation chat "email:m1" "email:m2" p Hne)
              (Some "m1") [] eq_refl) as [Hb Hread].
  split; [exact Hne |]. split.
  - fold p' in Hb. rewrite Hb. apply lookup_singleton_eq.
  - fold p' in Hread. rewrite (Hread (Some "m2") [] eq_refl).
    unfold AgentChat.currentMessages. simpl.
    change (AgentChat.history p !! "email:m2") with
      (({[ "email:m2" := turns ]} : gmap string (list AgentChat.Message)) !! "email:m2").
    rewrite lookup_singleton_eq. reflexivity.
Defined.

End ChatPanels.

(** ** The focus email reaches the context *)

Section FocusGuarantee.
Import JsString Types ContextBuilder.

Variable similarity : string -> Email -> Z.
Variable recency : Email -> Z.
Variable size : Email -> nat.

Lemma focusBlock_In (emailStore : list Email) (ids : list string) (i : string) (e : Email) :
  In i ids -> lookupEmail emailStore i = Some e -> In e (focusBlock emailStore ids).
Proof.
  intros Hi He. unfold focusBlock. apply in_flat_map. exists i.
  split; [exact Hi |]. rewrite He. left. reflexivity.
Qed.

Lemma focusIds_email (i : string) (thread : option (list string)) :
  In i (focusIds (Some i) thread).
Proof. unfold focusIds. simpl. left. reflexivity. Qed.

Lemma focus_in_context (emailStore : list Email) (query i : string)
    (thread : option (list string)) (top_k budget : nat) (e : Email) :
  lookupEmail emailStore i = Some e ->
  In (Focus e)
    (buildContext similarity recency size emailStore query (Some i) thread top_k budget).
Proof.
  intros He. unfold buildContext. apply in_or_app. left. apply in_map.
  apply focusBlock_In with (i := i); [apply focusIds_email | exact He].
Qed.

Lemma handleSend_requests
    (chat : AgentChat.ChatRequest -> AgentChat.ChatOutcome)
    (sel : option string) (thread : list Email) (p : AgentChat.Panel) :
  exists new,
    AgentChat.sent (settled (AgentChat.handleSend chat sel thread p))
    = AgentChat.sent p ++ new
    /\ forall request, In request new ->
         AgentChat.email_id request = sel
         /\ AgentChat.thread_email_ids request = AgentChat.threadEmailIds thread.
Proof.
  assert (Hnone : exists new, AgentChat.sent p = AgentChat.sent p ++ new
            /\ forall request, In request new ->
                 AgentChat.email_id request = sel
                 /\ AgentChat.thread_email_ids request = AgentChat.threadEmailIds thread).
  { exists []. split; [rewrite app_nil_r; reflexivity | intros request []]. }
  unfold AgentChat.handleSend. destruct sel as [[|c r]|]; try exact Hnone.
  destruct (AgentChat.chatKey _ thread) as [key|]; [| exact Hnone].
  destruct (negb (truthy (trim (AgentChat.input p)))); [exact Hnone |].
  cbv zeta. eexists. split.
  - destruct (chat _); simpl; reflexivity.
  - intros request [<- | []]. split; reflexivity.
Qed.

(** C4: a chat request that carries a focus email id has that email, and
    so its full body verbatim, in the constructed context, as a focus
    entry, whatever the similarity scores, [top_k] and the input
    budget; the requests sent by the chat panel for a selected email
    carry its id as focus. *)
Theorem focus_email_in_context
    (emailStore : list Email) (i : string) (e : Email) (top_k budget : nat) :
  lookupEmail emailStore i = Some e ->
  (forall request,
     AgentChat.email_id request = Some i ->
     In (Focus e) (contextOfRequest similarity recency size emailStore request top_k budget)
     /\ exists en,
          In en (contextOfRequest similarity recency size emailStore request top_k budget)
          /\ entryBody en = body e)
  /\ (forall chat thread p,
        exists new,
          AgentChat.sent (settled (AgentChat.handleSend chat (Some i) thread p))
          = AgentChat.sent p ++ new
          /\ forall request, In request new ->
               In (Focus e)
                 (contextOfRequest similarity recency size emailStore request top_k budget)).
Proof.
  intros He.
  assert (Hreq : forall request, AgentChat.email_id request = Some i ->
            In (Focus e)
              (contextOfRequest similarity recency size emailStore request top_k budget)).
  { intros request Hid. unfold contextOfRequest. rewrite Hid.
    apply focus_in_context. exact He. }
  split.
  - intros request Hid. split; [auto |]. exists (Focus e). split; [auto | reflexivity].
  - intros chat thread p.
    destruct (handleSend_requests chat (Some i) thread p) as (new & Hsent & Hnew).
    exists new. split; [exact Hsent |]. intros request Hin.
    apply Hreq. apply (Hnew request Hin).
Qed.

End FocusGuarantee.

Lemma focus_email_in_context_witness :
  let e := Sample.mail "m1" "Budget" "2024-03-01T09:00:00Z" None None None in
  let o := Sample.mail "m2" "Lunch" "2024-03-02T09:00:00Z" None None None in
  let request := AgentChat.mkChatRequest "Where do we eat?" (Some "m1") None in
  let context :=
    ContextBuilder.contextOfRequest (fun _ x => if String.eqb (Types.id x) "m2" then 9 else 0)%Z
      (fun _ => 0%Z) (fun x => String.length (Types.body x)) [o; e] request 0 0 in
  ContextBuilder.lookupEmail [o; e] "m1" = Some e
  /\ In (ContextBuilder.Focus e) context
  /\ exists en, In en context /\ ContextBuilder.entryBody en = Types.body e.
Proof.
  intros e o request context. split; [reflexivity |].
  apply (proj1 (focus_email_in_context
                  (fun _ x => if String.eqb (Types.id x) "m2" then 9 else 0)%Z
                  (fun _ => 0%Z) (fun x => String.length (Types.body x))
                  [o; e] "m1" e 0 0 eq_refl) request eq_refl).
Defined.

(** ** Threads of the inbox are groups by normalized subject *)

Section InboxThreads.
Import JsString Types InboxViewer Spec.

Lemma insertBy_In {A : Type} (cmp : A -> A -> Z) (x y : A) (l : list A) :
  In x (insertBy cmp y l) <-> x = y \/ In x l.
Proof.
  induction l as [|z r IH]; simpl.
  - intuition.
  - destruct (0 <? cmp y z)%Z; simpl; [rewrite IH |]; intuition.
Qed.

Lemma sort_In {A : Type} (cmp : A -> A -> Z) (x : A) (l : list A) :
  In x (sort cmp l) <-> In x l.
Proof.
  unfold sort. induction l as [|y r IH]; simpl; [reflexivity |].
  rewrite insertBy_In, IH. intuition.
Qed.

Lemma insertBy_map {A B : Type} (g : A -> B) (cmp : A -> A -> Z) (cmp' : B -> B -> Z)
    (x : A) (l : list A) :
  (forall a b, cmp' (g a) (g b) = cmp a b) ->
  insertBy cmp' (g x) (map g l) = map g (insertBy cmp x l).
Proof.
  intros Hc. induction l as [|y r IH]; simpl; [reflexivity |].
  rewrite Hc. destruct (0 <? cmp x y)%Z; simpl; [rewrite IH |]; reflexivity.
Qed.

Lemma sort_map {A B : Type} (g : A -> B) (cmp : A -> A -> Z) (cmp' : B -> B -> Z)
    (l : list A) :
  (forall a b, cmp' (g a) (g b) = cmp a b) ->
  sort cmp' (map g l) = map g (sort cmp l).
Proof.
  intros Hc. unfold sort. induction l as [|y r IH]; simpl; [reflexivity |].
  rewrite IH. apply insertBy_map. exact Hc.
Qed.

Variable getTime : string -> option Z.

Lemma In_updateThread (key : string) (f : EmailThread -> EmailThread)
    (ts : list EmailThread) (t' : EmailThread) :
  In t' (updateThread key f ts) ->
  In t' ts \/ exists t, In t ts /\ t_id t = key /\ t' = f t.
Proof.
  induction ts as [|t r IH]; simpl; [tauto |].
  destruct (String.eqb_spec (t_id t) key) as [Heq | Hne]; simpl.
  - intros [<- | Hin]; [right; exists t; auto | left; auto].
  - intros [<- | Hin]; [left; auto |].
    destruct (IH Hin) as [H | (t0 & H0 & Hk & Hf)]; [left; auto |].
    right. exists t0. auto.
Qed.

Lemma groupEmail_grouped (source : list Email) (ts : list EmailThread) (email : Email) :
  grouped source ts -> In email source -> grouped source (groupEmail getTime ts email).
Proof.
  intros Hg Hsrc t e Ht He. unfold groupEmail in Ht.
  destruct (negb (hasThread (normalizeSubject (subject email)) ts)).
  - apply in_app_or in Ht. destruct Ht as [Ht | [<- | []]]; [eauto |].
    simpl in He. destruct He as [<- | []]. auto.
  - apply In_updateThread in Ht.
    destruct Ht as [Ht | (t0 & Ht0 & Hk & ->)]; [eauto |].
    simpl in He. apply in_app_or in He. destruct He as [He | [<- | []]].
    + apply (Hg t0 e Ht0 He).
    + simpl. auto.
Qed.

Lemma fold_groupEmail_grouped (source rest : list Email) (ts : list EmailThread) :
  grouped source ts -> (forall e, In e rest -> In e source) ->
  grouped source (fold_left (groupEmail getTime) rest ts).
Proof.
  revert ts. induction rest as [|email r IH]; intros ts Hg Hsub; simpl; [exact Hg |].
  apply IH.
  - apply groupEmail_grouped; [exact Hg | apply Hsub; left; reflexivity].
  - intros e He. apply Hsub. right. exact He.
Qed.

Lemma threads_grouped (filteredEmails : list Email) :
  grouped filteredEmails (threads getTime filteredEmails).
Proof.
  intros t e Ht He. unfold threads in Ht. apply sort_In in Ht.
  apply in_map_iff in Ht. destruct Ht as (t0 & <- & Ht0).
  simpl in He. apply sort_In in He.
  assert (Hg : grouped filteredEmails (groupThreads getTime filteredEmails)).
  { unfold groupThreads. apply fold_groupEmail_grouped; [intros ? ? [] | auto]. }
  apply (Hg t0 e Ht0 He).
Qed.

(** Passing the emails through a [g] that keeps subject, timestamp and
    read flag does not change the grouping. *)
Section Relabel.

Variable g : Email -> Email.
Hypothesis g_subject : forall e, subject (g e) = subject e.
Hypothesis g_timestamp : forall e, timestamp (g e) = timestamp e.
Hypothesis g_read : forall e, read (g e) = read e.

Lemma hasThread_mapThread (key : string) (ts : list EmailThread) :
  hasThread key (map (mapThread g) ts) = hasThread key ts.
Proof.
  unfold hasThread. induction ts as [|t r IH]; simpl; [reflexivity |].
  rewrite IH. reflexivity.
Qed.

Lemma updateThread_mapThread (key : string) (email : Email) (ts : list EmailThread) :
  updateThread key (pushEmail getTime (g email)) (map (mapThread g) ts)
  = map (mapThread g) (updateThread key (pushEmail getTime email) ts).
Proof.
  induction ts as [|t r IH]; simpl; [reflexivity |].
  destruct (String.eqb (t_id t) key); simpl.
  - f_equal. unfold pushEmail, mapThread. simpl.
    rewrite g_timestamp, g_read, map_app. reflexivity.
  - rewrite IH. reflexivity.
Qed.

Lemma groupEmail_mapThread (ts : list EmailThread) (email : Email) :
  groupEmail getTime (map (mapThread g) ts) (g email)
  = map (mapThread g) (groupEmail getTime ts email).
Proof.
  unfold groupEmail. rewrite g_subject, hasThread_mapThread.
  destruct (negb (hasThread (normalizeSubject (subject email)) ts)).
  - rewrite map_app. simpl. unfold mapThread at 3. simpl.
    rewrite g_timestamp, g_read. reflexivity.
  - apply updateThread_mapThread.
Qed.

Lemma fold_groupEmail_mapThread (rest : list Email) (ts : list EmailThread) :
  fold_left (groupEmail getTime) (map g rest) (map (mapThread g) ts)
  = map (mapThread g) (fold_left (groupEmail getTime) rest ts).
Proof.
  revert ts. induction rest as [|email r IH]; intros ts; simpl; [reflexivity |].
  rewrite groupEmail_mapThread. apply IH.
Qed.

Lemma threads_mapThread (filteredEmails : list Email) :
  threads getTime (map g filteredEmails)
  = map (mapThread g) (threads getTime filteredEmails).
Proof.
  unfold threads, groupThreads.
  change (@nil EmailThread) with (map (mapThread g) []) at 1.
  rewrite fold_groupEmail_mapThread.
  rewrite <- sort_map
    with (cmp' := fun a b => byNewest getTime (latestTimestamp a) (latestTimestamp b))
    by reflexivity.
  f_equal. rewrite !map_map. apply map_ext. intros t.
  unfold sortThreadEmails, mapThread. simpl. f_equal.
  apply sort_map. intros a b. rewrite !g_timestamp. reflexivity.
Qed.

End Relabel.

Lemma click_context (email : Email) (thread : EmailThread)
    (expandedThreads : gset string) (s : Store.AppState) (ids : list string) :
  threadContextAfterClick email thread expandedThreads s = Some ids ->
  ids = map id (t_emails thread).
Proof.
  unfold threadContextAfterClick, handleEmailClick.
  destruct (Store.setSelectedEmailId (Some (id email)) s) as [s1 requests].
  destruct (Nat.ltb 1 (length (t_emails thread))) eqn:Hlen.
  - destruct (if match Store.selectedEmailId s with
                 | Some i => String.eqb i (id email)
                 | None => false
                 end
              then negb (bool_decide (t_id thread ∈ expandedThreads)) else true);
      simpl; unfold AgentChat.threadEmailIds; simpl.
    + discriminate.
    + rewrite Hlen. intros H. injection H as <-. reflexivity.
  - simpl. discriminate.
Qed.

Lemma updateThread_keeps (key : string) (email : Email) (ts : list EmailThread)
    (t : EmailThread) (e : Email) :
  In t ts -> In e (t_emails t) ->
  exists t', In t' (updateThread key (pushEmail getTime email) ts) /\ In e (t_emails t').
Proof.
  intros Ht He. induction ts as [|t0 r IH]; simpl; [destruct Ht |].
  destruct Ht as [-> | Ht].
  - destruct (String.eqb (t_id t) key).
    + exists (pushEmail getTime email t). split; [left; reflexivity |].
      simpl. apply in_or_app. left. exact He.
    + exists t. split; [left; reflexivity | exact He].
  - destruct (String.eqb (t_id t0) key).
    + exists t. split; [right; exact Ht | exact He].
    + destruct (IH Ht) as (t' & Ht' & He'). exists t'. split; [right; exact Ht' | exact He'].
Qed.

Lemma updateThread_hits (key : string) (email : Email) (ts : list EmailThread) :
  hasThread key ts = true ->
  exists t', In t' (updateThread key (pushEmail getTime email) ts)
             /\ In email (t_emails t').
Proof.
  unfold hasThread. induction ts as [|t r IH]; simpl; [discriminate |].
  destruct (String.eqb (t_id t) key); simpl.
  - intros _. exists (pushEmail getTime email t). split; [left; reflexivity |].
    simpl. apply in_or_app. right. left. reflexivity.
  - intros Hr. destruct (IH Hr) as (t' & Ht' & He').
    exists t'. split; [right; exact Ht' | exact He'].
Qed.

Lemma groupEmail_covered (seen : list Email) (ts : list EmailThread) (email : Email) :
  covered seen ts -> covered (seen ++ [email]) (groupEmail getTime ts email).
Proof.
  intros Hc e He. unfold groupEmail.
  destruct (hasThread (normalizeSubject (subject email)) ts) eqn:Hhas; simpl.
  - apply in_app_or in He. destruct He as [He | [<- | []]].
    + destruct (Hc e He) as (t & Ht & Het).
      apply updateThread_keeps with (t := t); assumption.
    + apply updateThread_hits. exact Hhas.
  - apply in_app_or in He. destruct He as [He | [<- | []]].
    + destruct (Hc e He) as (t & Ht & Het). exists t.
      split; [apply in_or_app; left; exact Ht | exact Het].
    + eexists. split; [apply in_or_app; right; left; reflexivity |].
      simpl. left. reflexivity.
Qed.

Lemma fold_groupEmail_covered (seen rest : list Email) (ts : list EmailThread) :
  covered seen ts -> covered (seen ++ rest) (fold_left (groupEmail getTime) rest ts).
Proof.
  revert seen ts. induction rest as [|email r IH]; intros seen ts Hc; simpl.
  - rewrite app_nil_r. exact Hc.
  - replace (seen ++ email :: r) with ((seen ++ [email]) ++ r)
      by (rewrite <- app_assoc; reflexivity).
    apply IH. apply groupEmail_covered. exact Hc.
Qed.

Lemma threads_covered (filteredEmails : list Email) :
  covered filteredEmails (threads getTime filteredEmails).
Proof.
  intros e He.
  destruct (fold_groupEmail_covered [] filteredEmails [] (fun _ H => match H with end) e He)
    as (t & Ht & Het).
  exists (sortThreadEmails getTime t). split.
  - unfold threads. apply sort_In. apply in_map. exact Ht.
  - simpl. apply sort_In. exact Het.
Qed.

Lemma insertBy_Permutation {A : Type} (cmp : A -> A -> Z) (x : A) (l : list A) :
  Permutation (insertBy cmp x l) (x :: l).
Proof.
  induction l as [|y r IH]; simpl; [reflexivity |].
  destruct (0 <? cmp x y)%Z; [| reflexivity].
  rewrite IH. apply perm_swap.
Qed.

Lemma sort_Permutation {A : Type} (cmp : A -> A -> Z) (l : list A) :
  Permutation (sort cmp l) l.
Proof.
  unfold sort. induction l as [|y r IH]; simpl; [reflexivity |].
  rewrite insertBy_Permutation, IH. reflexivity.
Qed.

Lemma updateThread_keys (key : string) (email : Email) (ts : list EmailThread) :
  map t_id (updateThread key (pushEmail getTime email) ts) = map t_id ts.
Proof.
  induction ts as [|t r IH]; simpl; [reflexivity |].
  destruct (String.eqb (t_id t) key); simpl; [reflexivity | rewrite IH; reflexivity].
Qed.

Lemma hasThread_false (key : string) (ts : list EmailThread) :
  hasThread key ts = false -> ~ In key (map t_id ts).
Proof.
  unfold hasThread. induction ts as [|t r IH]; simpl; [tauto |].
  destruct (String.eqb_spec (t_id t) key) as [Heq | Hne]; simpl; [discriminate |].
  intros Hr [Heq | Hin]; [congruence | exact (IH Hr Hin)].
Qed.

Lemma groupEmail_keys (ts : list EmailThread) (email : Email) :
  List.NoDup (map t_id ts) -> List.NoDup (map t_id (groupEmail getTime ts email)).
Proof.
  intros Hnd. unfold groupEmail.
  destruct (hasThread (normalizeSubject (subject email)) ts) eqn:Hhas; simpl.
  - rewrite updateThread_keys. exact Hnd.
  - rewrite map_app. simpl.
    apply (Permutation_NoDup (l := normalizeSubject (subject email) :: map t_id ts)).
    + apply Permutation_cons_append.
    + constructor; [apply hasThread_false; exact Hhas | exact Hnd].
Qed.

Lemma fold_groupEmail_keys (rest : list Email) (ts : list EmailThread) :
  List.NoDup (map t_id ts) ->
  List.NoDup (map t_id (fold_left (groupEmail getTime) rest ts)).
Proof.
  revert ts. induction rest as [|email r IH]; intros ts Hnd; simpl; [exact Hnd |].
  apply IH, groupEmail_keys, Hnd.
Qed.

Lemma threads_keys (filteredEmails : list Email) :
  List.NoDup (map t_id (threads getTime filteredEmails)).
Proof.
  unfold threads.
  apply (Permutation_NoDup
           (l := map t_id (map (sortThreadEmails getTime)
                             (groupThreads getTime filteredEmails)))).
  - apply Permutation_map. symmetry. apply sort_Permutation.
  - rewrite map_map. simpl. apply fold_groupEmail_keys. constructor.
Qed.

Lemma NoDup_map_eq {A B : Type} (f : A -> B) (l : list A) (x y : A) :
  List.NoDup (map f l) -> In x l -> In y l -> f x = f y -> x = y.
Proof.
  induction l as [|z r IH]; simpl; [tauto |].
  intros Hnd Hx Hy Hf. inversion Hnd as [|? ? Hnot Hrest]; subst.
  destruct Hx as [-> | Hx], Hy as [-> | Hy]; auto.
  - exfalso. apply Hnot. rewrite Hf. apply in_map. exact Hy.
  - exfalso. apply Hnot. rewrite <- Hf. apply in_map. exact Hx.
Qed.

Lemma threads_same_subject (filteredEmails : list Email) (t1 t2 : EmailThread)
    (e1 e2 : Email) :
  In t1 (threads getTime filteredEmails) -> In t2 (threads getTime filteredEmails) ->
  In e1 (t_emails t1) -> In e2 (t_emails t2) ->
  normalizeSubject (subject e1) = normalizeSubject (subject e2) -> t1 = t2.
Proof.
  intros Ht1 Ht2 He1 He2 Hsame.
  apply (NoDup_map_eq t_id (threads getTime filteredEmails));
    [apply threads_keys | exact Ht1 | exact Ht2 |].
  destruct (threads_grouped filteredEmails t1 e1 Ht1 He1) as [_ <-].
  destruct (threads_grouped filteredEmails t2 e2 Ht2 He2) as [_ <-].
  exact Hsame.
Qed.

End InboxThreads.

(** ** The thread context of a chat request *)

Section ThreadContext.
Import JsString Types InboxViewer Spec.

Variable getTime : string -> option Z.

(** Handling one line of the ingestion stream writes the two lists at
    most, under whatever status the run captured and on whatever store
    it finds. *)
Lemma handleLine_sameButLists (parse : string -> option Store.Data)
    (getEmails : nat -> option (list Email)) (status : option GmailStatus)
    (shown : bool) (line : string) (w : Store.World) :
  sameButLists (Store.store w)
    (Store.store (StoreOps.flowWorld (Store.handleLine parse getEmails status shown line w))).
Proof.
  unfold Store.handleLine, Store.handleData, Store.refresh, sameButLists.
  destruct (startsWith "data: " line); [| simpl; repeat split].
  destruct (parse (slice 6 line)) as [data|]; [| simpl; repeat split].
  destruct (Store.typeIs data "error" && Store.messageIncludes data "Error calling Groq").
  { destruct shown; simpl; destruct (getEmails (Store.requested w)); simpl; repeat split. }
  destruct (Store.typeIs data "category").
  { destruct (Store.email data); [| destruct (Store.allEmails (Store.store w))];
      simpl; repeat split. }
  destruct (Store.typeIs data "action_items").
  { destruct (Store.email data); [| destruct (Store.allEmails (Store.store w))];
      simpl; repeat split. }
  destruct (Store.typeIs data "complete"); [| simpl; repeat split].
  destruct (getEmails (Store.requested w)); simpl; repeat split.
Qed.

Lemma acts_context (s s' : Store.AppState) :
  Props.acts s s' -> Store.selectedThreadEmails s' = Store.selectedThreadEmails s.
Proof.
  intros H. destruct H; try reflexivity.
  - destruct r; reflexivity.
  - destruct r; reflexivity.
  - destruct b; reflexivity.
  - destruct r; reflexivity.
  - destruct b; reflexivity.
  - destruct i as [[|c i]|]; reflexivity.
  - destruct b, r; reflexivity.
  - destruct r; reflexivity.
  - destruct r; reflexivity.
  - destruct b, f, r; reflexivity.
  - destruct r, f; reflexivity.
  - destruct b; reflexivity.
  - apply (handleLine_sameButLists parse getEmails status shown line w).
Qed.

Lemma reaches_context (s s' : Store.AppState) :
  Props.reaches s s' -> Store.selectedThreadEmails s' = Store.selectedThreadEmails s.
Proof.
  intros H. induction H as [s | s s' s'' _ IH Hact]; [reflexivity |].
  rewrite (acts_context _ _ Hact). exact IH.
Qed.

Lemma handleEmailClick_context (email : Email) (thread : EmailThread)
    (expandedThreads : gset string) (s : Store.AppState) :
  Store.selectedThreadEmails (snd (fst (handleEmailClick email thread expandedThreads s)))
  = if Props.collapses email thread expandedThreads s then t_emails thread else [email].
Proof.
  unfold handleEmailClick, Props.collapses.
  destruct (Store.setSelectedEmailId (Some (id email)) s) as [s1 requests].
  destruct (Nat.ltb 1 (length (t_emails thread))); [| reflexivity].
  destruct (match Store.selectedEmailId s with
            | Some i => String.eqb i (id email)
            | None => false
            end); [| reflexivity].
  destruct (bool_decide (t_id thread ∈ expandedThreads)); reflexivity.
Qed.

Lemma chatKey_selected (c : ascii) (r : string) (l : list Email) :
  exists key, AgentChat.chatKey (Some (String c r)) l = Some key.
Proof.
  unfold AgentChat.chatKey. destruct (Nat.ltb 1 (length l)); eexists; reflexivity.
Qed.

Lemma handleSend_sent (chat : AgentChat.ChatRequest -> AgentChat.ChatOutcome)
    (selectedEmailId : option string) (l : list Email) (p : AgentChat.Panel) :
  AgentChat.sent (settled (AgentChat.handleSend chat selectedEmailId l p))
  = AgentChat.sent p
    ++ (if Props.sends selectedEmailId p
        then [AgentChat.mkChatRequest (AgentChat.input p) selectedEmailId
                (AgentChat.threadEmailIds l)]
        else []).
Proof.
  unfold Props.sends, AgentChat.handleSend.
  destruct selectedEmailId as [[|c r]|].
  - rewrite andb_false_r, app_nil_r. reflexivity.
  - destruct (chatKey_selected c r l) as [key ->].
    destruct (truthy (trim (AgentChat.input p))); simpl;
      [| rewrite app_nil_r; reflexivity].
    destruct (chat _); reflexivity.
  - rewrite andb_false_r, app_nil_r. reflexivity.
Qed.

Lemma threadEmailIds_relabel (g : Email -> Email) (l : list Email) :
  (forall e, id (g e) = id e) ->
  AgentChat.threadEmailIds (map g l) = AgentChat.threadEmailIds l.
Proof.
  intros Hid. unfold AgentChat.threadEmailIds. rewrite length_map, map_map.
  destruct (Nat.ltb 1 (length l)); [| reflexivity].
  f_equal. apply map_ext. exact Hid.
Qed.

Lemma threads_whole_group (filteredEmails : list Email) (thread : EmailThread)
    (e : Email) :
  In thread (threads getTime filteredEmails) -> In e filteredEmails ->
  normalizeSubject (subject e) = t_id thread -> In e (t_emails thread).
Proof.
  intros Ht He Hkey.
  destruct (threads_covered getTime filteredEmails e He) as (t' & Ht' & He').
  destruct (threads_grouped getTime filteredEmails t' e Ht' He') as [_ Hkey'].
  assert (t' = thread) as <-; [| exact He'].
  apply (NoDup_map_eq t_id (threads getTime filteredEmails));
    [apply threads_keys | exact Ht' | exact Ht | congruence].
Qed.

(** Before any click the store holds no thread context, whatever else
    was written to it. *)
Lemma no_click_no_context (s : Store.AppState) :
  Props.reaches Store.initialState s ->
  AgentChat.threadEmailIds (Store.selectedThreadEmails s) = None.
Proof. intros H. rewrite (reaches_context _ _ H). reflexivity. Qed.

End ThreadContext.

(** C1, as stated, fails: two emails of different Gmail threads whose
    subjects differ only by a reply prefix, letter case and blanks form
    one thread of the inbox; the click that collapses it makes both the
    thread context, and the chat request then carries both ids. *)
Lemma thread_context_counterexample :
  let mails := [Sample.budget; Sample.budgetAgain] in
  let thread :=
    InboxViewer.mkEmailThread "budget" "Budget" [Sample.budgetAgain; Sample.budget]
      "2024-03-02T09:00:00Z" true in
  let s := Store.set_selectedEmailId (Some "m2") (Sample.stateOf mails (Some Sample.connected)) in
  let s' := snd (fst (InboxViewer.handleEmailClick Sample.budgetAgain thread {[ "budget" ]} s)) in
  InboxViewer.threads Sample.clock mails = [thread]
  /\ Spec.threadContextAfterClick Sample.budgetAgain thread {[ "budget" ]} s
     = Some ["m2"; "m1"]
  /\ AgentChat.sent
       (Types.settled
          (AgentChat.handleSend (fun _ => AgentChat.Resolved "Friday.")
             (Store.selectedEmailId s') (Store.selectedThreadEmails s')
             (Sample.asking "When is it due?")))
     = [AgentChat.mkChatRequest "When is it due?" (Some "m2") (Some ["m2"; "m1"])]
  /\ Types.thread_id Sample.budget <> Types.thread_id Sample.budgetAgain.
Proof.
  cbv zeta. split; [vm_compute; reflexivity |]. split; [vm_compute; reflexivity |].
  split; [vm_compute; reflexivity | discriminate].
Qed.

(** C1, amended: the thread context of a chat request is what the latest
    click in the inbox list left in the store, which no other write to
    the store changes.  A request is sent when the input is not blank and
    an email is selected, and it carries the selected id and that
    context: the ids of the whole thread of the clicked email, as the
    list showed it at the click, when the click collapsed the thread, and
    no thread context otherwise.  Such a thread is a group by normalized
    subject (reply or forward prefix removed, trimmed, lower-cased), not
    by thread id: its emails are emails of the list with the thread's
    normalized subject, every email of the list with that normalized
    subject is in it, and giving the emails other thread ids changes
    neither the grouping nor the ids the request carries. *)
Theorem thread_context_by_subject
    (chat : AgentChat.ChatRequest -> AgentChat.ChatOutcome)
    (getTime : string -> option Z) (filteredEmails : list Types.Email)
    (thread : InboxViewer.EmailThread) (email : Types.Email)
    (expandedThreads : gset string) (s s' : Store.AppState) (p : AgentChat.Panel) :
  In thread (InboxViewer.threads getTime filteredEmails) ->
  Props.reaches (snd (fst (InboxViewer.handleEmailClick email thread expandedThreads s))) s' ->
  let context := AgentChat.threadEmailIds (Store.selectedThreadEmails s') in
  AgentChat.sent
    (Types.settled
       (AgentChat.handleSend chat (Store.selectedEmailId s')
          (Store.selectedThreadEmails s') p))
  = AgentChat.sent p
    ++ (if Props.sends (Store.selectedEmailId s') p
        then [AgentChat.mkChatRequest (AgentChat.input p) (Store.selectedEmailId s') context]
        else [])
  /\ context
     = (if Props.collapses email thread expandedThreads s
        then Some (map Types.id (InboxViewer.t_emails thread)) else None)
  /\ (forall e, In e (InboxViewer.t_emails thread) ->
        In e filteredEmails
        /\ InboxViewer.normalizeSubject (Types.subject e) = InboxViewer.t_id thread)
  /\ (forall e, In e filteredEmails ->
        InboxViewer.normalizeSubject (Types.subject e) = InboxViewer.t_id thread ->
        In e (InboxViewer.t_emails thread))
  /\ (forall relabel : Types.Email -> option string,
        let g := fun e => Types.with_thread_id e (relabel e) in
        InboxViewer.threads getTime (map g filteredEmails)
        = map (Spec.mapThread g) (InboxViewer.threads getTime filteredEmails)
        /\ AgentChat.threadEmailIds (map g (Store.selectedThreadEmails s')) = context).
Proof.
  intros Hthread Hreach context.
  assert (Hctx : Store.selectedThreadEmails s'
                 = if Props.collapses email thread expandedThreads s
                   then InboxViewer.t_emails thread else [email]).
  { rewrite (reaches_context _ _ Hreach). apply handleEmailClick_context. }
  split; [apply handleSend_sent |].
  split.
  { unfold context. rewrite Hctx. unfold Props.collapses, AgentChat.threadEmailIds.
    destruct (Nat.ltb 1 (length (InboxViewer.t_emails thread))) eqn:Hlen;
      [| reflexivity].
    destruct (match Store.selectedEmailId s with
              | Some i => String.eqb i (Types.id email)
              | None => false
              end); [| reflexivity].
    destruct (bool_decide (InboxViewer.t_id thread ∈ expandedThreads));
      [| reflexivity].
    simpl. rewrite Hlen. reflexivity. }
  split; [intros e He; apply (threads_grouped getTime filteredEmails thread e Hthread He) |].
  split; [intros e He Hkey; apply (threads_whole_group getTime filteredEmails thread e);
          assumption |].
  intros relabel g. split.
  - apply threads_mapThread; intros e; reflexivity.
  - unfold context. apply threadEmailIds_relabel. intros e. reflexivity.
Qed.

Lemma thread_context_by_subject_witness :
  let mails := [Sample.budget; Sample.budgetAgain] in
  let thread :=
    InboxViewer.mkEmailThread "budget" "Budget" [Sample.budgetAgain; Sample.budget]
      "2024-03-02T09:00:00Z" true in
  let s := Store.set_selectedEmailId (Some "m2") (Sample.stateOf mails (Some Sample.connected)) in
  let clicked := snd (fst (InboxViewer.handleEmailClick Sample.budgetAgain thread {[ "budget" ]} s)) in
  let later := Types.settled (Store.fetchEmails (Some (mails ++ [Sample.budgetLater])) clicked) in
  In thread (InboxViewer.threads Sample.clock mails)
  /\ Props.reaches clicked later
  /\ AgentChat.sent
       (Types.settled
          (AgentChat.handleSend (fun _ => AgentChat.Resolved "Friday.")
             (Store.selectedEmailId later) (Store.selectedThreadEmails later)
             (Sample.asking "When is it due?")))
     = [AgentChat.mkChatRequest "When is it due?" (Some "m2") (Some ["m2"; "m1"])]
  /\ InboxViewer.normalizeSubject (Types.subject Sample.budget) = "budget"
  /\ InboxViewer.normalizeSubject (Types.subject Sample.budgetAgain) = "budget".
Proof.
  intros mails thread s clicked later.
  assert (Ht : In thread (InboxViewer.threads Sample.clock mails))
    by (left; vm_compute; reflexivity).
  assert (Hr : Props.reaches clicked later)
    by (apply (Props.reaches_step clicked clicked later (Props.reaches_now clicked)),
          Props.acts_fetchEmails).
  destruct (thread_context_by_subject (fun _ => AgentChat.Resolved "Friday.")
              Sample.clock mails thread Sample.budgetAgain {[ "budget" ]} s later
              (Sample.asking "When is it due?") Ht Hr)
    as (Hsent & Hcontext & Hsubject & _).
  split; [exact Ht |]. split; [exact Hr |].
  split; [rewrite Hsent, Hcontext; vm_compute; reflexivity |].
  split.
  - apply (Hsubject Sample.budget). right. left. reflexivity.
  - apply (Hsubject Sample.budgetAgain). left. reflexivity.
Defined.

(** ** Ingestion events *)

Section IngestionEvents.
Import JsString Types Store Spec.

Lemma with_category_same (e : Email) (c : option string) :
  sameButCategory e (with_category e c).
Proof. unfold sameButCategory. simpl. repeat split. Qed.

Lemma with_action_items_rest (e : Email) (a : option (list ActionItem)) :
  sameButActionItems e (with_action_items e a).
Proof. unfold sameButActionItems. simpl. repeat split. Qed.

Lemma Forall2_map_related {A : Type} (R : A -> A -> Prop) (f : A -> A) (l : list A) :
  (forall x, R x (f x)) -> Forall2 R l (map f l).
Proof. intros HR. induction l; simpl; constructor; auto. Qed.

Lemma Forall2_filter_map {A : Type} (R : A -> A -> Prop) (f : A -> A)
    (p : A -> bool) (l : list A) :
  (forall x, R x (f x)) -> (forall x, p (f x) = p x) ->
  Forall2 R (List.filter p l) (List.filter p (map f l)).
Proof.
  intros HR Hp. induction l as [|x r IH]; simpl; [constructor |].
  rewrite Hp. destruct (p x); [constructor; auto | exact IH].
Qed.

(** The display filter reads the [source] of an email only. *)
Lemma filterEmailsForDisplay_map (R : Email -> Email -> Prop) (f : Email -> Email)
    (status : option GmailStatus) (l : list Email) :
  (forall x, R x (f x)) -> (forall x, source (f x) = source x) ->
  Forall2 R (filterEmailsForDisplay l status) (filterEmailsForDisplay (map f l) status).
Proof.
  intros HR Hs. unfold filterEmailsForDisplay.
  destruct (isAuthenticated status); apply Forall2_filter_map; try exact HR;
    intros x; unfold sourceIs; rewrite Hs; reflexivity.
Qed.

Lemma setCategory_related (updated e : Email) : recategorized updated e (setCategory updated e).
Proof.
  unfold recategorized, setCategory.
  destruct (String.eqb_spec (id e) (id updated)) as [Heq | Hne].
  - split; [congruence |]. intros _. split; [apply with_category_same | reflexivity].
  - split; [reflexivity | congruence].
Qed.

Lemma setActionItems_related (updated e : Email) :
  reitemized updated e (setActionItems updated e).
Proof.
  unfold reitemized, setActionItems.
  destruct (String.eqb_spec (id e) (id updated)) as [Heq | Hne].
  - split; [congruence |]. intros _. split; [apply with_action_items_rest | reflexivity].
  - split; [reflexivity | congruence].
Qed.

Lemma setCategory_source (updated e : Email) : source (setCategory updated e) = source e.
Proof. unfold setCategory. destruct (String.eqb _ _); reflexivity. Qed.

Lemma setActionItems_source (updated e : Email) :
  source (setActionItems updated e) = source e.
Proof. unfold setActionItems. destruct (String.eqb _ _); reflexivity. Qed.

Variable JSON_parse : string -> option Data.
Variable getEmails : nat -> option (list Email).

Lemma typeIs_exclusive (data : Data) (t t' : string) :
  typeIs data t = true -> t <> t' -> typeIs data t' = false.
Proof.
  unfold typeIs. destruct (type data) as [x|]; [| discriminate].
  intros Ht Hne. apply String.eqb_eq in Ht. subst x.
  apply String.eqb_neq. exact Hne.
Qed.

Lemma handleData_category (status : option GmailStatus) (hasShownError : bool)
    (data : Data) (updated : Email) (w : World) :
  email data = Some updated -> typeIs data "category" = true ->
  handleData getEmails status hasShownError data w
  = Continue (with_store (applyCategory status updated) w).
Proof.
  intros He Ht. unfold handleData.
  rewrite (typeIs_exclusive data "category" "error" Ht) by discriminate.
  simpl. rewrite Ht, He. reflexivity.
Qed.

Lemma handleData_action_items (status : option GmailStatus) (hasShownError : bool)
    (data : Data) (updated : Email) (w : World) :
  email data = Some updated -> typeIs data "action_items" = true ->
  handleData getEmails status hasShownError data w
  = Continue (with_store (applyActionItems status updated) w).
Proof.
  intros He Ht. unfold handleData.
  rewrite (typeIs_exclusive data "action_items" "error" Ht) by discriminate.
  rewrite (typeIs_exclusive data "action_items" "category" Ht) by discriminate.
  simpl. rewrite Ht, He. reflexivity.
Qed.





End IngestionEvents.




(** C5: the code misses the claim when the Gmail status changes during
    an ingestion run.  [ingestEmails] reads the status once, before its
    first await, and filters every list it writes under that value, while
    the other actions of the store read the status when they write.
    Here ingestion starts before the status is known; the status poll
    then finds Gmail connected, and the Gmail email [m1] is shown; the
    category event for [m1] then replaces the displayed list by the
    emails of the other corpus, although the store says that Gmail is
    connected.  The email [m3], which the event does not name, enters
    the displayed list, the email of the event leaves it, and the
    displayed list is no longer the display filter of the full list. *)
Lemma category_event_under_stale_status :
  let s0 := Sample.stateOf [Sample.budget; Sample.lunch] None in
  let captured := Store.gmailStatus s0 in
  let s1 := Store.fetchGmailStatus Sample.connected s0 in
  let w := Store.mkWorld s1 [] 0 in
  let event := Sample.categoryEvent "m1" "Work" in
  let after := StoreOps.flowWorld (Store.handleData (fun _ => None) captured false event w) in
  Store.emails s1 = [Sample.budget]
  /\ Props.displayConsistent s1
  /\ Store.handleData (fun _ => None) captured false event w
     = Store.Continue
         (Store.mkWorld
            (Store.set_lists
               [Types.with_category Sample.budget (Some "Work"); Sample.lunch]
               [Sample.lunch] s1)
            [] 0)
  /\ Store.gmailStatus (Store.store after) = Some Sample.connected
  /\ Store.emails (Store.store after) = [Sample.lunch]
  /\ ~ Props.displayConsistent (Store.store after)
  /\ Types.id Sample.lunch <> "m1"
  /\ ~ In Sample.lunch (Store.emails s1)
  /\ ~ In (Types.with_category Sample.budget (Some "Work")) (Store.emails (Store.store after)).
Proof.
  cbv zeta. split; [vm_compute; reflexivity |]. split; [vm_compute; reflexivity |].
  split; [vm_compute; reflexivity |]. split; [vm_compute; reflexivity |].
  split; [vm_compute; reflexivity |].
  split; [unfold Props.displayConsistent; vm_compute; discriminate |].
  split; [discriminate |]. split; intros [H | []]; discriminate.
Qed.

(** X30: a category event for the email [updated] changes, in the full
    list, only the category of the emails whose id is that of [updated]:
    every other email is unchanged, and so is every other field of
    those.  The displayed list becomes the display filter of the new
    full list under the status the run filters with; when it was that
    filter of the old full list, as it is while the status of the store
    is the one the run read, its emails change in the same way.  Nothing
    else in the store changes.  An action-items event does the same with
    the action items. *)
Theorem progress_event_frame
    (getEmails : nat -> option (list Types.Email))
    (status : option Types.GmailStatus) (hasShownError : bool)
    (data : Store.Data) (updated : Types.Email) (w : Store.World) :
  Store.email data = Some updated ->
  (Store.typeIs data "category" = true ->
   exists w',
     Store.handleData getEmails status hasShownError data w = Store.Continue w'
     /\ Forall2 (Spec.recategorized updated)
          (Store.allEmails (Store.store w)) (Store.allEmails (Store.store w'))
     /\ Store.emails (Store.store w')
        = Store.filterEmailsForDisplay (Store.allEmails (Store.store w')) status
     /\ (Store.emails (Store.store w)
         = Store.filterEmailsForDisplay (Store.allEmails (Store.store w)) status ->
         Forall2 (Spec.recategorized updated)
           (Store.emails (Store.store w)) (Store.emails (Store.store w')))
     /\ Spec.sameButLists (Store.store w) (Store.store w')
     /\ Store.alerts w' = Store.alerts w /\ Store.requested w' = Store.requested w)
  /\ (Store.typeIs data "action_items" = true ->
      exists w',
        Store.handleData getEmails status hasShownError data w = Store.Continue w'
        /\ Forall2 (Spec.reitemized updated)
             (Store.allEmails (Store.store w)) (Store.allEmails (Store.store w'))
        /\ Store.emails (Store.store w')
           = Store.filterEmailsForDisplay (Store.allEmails (Store.store w')) status
        /\ (Store.emails (Store.store w)
            = Store.filterEmailsForDisplay (Store.allEmails (Store.store w)) status ->
            Forall2 (Spec.reitemized updated)
              (Store.emails (Store.store w)) (Store.emails (Store.store w')))
        /\ Spec.sameButLists (Store.store w) (Store.store w')
        /\ Store.alerts w' = Store.alerts w /\ Store.requested w' = Store.requested w).
Proof.
  intros He. split; intros Ht.
  - rewrite (handleData_category getEmails status hasShownError data updated w He Ht).
    eexists. split; [reflexivity |]. simpl.
    change (fun email : Types.Email =>
              if String.eqb (Types.id email) (Types.id updated)
              then Types.with_category email (Types.category updated) else email)
      with (Spec.setCategory updated).
    split; [apply Forall2_map_related, setCategory_related |].
    split; [reflexivity |].
    split; [| split; [unfold Spec.sameButLists; simpl; repeat split | split; reflexivity]].
    intros ->. apply filterEmailsForDisplay_map;
      [apply setCategory_related | apply setCategory_source].
  - rewrite (handleData_action_items getEmails status hasShownError data updated w He Ht).
    eexists. split; [reflexivity |]. simpl.
    change (fun email : Types.Email =>
              if String.eqb (Types.id email) (Types.id updated)
              then Types.with_action_items email (Types.action_items updated) else email)
      with (Spec.setActionItems updated).
    split; [apply Forall2_map_related, setActionItems_related |].
    split; [reflexivity |].
    split; [| split; [unfold Spec.sameButLists; simpl; repeat split | split; reflexivity]].
    intros ->. apply filterEmailsForDisplay_map;
      [apply setActionItems_related | apply setActionItems_source].
Qed.

Lemma progress_event_frame_witness :
  let w := Sample.worldOf [Sample.budget; Sample.lunch] None in
  let event := Sample.categoryEvent "m3" "Personal" in
  exists w',
    Store.handleData (fun _ => None) None false event w = Store.Continue w'
    /\ Forall2 (Spec.recategorized (Types.with_category (Sample.mail "m3" "" "" None None None)
                                      (Some "Personal")))
         [Sample.lunch] (Store.emails (Store.store w')).
Proof.
  intros w event.
  destruct (proj1 (progress_event_frame (fun _ => None) None false event
                     (Types.with_category (Sample.mail "m3" "" "" None None None)
                        (Some "Personal")) w eq_refl) eq_refl)
    as (w' & Hrun & _ & _ & Hshown & _).
  exists w'. split; [exact Hrun |]. apply Hshown. reflexivity.
Defined.

(** * Further properties of the store *)

Section StoreActions.
Import JsString Types Store StoreOps Props.

Lemma filter_map_commute {A : Type} (p : A -> bool) (f : A -> A) (l : list A) :
  (forall x, p (f x) = p x) -> List.filter p (map f l) = map f (List.filter p l).
Proof.
  intros Hp. induction l as [|x r IH]; simpl; [reflexivity |].
  rewrite Hp. destruct (p x); simpl; rewrite IH; reflexivity.
Qed.

Lemma filterEmailsForDisplay_map_eq (f : Email -> Email)
    (status : option GmailStatus) (l : list Email) :
  (forall x, source (f x) = source x) ->
  filterEmailsForDisplay (map f l) status = map f (filterEmailsForDisplay l status).
Proof.
  intros Hs. unfold filterEmailsForDisplay.
  destruct (isAuthenticated status); apply filter_map_commute;
    intros x; unfold sourceIs; rewrite Hs; reflexivity.
Qed.

Lemma markRead_source (i : string) (e : Email) :
  source (if String.eqb (id e) i then with_read e true else e) = source e.
Proof. destruct (String.eqb (id e) i); reflexivity. Qed.

Lemma toggle_source (emailId : string) (k : Z) (e : Email) :
  source (match action_items e with
          | Some items =>
              if String.eqb (id e) emailId
              then with_action_items e (Some (toggleItems k items)) else e
          | None => e
          end) = source e.
Proof. destruct (action_items e); [destruct (String.eqb (id e) emailId) |]; reflexivity. Qed.

Lemma delete_source (emailId : string) (k : Z) (e : Email) :
  source (match action_items e with
          | Some items =>
              if String.eqb (id e) emailId
              then with_action_items e (Some (deleteItems k items)) else e
          | None => e
          end) = source e.
Proof. destruct (action_items e); [destruct (String.eqb (id e) emailId) |]; reflexivity. Qed.

(** X1: every action of the store keeps the displayed list equal to the
    display filter of the full list under the Gmail status of the store,
    whether the requests it awaits resolve or reject. *)
Theorem store_actions_keep_display_consistent (s : AppState) :
  displayConsistent s ->
  (forall r, displayConsistent (settled (fetchEmails r s)))
  /\ (forall r, displayConsistent (settled (fetchGmailStatusCall r s)))
  /\ (forall b r, displayConsistent (settled (resetInbox b r s)))
  /\ (forall r, displayConsistent (settled (loadOAuthEmails r s)))
  /\ (forall b f r, displayConsistent (settled (manualGmailSync b f r s)))
  /\ (forall r f, displayConsistent (settled (logoutGmail r f s)))
  /\ (forall b, displayConsistent (settled (clearIndexes b s)))
  /\ (forall i, displayConsistent (fst (setSelectedEmailId i s)))
  /\ (forall l, displayConsistent (setSelectedThreadEmails l s))
  /\ (forall i k, displayConsistent (fst (toggleActionItem i k s)))
  /\ (forall i k, displayConsistent (fst (deleteActionItem i k s))).
Proof.
  unfold displayConsistent. intros Hs. repeat split.
  - intros [fetched|]; simpl; [reflexivity | exact Hs].
  - intros [status|]; simpl; [reflexivity | exact Hs].
  - intros [|] [fetched|]; simpl; try reflexivity; exact Hs.
  - intros [fetched|]; simpl; [reflexivity | exact Hs].
  - intros [|] [all|] [status|]; simpl; try reflexivity; exact Hs.
  - intros [status|] [all|]; simpl; try reflexivity; exact Hs.
  - intros [|]; simpl; [| exact Hs]. destruct (isAuthenticated (gmailStatus s)) eqn:Ha;
      unfold filterEmailsForDisplay; rewrite Ha; reflexivity.
  - intros [[|c r]|]; simpl; try exact Hs.
    unfold markRead. rewrite Hs at 1. symmetry.
    apply filterEmailsForDisplay_map_eq. intros x. apply markRead_source.
  - intros l. exact Hs.
  - intros i k. simpl. unfold toggleList. rewrite Hs at 1. symmetry.
    apply filterEmailsForDisplay_map_eq. intros x. apply toggle_source.
  - intros i k. simpl. unfold deleteList. rewrite Hs at 1. symmetry.
    apply filterEmailsForDisplay_map_eq. intros x. apply delete_source.
Qed.

Lemma store_actions_keep_display_consistent_witness :
  let s := Sample.stateOf [Sample.budget; Sample.lunch] (Some Sample.connected) in
  displayConsistent s
  /\ displayConsistent (settled (logoutGmail (Some Sample.disconnected)
                                   (Some [Sample.budget; Sample.lunch]) s))
  /\ displayConsistent (fst (setSelectedEmailId (Some "m1") s)).
Proof.
  intros s. assert (Hs : displayConsistent s) by reflexivity.
  destruct (store_actions_keep_display_consistent s Hs)
    as (_ & _ & _ & _ & _ & Hout & _ & Hsel & _).
  split; [exact Hs |]. split; [apply Hout | apply Hsel].
Defined.

End StoreActions.

(** * Further properties of ingestion *)

Section IngestionRuns.
Import JsString Types Store StoreOps Props.

Variable JSON_parse : string -> option Data.
Variable getEmails : nat -> option (list Email).

(** What one decoded event does, for the flag [hasShownError] as
    [ingestEmails] declares it. *)
Lemma handleData_step (status : option GmailStatus) (data : Data) (w : World) :
  match handleData getEmails status false data w with
  | Continue w' => listsStep status (store w) (store w') /\ alerts w' = alerts w
  | Return w' =>
      listsStep status (store w) (store w')
      /\ exists m, alerts w' = alerts w ++ [m]
  | Throw w' _ =>
      store w' = store w
      /\ (alerts w' = alerts w \/ exists m, alerts w' = alerts w ++ [m])
  end.
Proof.
  unfold handleData, refresh.
  destruct (typeIs data "error" && messageIncludes data "Error calling Groq").
  { simpl. destruct (getEmails (requested w)) as [fetched|]; simpl.
    - split; [right; eexists; reflexivity | eexists; reflexivity].
    - split; [reflexivity | right; eexists; reflexivity]. }
  destruct (typeIs data "category").
  { destruct (email data) as [u|]; [| destruct (allEmails (store w)) eqn:Hall]; simpl.
    - split; [right; eexists; reflexivity | reflexivity].
    - split; [right; eexists; reflexivity | reflexivity].
    - split; [reflexivity | left; reflexivity]. }
  destruct (typeIs data "action_items").
  { destruct (email data) as [u|]; [| destruct (allEmails (store w)) eqn:Hall]; simpl.
    - split; [right; eexists; reflexivity | reflexivity].
    - split; [right; eexists; reflexivity | reflexivity].
    - split; [reflexivity | left; reflexivity]. }
  destruct (typeIs data "complete").
  { destruct (getEmails (requested w)) as [fetched|]; simpl.
    - split; [right; eexists; reflexivity | reflexivity].
    - split; [reflexivity | left; reflexivity]. }
  split; [left; reflexivity | reflexivity].
Qed.

Lemma handleLine_step (status : option GmailStatus) (line : string) (w : World) :
  match handleLine JSON_parse getEmails status false line w with
  | Continue w' => listsStep status (store w) (store w') /\ alerts w' = alerts w
  | Return w' =>
      listsStep status (store w) (store w')
      /\ exists m, alerts w' = alerts w ++ [m]
  | Throw w' _ =>
      store w' = store w
      /\ (alerts w' = alerts w \/ exists m, alerts w' = alerts w ++ [m])
  end.
Proof.
  unfold handleLine. destruct (startsWith "data: " line).
  - destruct (JSON_parse (slice 6 line)) as [data|].
    + apply handleData_step.
    + split; [reflexivity | left; reflexivity].
  - split; [left; reflexivity | reflexivity].
Qed.

Lemma listsStep_ingested (status : option GmailStatus) (s0 s s' : AppState) :
  gmailStatus s0 = status -> ingested s0 s -> listsStep status s s' -> ingested s0 s'.
Proof.
  intros Hst Hin [-> | (all & ->)]; [exact Hin |].
  destruct Hin as (Hg & Hsel & Hth & Hp & Hse & Hsy & Hl & _).
  unfold ingested, displayConsistent. simpl. rewrite Hg, Hst.
  repeat split; try assumption. right. reflexivity.
Qed.

Lemma forLines_run (status : option GmailStatus) (w0 : World) (lines : list string)
    (w : World) :
  gmailStatus (store w0) = status -> running w0 w ->
  match forLines JSON_parse getEmails status false lines w with
  | Continue w' => running w0 w'
  | Return w' => stopped w0 w'
  | Throw w' _ => stopped w0 w'
  end.
Proof.
  intros Hst. revert w. induction lines as [|line r IH]; intros w Hrun; simpl.
  - exact Hrun.
  - pose proof (handleLine_step status line w) as Hstep.
    destruct Hrun as [Hin Hal].
    destruct (handleLine JSON_parse getEmails status false line w) as [w'|w'|w' err].
    + destruct Hstep as [Hlists Halerts]. apply IH. split.
      * apply (listsStep_ingested status _ (store w)); assumption.
      * congruence.
    + destruct Hstep as [Hlists (m & Hm)]. split.
      * apply (listsStep_ingested status _ (store w)); assumption.
      * right. exists m. congruence.
    + destruct Hstep as [Hstore Halerts]. split.
      * rewrite Hstore. exact Hin.
      * destruct Halerts as [Ha | (m & Hm)]; [left | right; exists m]; congruence.
Qed.

Lemma readLoop_run (status : option GmailStatus) (w0 : World) (chunks : list string)
    (w : World) :
  gmailStatus (store w0) = status -> running w0 w ->
  match readLoop JSON_parse getEmails status false chunks w with
  | Continue w' => running w0 w'
  | Return w' => stopped w0 w'
  | Throw w' _ => stopped w0 w'
  end.
Proof.
  intros Hst. revert w. induction chunks as [|chunk r IH]; intros w Hrun; simpl.
  - exact Hrun.
  - pose proof (forLines_run status w0 (split "010" chunk) w Hst Hrun) as Hlines.
    destruct (forLines JSON_parse getEmails status false (split "010" chunk) w);
      [apply IH; exact Hlines | exact Hlines | exact Hlines].
Qed.

Lemma ingestEmails_stopped (response : IngestResponse) (w : World) :
  exists w',
    stopped (with_store (set_isLoading true) w) w'
    /\ settled (ingestEmails JSON_parse getEmails response w)
       = with_store (set_isLoading false) w'.
Proof.
  set (w0 := with_store (set_isLoading true) w).
  assert (Hrun : running w0 w0).
  { split; [| reflexivity]. unfold ingested. repeat split. left. split; reflexivity. }
  assert (Hstop : stopped w0 w0).
  { split; [exact (proj1 Hrun) | left; reflexivity]. }
  unfold ingestEmails. fold w0. cbv zeta.
  destruct response as [|[|] [chunks|]]; simpl; try (exists w0; split; [exact Hstop | reflexivity]).
  pose proof (readLoop_run (gmailStatus (store w)) w0 chunks w0 eq_refl Hrun) as Hloop.
  destruct (readLoop JSON_parse getEmails (gmailStatus (store w)) false chunks w0)
    as [w'|w'|w' err]; simpl; exists w'.
  - split; [| reflexivity]. split; [exact (proj1 Hloop) | left; exact (proj2 Hloop)].
  - split; [exact Hloop | reflexivity].
  - split; [exact Hloop | reflexivity].
Qed.

(** X2: an ingestion run writes the loading flag and the two email lists,
    nothing else.  Handling a line of the stream, under whatever status
    the run captured and on whatever store the other actions have left
    in the meantime, leaves the Gmail status, the selection, the thread
    context, the prompts, the settings and the two flags as it finds
    them.  So a run that no other action of the store interleaves with
    ends, however it ends (the request fails, the body is missing, the
    stream ends, an error event stops it, a line does not parse, a
    refresh fails), with the loading flag reset and the Gmail status, the
    selection, the thread context, the prompts and the settings it
    started with. *)
Theorem ingestion_resets_loading (response : IngestResponse) (w : World) :
  (forall (status : option GmailStatus) (shown : bool) (line : string) (w' : World),
     Spec.sameButLists (store w')
       (store (flowWorld (handleLine JSON_parse getEmails status shown line w'))))
  /\ let final := store (settled (ingestEmails JSON_parse getEmails response w)) in
     isLoading final = false
     /\ gmailStatus final = gmailStatus (store w)
     /\ selectedEmailId final = selectedEmailId (store w)
     /\ selectedThreadEmails final = selectedThreadEmails (store w)
     /\ prompts final = prompts (store w)
     /\ settings final = settings (store w)
     /\ isSyncingGmail final = isSyncingGmail (store w).
Proof.
  split; [intros status shown line w'; apply handleLine_sameButLists |].
  destruct (ingestEmails_stopped response w) as (w' & [Hin _] & ->).
  destruct Hin as (Hg & Hsel & Hth & Hp & Hse & Hsy & _).
  simpl in *. repeat split; assumption.
Qed.

(** X3: an ingestion run that starts from a store whose displayed list is
    the display filter of its full list ends in such a store, whatever the
    stream delivers and however the run ends. *)
Theorem ingestion_keeps_display_consistent (response : IngestResponse) (w : World) :
  displayConsistent (store w) ->
  displayConsistent (store (settled (ingestEmails JSON_parse getEmails response w))).
Proof.
  intros Hc. destruct (ingestEmails_stopped response w) as (w' & [Hin _] & ->).
  destruct Hin as (Hg & _ & _ & _ & _ & _ & _ & [[He Ha] | Hd]).
  - unfold displayConsistent in *. simpl in *. rewrite He, Ha, Hg. exact Hc.
  - exact Hd.
Qed.

(** X4: an ingestion run shows at most one alert, whatever the stream
    delivers. *)
Theorem ingestion_alerts_at_most_once (response : IngestResponse) (w : World) :
  let final := settled (ingestEmails JSON_parse getEmails response w) in
  alerts final = alerts w \/ exists m, alerts final = alerts w ++ [m].
Proof.
  destruct (ingestEmails_stopped response w) as (w' & [_ Hal] & ->). exact Hal.
Qed.

Lemma forLines_skips_other_lines (status : option GmailStatus) (hasShownError : bool)
    (lines : list string) (w : World) :
  forLines JSON_parse getEmails status hasShownError lines w
  = forLines JSON_parse getEmails status hasShownError
      (List.filter (startsWith "data: ") lines) w.
Proof.
  revert w. induction lines as [|line r IH]; intros w; [reflexivity |].
  cbn [forLines List.filter].
  destruct (startsWith "data: " line) eqn:Hd; cbn [forLines].
  - destruct (handleLine JSON_parse getEmails status hasShownError line w);
      [apply IH | reflexivity | reflexivity].
  - unfold handleLine. rewrite Hd. apply IH.
Qed.

(** X5: only the lines that start with [data: ] count.  The lines of a
    chunk are processed as if the others (blank lines, comments, event
    names) were not there, and a stream without any such line leaves the
    store as it is, apart from the loading flag, and returns. *)
Theorem ingestion_skips_other_lines (status : option GmailStatus) (hasShownError : bool)
    (lines chunks : list string) (w : World) :
  forLines JSON_parse getEmails status hasShownError lines w
  = forLines JSON_parse getEmails status hasShownError
      (List.filter (startsWith "data: ") lines) w
  /\ (Forall (fun chunk => List.filter (startsWith "data: ") (split "010" chunk) = [])
        chunks ->
      ingestEmails JSON_parse getEmails (Response true (Some chunks)) w
      = Returned (with_store (set_isLoading false)
                    (with_store (set_isLoading true) w))).
Proof.
  split; [apply forLines_skips_other_lines |].
  intros Hnone. unfold ingestEmails. cbv zeta.
  assert (Hloop : forall w1,
            readLoop JSON_parse getEmails (gmailStatus (store w)) false chunks w1
            = Continue w1).
  { induction Hnone as [|chunk r Hchunk _ IH]; intros w1; simpl; [reflexivity |].
    rewrite forLines_skips_other_lines, Hchunk. simpl. apply IH. }
  simpl. rewrite Hloop. reflexivity.
Qed.

End IngestionRuns.

Lemma ingestion_keeps_display_consistent_witness :
  let chunk :=
    String.append "data: {category m3 Personal}"
      (String.append Sample.newline "data: {error groq}") in
  let w := Sample.worldOf [Sample.budget; Sample.lunch] None in
  Props.displayConsistent (Store.store w)
  /\ Props.displayConsistent
       (Store.store
          (Types.settled
             (Store.ingestEmails Sample.decode (fun _ => Some [Sample.lunch])
                (Store.Response true (Some [chunk])) w))).
Proof.
  intros chunk w. assert (Hc : Props.displayConsistent (Store.store w)) by reflexivity.
  split; [exact Hc |].
  apply (ingestion_keeps_display_consistent Sample.decode (fun _ => Some [Sample.lunch])
           (Store.Response true (Some [chunk])) w Hc).
Defined.

Lemma ingestion_skips_other_lines_witness :
  let chunks := [String.append ": keep-alive" Sample.newline; "event: ping"] in
  let w := Sample.worldOf [Sample.lunch] None in
  Forall (fun chunk =>
            List.filter (JsString.startsWith "data: ") (JsString.split "010" chunk) = [])
    chunks
  /\ Store.ingestEmails Sample.decode (fun _ => None)
       (Store.Response true (Some chunks)) w
     = Types.Returned w.
Proof.
  intros chunks w.
  assert (Hnone : Forall (fun chunk =>
            List.filter (JsString.startsWith "data: ") (JsString.split "010" chunk) = [])
            chunks) by (repeat constructor).
  split; [exact Hnone |].
  exact (proj2 (ingestion_skips_other_lines Sample.decode (fun _ => None) None false
                  [] chunks w) Hnone).
Defined.

(** * Further properties of the action items *)

Section ActionItemEdges.
Import JsString Types Store StoreOps Props Spec.

Lemma mapi_from_id {A : Type} (f : A -> nat -> A) (k : nat) (l : list A) :
  (forall x j, l !! j = Some x -> f x (k + j) = x) -> mapi_from f k l = l.
Proof.
  revert k. induction l as [|x r IH]; intros k Hf; simpl; [reflexivity |]. f_equal.
  - specialize (Hf x 0 eq_refl). replace (k + 0) with k in Hf by lia. exact Hf.
  - apply IH. intros y j Hj. replace (S k + j) with (k + S j) by lia. apply Hf. exact Hj.
Qed.

Lemma toggleItems_out (k : Z) (items : list ActionItem) :
  (k < 0 \/ Z.of_nat (length items) <= k)%Z -> toggleItems k items = items.
Proof.
  intros Hk. unfold toggleItems, mapi. apply mapi_from_id. intros x j Hj.
  apply lookup_lt_Some in Hj. simpl.
  destruct (Z.eqb_spec (Z.of_nat j) k); [lia | reflexivity].
Qed.

Lemma deleteItems_out (k : Z) (items : list ActionItem) :
  (k < 0 \/ Z.of_nat (length items) <= k)%Z -> deleteItems k items = items.
Proof.
  intros Hk. unfold deleteItems, filteri.
  assert (H : forall n, filteri_from (fun (_ : ActionItem) idx => negb (Z.eqb (Z.of_nat idx) k))
                          n items = items
              \/ (Z.of_nat n <= k < Z.of_nat (n + length items))%Z).
  { induction items as [|x r IH]; intros n; simpl; [left; reflexivity |].
    destruct (Z.eqb_spec (Z.of_nat n) k) as [Heq | Hne]; simpl.
    - right. lia.
    - destruct (IH ltac:(simpl in Hk; lia) (S n)) as [-> | Hr]; [left; reflexivity |].
      right. lia. }
  destruct (H 0) as [-> | Hr]; [reflexivity | simpl in Hr; lia].
Qed.

Lemma toggleList_out (emailId : string) (k : Z) (l : list Email) :
  outOfRange emailId k l -> toggleList emailId k l = l.
Proof.
  induction l as [|e r IH]; intros Hout; simpl; [reflexivity |]. f_equal.
  - destruct (action_items e) as [items|] eqn:Ha; [| reflexivity].
    destruct (String.eqb_spec (id e) emailId) as [Heq | _]; [| reflexivity].
    rewrite toggleItems_out by (apply (Hout e items); [left; reflexivity | exact Heq | exact Ha]).
    apply with_action_items_same. exact Ha.
  - apply IH. intros e' items Hin. apply Hout. right. exact Hin.
Qed.

Lemma deleteList_out (emailId : string) (k : Z) (l : list Email) :
  outOfRange emailId k l -> deleteList emailId k l = l.
Proof.
  induction l as [|e r IH]; intros Hout; simpl; [reflexivity |]. f_equal.
  - destruct (action_items e) as [items|] eqn:Ha; [| reflexivity].
    destruct (String.eqb_spec (id e) emailId) as [Heq | _]; [| reflexivity].
    rewrite deleteItems_out by (apply (Hout e items); [left; reflexivity | exact Heq | exact Ha]).
    apply with_action_items_same. exact Ha.
  - apply IH. intros e' items Hin. apply Hout. right. exact Hin.
Qed.

(** X6: an index that addresses no action item of the email (negative, or
    past the end of its list) changes nothing in the store, for the
    toggle and for the delete alike; the request to the backend is sent
    all the same. *)
Theorem action_item_out_of_range (s : AppState) (emailId : string) (k : Z) :
  outOfRange emailId k (emails s) -> outOfRange emailId k (allEmails s) ->
  toggleActionItem emailId k s = (s, [ToggleActionItem emailId k])
  /\ deleteActionItem emailId k s = (s, [DeleteActionItem emailId k]).
Proof.
  intros He Ha. unfold toggleActionItem, deleteActionItem.
  rewrite !toggleList_out, !deleteList_out by assumption.
  destruct s; split; reflexivity.
Qed.

Lemma action_item_out_of_range_witness :
  let e := Sample.mail "m1" "Budget" "2024-03-01T09:00:00Z" None None
             (Some [Sample.todo "call" None]) in
  let s := Sample.stateOf [e] None in
  outOfRange "m1" 1 (emails s)
  /\ deleteActionItem "m1" 1 s = (s, [DeleteActionItem "m1" 1])
  /\ toggleActionItem "m1" 1 s = (s, [ToggleActionItem "m1" 1]).
Proof.
  intros e s.
  assert (Hout : outOfRange "m1" 1 [e]).
  { intros e' items [<- | []] _ Ha. simpl in Ha. injection Ha as <-. right. simpl. lia. }
  destruct (action_item_out_of_range s "m1" 1 Hout Hout) as [Ht Hd].
  split; [exact Hout |]. split; [exact Hd | exact Ht].
Defined.

Lemma deleteItems_lookup (i k : nat) (items : list ActionItem) :
  deleteItems (Z.of_nat i) items !! k
  = if Nat.ltb k i then items !! k else items !! S k.
Proof.
  rewrite deleteItems_skip. destruct (Nat.ltb_spec k i) as [Hlt | Hge].
  - destruct (Nat.lt_ge_cases k (length items)) as [Hk | Hk].
    + rewrite lookup_app_l by (rewrite length_take; lia). apply lookup_take_lt. exact Hlt.
    + rewrite (lookup_ge_None_2 items k) by exact Hk. apply lookup_ge_None_2.
      rewrite length_app, length_take, length_drop. lia.
  - destruct (Nat.lt_ge_cases i (length items)) as [Hi | Hi].
    + rewrite lookup_app_r by (rewrite length_take; lia).
      rewrite length_take, lookup_drop. f_equal. lia.
    + rewrite (lookup_ge_None_2 items (S k)) by lia. apply lookup_ge_None_2.
      rewrite length_app, length_take, length_drop. lia.
Qed.

Lemma toggleItems_lookup (j k : nat) (items : list ActionItem) :
  toggleItems (Z.of_nat j) items !! k
  = (fun item => if Nat.eqb k j
                 then with_completed item (Some (notCompleted item)) else item)
      <$> items !! k.
Proof.
  unfold toggleItems, mapi. rewrite mapi_from_lookup. simpl.
  destruct (items !! k); simpl; [| reflexivity].
  destruct (Z.eqb_spec (Z.of_nat k) (Z.of_nat j)), (Nat.eqb_spec k j);
    try reflexivity; lia.
Qed.

Lemma delete_toggle_items (i j : nat) (items : list ActionItem) :
  i <> j ->
  deleteItems (Z.of_nat i) (toggleItems (Z.of_nat j) items)
  = toggleItems (Z.of_nat (shifted i j)) (deleteItems (Z.of_nat i) items).
Proof.
  intros Hij. apply list_eq. intros k.
  rewrite deleteItems_lookup, !toggleItems_lookup, deleteItems_lookup.
  unfold shifted.
  destruct (Nat.ltb_spec k i) as [Hk | Hk], (Nat.ltb_spec j i) as [Hj | Hj].
  - reflexivity.
  - destruct (Nat.eqb_spec k j), (Nat.eqb_spec k (j - 1)); try reflexivity; lia.
  - destruct (Nat.eqb_spec (S k) j), (Nat.eqb_spec k j); try reflexivity; lia.
  - destruct (Nat.eqb_spec (S k) j), (Nat.eqb_spec k (j - 1)); try reflexivity; lia.
Qed.

Lemma delete_toggled_item (i : nat) (items : list ActionItem) :
  deleteItems (Z.of_nat i) (toggleItems (Z.of_nat i) items)
  = deleteItems (Z.of_nat i) items.
Proof.
  apply list_eq. intros k. rewrite !deleteItems_lookup, !toggleItems_lookup.
  destruct (Nat.ltb_spec k i).
  - destruct (Nat.eqb_spec k i); [lia |]. destruct (items !! k); reflexivity.
  - destruct (Nat.eqb_spec (S k) i); [lia |]. destruct (items !! S k); reflexivity.
Qed.

Lemma deleteList_toggleList (emailId : string) (i j : Z) (l : list Email) :
  deleteList emailId i (toggleList emailId j l)
  = map (fun email =>
           match action_items email with
           | Some items =>
               if String.eqb (id email) emailId
               then with_action_items email (Some (deleteItems i (toggleItems j items)))
               else email
           | None => email
           end) l.
Proof.
  unfold deleteList, toggleList. rewrite map_map. apply map_ext. intros e.
  destruct (action_items e) as [items|] eqn:Ha; [| rewrite Ha; reflexivity].
  destruct (String.eqb (id e) emailId) eqn:Hid; [| rewrite Ha, Hid; reflexivity].
  simpl. rewrite Hid. reflexivity.
Qed.

Lemma toggleList_deleteList (emailId : string) (i j : Z) (l : list Email) :
  toggleList emailId j (deleteList emailId i l)
  = map (fun email =>
           match action_items email with
           | Some items =>
               if String.eqb (id email) emailId
               then with_action_items email (Some (toggleItems j (deleteItems i items)))
               else email
           | None => email
           end) l.
Proof.
  unfold deleteList, toggleList. rewrite map_map. apply map_ext. intros e.
  destruct (action_items e) as [items|] eqn:Ha; [| rewrite Ha; reflexivity].
  destruct (String.eqb (id e) emailId) eqn:Hid; [| rewrite Ha, Hid; reflexivity].
  simpl. rewrite Hid. reflexivity.
Qed.

Lemma deleteList_toggle_shift (emailId : string) (i j : nat) (l : list Email) :
  i <> j ->
  deleteList emailId (Z.of_nat i) (toggleList emailId (Z.of_nat j) l)
  = toggleList emailId (Z.of_nat (shifted i j)) (deleteList emailId (Z.of_nat i) l).
Proof.
  intros Hij. rewrite deleteList_toggleList, toggleList_deleteList.
  apply map_ext. intros e. destruct (action_items e); [| reflexivity].
  destruct (String.eqb (id e) emailId); [| reflexivity].
  rewrite delete_toggle_items by exact Hij. reflexivity.
Qed.

Lemma deleteList_toggled (emailId : string) (i : nat) (l : list Email) :
  deleteList emailId (Z.of_nat i) (toggleList emailId (Z.of_nat i) l)
  = deleteList emailId (Z.of_nat i) l.
Proof.
  rewrite deleteList_toggleList. unfold deleteList.
  apply map_ext. intros e. destruct (action_items e); [| reflexivity].
  destruct (String.eqb (id e) emailId); [| reflexivity].
  rewrite delete_toggled_item. reflexivity.
Qed.

(** X7: deleting an action item moves the ones after it.  Toggling item
    [j] and then deleting item [i] leaves the store that deleting item
    [i] first leaves when the toggle is then applied at [j] for [j] below
    [i], and at [j - 1] for [j] above [i]: after a delete, the old index
    of a later item addresses its successor.  Deleting the item just
    toggled loses the toggle. *)
Theorem delete_shifts_later_items (s : AppState) (emailId : string) (i j : nat) :
  (i <> j ->
   fst (deleteActionItem emailId (Z.of_nat i)
          (fst (toggleActionItem emailId (Z.of_nat j) s)))
   = fst (toggleActionItem emailId (Z.of_nat (shifted i j))
            (fst (deleteActionItem emailId (Z.of_nat i) s))))
  /\ fst (deleteActionItem emailId (Z.of_nat i)
            (fst (toggleActionItem emailId (Z.of_nat i) s)))
     = fst (deleteActionItem emailId (Z.of_nat i) s).
Proof.
  split.
  - intros Hij. simpl. rewrite !deleteList_toggle_shift by exact Hij. reflexivity.
  - simpl. rewrite !deleteList_toggled. reflexivity.
Qed.

Lemma delete_shifts_later_items_witness :
  let items := [Sample.todo "call" (Some false); Sample.todo "pay" (Some false);
                Sample.todo "sign" (Some false)] in
  let e := Sample.mail "m1" "Budget" "2024-03-01T09:00:00Z" None None (Some items) in
  let s := Sample.stateOf [e] None in
  0 <> 2
  /\ allEmails (fst (deleteActionItem "m1" 0 (fst (toggleActionItem "m1" 2 s))))
     = [with_action_items e (Some [Sample.todo "pay" (Some false);
                                   Sample.todo "sign" (Some true)])]
  /\ fst (deleteActionItem "m1" 0 (fst (toggleActionItem "m1" 2 s)))
     = fst (toggleActionItem "m1" 1 (fst (deleteActionItem "m1" 0 s))).
Proof.
  intros items e s. assert (Hne : 0 <> 2) by lia.
  split; [exact Hne |]. split; [reflexivity |].
  exact (proj1 (delete_shifts_later_items s "m1" 0 2) Hne).
Defined.

End ActionItemEdges.

(** * Selecting an email *)

Section Selection.
Import JsString Types Store StoreOps Props.

Lemma find_markRead (i : string) (l : list Email) :
  find (fun e => String.eqb (id e) i) (markRead i l)
  = option_map (fun e => with_read e true) (find (fun e => String.eqb (id e) i) l).
Proof.
  unfold markRead. induction l as [|e r IH]; simpl; [reflexivity |].
  destruct (String.eqb (id e) i) eqn:He; simpl; rewrite He; [reflexivity | exact IH].
Qed.

Lemma unreadCount_markRead (i : string) (l : list Email) :
  unreadCount (markRead i l)
  + length (List.filter (fun e => negb (read e) && String.eqb (id e) i) l)
  = unreadCount l.
Proof.
  unfold unreadCount, markRead. induction l as [|e r IH]; simpl; [reflexivity |].
  destruct (String.eqb (id e) i); simpl.
  - rewrite andb_true_r. destruct (negb (read e)); simpl; lia.
  - rewrite andb_false_r. destruct (negb (read e)); simpl; lia.
Qed.

Lemma markRead_twice (i : string) (l : list Email) :
  markRead i (markRead i l) = markRead i l.
Proof.
  unfold markRead. rewrite map_map. apply map_ext. intros e.
  destruct (String.eqb (id e) i) eqn:He; simpl; rewrite He; reflexivity.
Qed.

(** X8: selecting the email [i] records the selection, asks the backend
    to mark it read, and marks read the emails of that id in both lists.
    The email the page then finds for the selection is the displayed
    email of that id, now read; the unread count drops by the number of
    unread displayed emails of that id; and selecting it again changes
    nothing more. *)
Theorem selecting_marks_read (s : AppState) (i : string) :
  i <> "" ->
  let s' := fst (setSelectedEmailId (Some i) s) in
  selectedEmailId s' = Some i
  /\ snd (setSelectedEmailId (Some i) s) = [MarkAsRead i]
  /\ emails s' = markRead i (emails s) /\ allEmails s' = markRead i (allEmails s)
  /\ selectedEmail s'
     = option_map (fun e => with_read e true)
         (find (fun e => String.eqb (id e) i) (emails s))
  /\ (forall e, selectedEmail s' = Some e -> id e = i /\ read e = true)
  /\ unreadCount (emails s')
     + length (List.filter (fun e => negb (read e) && String.eqb (id e) i) (emails s))
     = unreadCount (emails s)
  /\ fst (setSelectedEmailId (Some i) s') = s'.
Proof.
  intros Hi. destruct i as [|c r]; [congruence |]. simpl.
  assert (Hsel : selectedEmail
                   (mkAppState (markRead (String c r) (emails s))
                      (markRead (String c r) (allEmails s)) (prompts s) (settings s)
                      (Some (String c r)) (selectedThreadEmails s) (isLoading s)
                      (gmailStatus s) (isSyncingGmail s))
                 = option_map (fun e => with_read e true)
                     (find (fun e => String.eqb (id e) (String c r)) (emails s))).
  { unfold selectedEmail. cbn [selectedEmailId emails]. apply find_markRead. }
  repeat split; try reflexivity.
  - exact Hsel.
  - rewrite Hsel in H. destruct (find _ (emails s)) as [e0|] eqn:Hf; [| discriminate].
    injection H as <-. apply find_some in Hf. destruct Hf as [_ Hid].
    apply String.eqb_eq in Hid. exact Hid.
  - rewrite Hsel in H. destruct (find _ (emails s)) as [e0|]; [| discriminate].
    injection H as <-. reflexivity.
  - apply unreadCount_markRead.
  - rewrite !markRead_twice. reflexivity.
Qed.

Lemma selecting_marks_read_witness :
  let s := Sample.stateOf [Sample.budget; Sample.lunch] None in
  "m3" <> ""
  /\ unreadCount (emails s) = 1
  /\ unreadCount (emails (fst (setSelectedEmailId (Some "m3") s)))
     + length (List.filter (fun e => negb (read e) && String.eqb (id e) "m3") (emails s))
     = 1.
Proof.
  intros s. assert (Hne : "m3" <> "") by discriminate.
  split; [exact Hne |]. split; [reflexivity |].
  destruct (selecting_marks_read s "m3" Hne) as (_ & _ & _ & _ & _ & _ & Hcount & _).
  exact Hcount.
Defined.

End Selection.

(** * Further properties of the threads of the inbox *)

Section ThreadShape.
Import JsString Types InboxViewer InboxView Props.

Variable getTime : string -> option Z.

Lemma notOlder_refl (a : string) : dated getTime a -> notOlder getTime a a.
Proof. unfold dated, notOlder. destruct (getTime a); [lia | congruence]. Qed.

Lemma notOlder_trans (a b c : string) :
  notOlder getTime a b -> notOlder getTime b c -> notOlder getTime a c.
Proof.
  unfold notOlder. destruct (getTime a), (getTime b), (getTime c); try tauto. lia.
Qed.

Lemma byNewest_swap (a b : string) :
  dated getTime a -> dated getTime b ->
  (0 <? byNewest getTime a b)%Z = true -> notOlder getTime b a.
Proof.
  unfold dated, byNewest, notOlder. destruct (getTime a), (getTime b); try congruence.
  intros _ _ H. apply Z.ltb_lt in H. lia.
Qed.

Lemma byNewest_keep (a b : string) :
  dated getTime a -> dated getTime b ->
  (0 <? byNewest getTime a b)%Z = false -> notOlder getTime a b.
Proof.
  unfold dated, byNewest, notOlder. destruct (getTime a), (getTime b); try congruence.
  intros _ _ H. apply Z.ltb_ge in H. lia.
Qed.

Lemma insertBy_byNewest_sorted {A : Type} (f : A -> string) (x : A) (l : list A) :
  dated getTime (f x) -> Forall (fun a => dated getTime (f a)) l ->
  StronglySorted (fun a b => notOlder getTime (f a) (f b)) l ->
  StronglySorted (fun a b => notOlder getTime (f a) (f b))
    (insertBy (fun a b => byNewest getTime (f a) (f b)) x l).
Proof.
  intros Hx Hl Hs. induction l as [|y r IH]; simpl.
  - constructor; constructor.
  - apply StronglySorted_inv in Hs. destruct Hs as [Hr Hy].
    inversion Hl as [|? ? Hdy Hdr]; subst.
    destruct (0 <? byNewest getTime (f x) (f y))%Z eqn:Hc.
    + constructor; [apply IH; assumption |].
      apply List.Forall_forall. intros z Hz. apply insertBy_In in Hz.
      destruct Hz as [-> | Hz].
      * apply byNewest_swap; assumption.
      * apply (proj1 (List.Forall_forall _ _) Hy z Hz).
    + constructor; [constructor; assumption |].
      constructor; [apply byNewest_keep; assumption |].
      apply List.Forall_forall. intros z Hz.
      apply notOlder_trans with (b := f y); [apply byNewest_keep; assumption |].
      apply (proj1 (List.Forall_forall _ _) Hy z Hz).
Qed.

Lemma sort_byNewest_sorted {A : Type} (f : A -> string) (l : list A) :
  Forall (fun a => dated getTime (f a)) l ->
  StronglySorted (fun a b => notOlder getTime (f a) (f b))
    (sort (fun a b => byNewest getTime (f a) (f b)) l).
Proof.
  unfold sort. induction 1 as [|x r Hx Hr IH]; simpl; [constructor |].
  apply insertBy_byNewest_sorted; [exact Hx | | exact IH].
  apply List.Forall_forall. intros z Hz.
  apply (sort_In (fun a b => byNewest getTime (f a) (f b)) z r) in Hz.
  apply (proj1 (List.Forall_forall _ _) Hr z Hz).
Qed.

Lemma existsb_insertBy {A : Type} (p : A -> bool) (cmp : A -> A -> Z) (x : A) (l : list A) :
  existsb p (insertBy cmp x l) = p x || existsb p l.
Proof.
  induction l as [|y r IH]; simpl; [reflexivity |].
  destruct (0 <? cmp x y)%Z; simpl; [rewrite IH |]; destruct (p x), (p y); reflexivity.
Qed.

Lemma existsb_sort {A : Type} (p : A -> bool) (cmp : A -> A -> Z) (l : list A) :
  existsb p (sort cmp l) = existsb p l.
Proof.
  unfold sort. induction l as [|y r IH]; simpl; [reflexivity |].
  rewrite existsb_insertBy, IH. reflexivity.
Qed.

(** A property of threads that the grouping loop establishes and keeps. *)
Lemma groupThreads_invariant (V : Email -> Prop) (Q : EmailThread -> Prop)
    (l : list Email) :
  (forall e, V e ->
     Q (mkEmailThread (normalizeSubject (subject e)) (subject e) [e] (timestamp e)
          (negb (read e)))) ->
  (forall e t, V e -> Q t -> Q (pushEmail getTime e t)) ->
  (forall e, In e l -> V e) ->
  forall t, In t (groupThreads getTime l) -> Q t.
Proof.
  intros Hnew Hpush. unfold groupThreads.
  assert (Hfold : forall rest ts,
            (forall e, In e rest -> V e) -> (forall t, In t ts -> Q t) ->
            forall t, In t (fold_left (groupEmail getTime) rest ts) -> Q t).
  { induction rest as [|e r IH]; intros ts Hv Hq t Ht; simpl in Ht;
      [apply Hq; exact Ht |].
    apply (IH (groupEmail getTime ts e));
      [intros e' He'; apply Hv; right; exact He' | | exact Ht].
    intros t' Ht'. unfold groupEmail in Ht'.
    destruct (negb (hasThread (normalizeSubject (subject e)) ts)).
    - apply in_app_or in Ht'. destruct Ht' as [Ht' | [<- | []]]; [apply Hq; exact Ht' |].
      apply Hnew, Hv. left. reflexivity.
    - apply (In_updateThread getTime) in Ht'.
      destruct Ht' as [Ht' | (t0 & Ht0 & _ & ->)]; [apply Hq; exact Ht' |].
      apply Hpush; [apply Hv; left; reflexivity | apply Hq; exact Ht0]. }
  intros Hv t Ht. apply (Hfold l [] Hv (fun _ H => match H with end) t Ht).
Qed.

Lemma threads_from_groups (l : list Email) (t : EmailThread) :
  In t (threads getTime l) ->
  exists t0, In t0 (groupThreads getTime l) /\ t = sortThreadEmails getTime t0.
Proof.
  unfold threads. intros Ht. apply sort_In in Ht. apply in_map_iff in Ht.
  destruct Ht as (t0 & <- & Ht0). exists t0. auto.
Qed.

Lemma pushEmail_latest (e : Email) (t : EmailThread) :
  dated getTime (timestamp e) -> dated getTime (latestTimestamp t) ->
  notOlder getTime (latestTimestamp (pushEmail getTime e t)) (timestamp e)
  /\ notOlder getTime (latestTimestamp (pushEmail getTime e t)) (latestTimestamp t).
Proof.
  unfold dated, notOlder, pushEmail, isLater. simpl.
  destruct (getTime (timestamp e)) as [x|] eqn:Hx; [| congruence].
  destruct (getTime (latestTimestamp t)) as [y|] eqn:Hy; [| congruence].
  intros _ _. destruct (Z.ltb_spec y x); rewrite ?Hx, ?Hy; lia.
Qed.

Lemma groupThreads_summarized (l : list Email) (t : EmailThread) :
  datesValid getTime l -> In t (groupThreads getTime l) -> summarized getTime t.
Proof.
  intros Hv. apply (groupThreads_invariant (fun e => dated getTime (timestamp e))
                      (summarized getTime)); [| | exact Hv].
  - intros e He. unfold summarized. simpl. split; [discriminate |].
    split; [rewrite orb_false_r; reflexivity |].
    split; [exists e; split; [left |]; reflexivity |].
    intros e' [<- | []]. apply notOlder_refl. exact He.
  - intros e t0 He (Hne & Hun & (e0 & He0 & Hlat) & Hmax).
    assert (Hd : dated getTime (latestTimestamp t0)).
    { specialize (Hmax e0 He0). unfold notOlder in Hmax. unfold dated.
      destruct (getTime (latestTimestamp t0)); [discriminate | contradiction]. }
    destruct (pushEmail_latest e t0 He Hd) as [Hnew Hold].
    unfold summarized. split; [| split; [| split]].
    + simpl. destruct (t_emails t0); discriminate.
    + simpl. rewrite existsb_app, <- Hun. simpl. rewrite orb_false_r.
      destruct (read e), (hasUnread t0); reflexivity.
    + simpl. destruct (isLater getTime (timestamp e) (latestTimestamp t0)).
      * exists e. split; [apply in_or_app; right; left |]; reflexivity.
      * exists e0. split; [apply in_or_app; left; exact He0 | exact Hlat].
    + intros e' He'. simpl in He'. apply in_app_or in He'.
      destruct He' as [He' | [<- | []]]; [| exact Hnew].
      apply notOlder_trans with (b := latestTimestamp t0); [exact Hold | auto].
Qed.

Lemma sortThreadEmails_summarized (t : EmailThread) :
  summarized getTime t -> summarized getTime (sortThreadEmails getTime t).
Proof.
  intros (Hne & Hun & (e0 & He0 & Hlat) & Hmax). unfold summarized. simpl.
  split; [| split; [| split]].
  - intros Hnil. apply Hne. apply Permutation_nil.
    rewrite <- Hnil. apply sort_Permutation.
  - rewrite existsb_sort. exact Hun.
  - exists e0. split; [apply sort_In; exact He0 | exact Hlat].
  - intros e He. apply sort_In in He. auto.
Qed.

Lemma threads_summarized (l : list Email) (t : EmailThread) :
  datesValid getTime l -> In t (threads getTime l) -> summarized getTime t.
Proof.
  intros Hv Ht. apply threads_from_groups in Ht. destruct Ht as (t0 & Ht0 & ->).
  apply sortThreadEmails_summarized. apply (groupThreads_summarized l); assumption.
Qed.

Lemma summarized_dated (t : EmailThread) :
  summarized getTime t -> dated getTime (latestTimestamp t).
Proof.
  intros (_ & _ & (e0 & He0 & _) & Hmax). specialize (Hmax e0 He0).
  unfold notOlder in Hmax. unfold dated.
  destruct (getTime (latestTimestamp t)); [discriminate | contradiction].
Qed.

(** X9: when every timestamp is a valid date, each thread of the inbox
    carries the summary of its emails: it holds at least one email, it is
    flagged unread exactly when one of its emails is unread, and its
    latest timestamp is the timestamp of one of its emails and not older
    than any of them. *)
Theorem thread_summary_of_its_emails (filteredEmails : list Email) (t : EmailThread) :
  datesValid getTime filteredEmails ->
  In t (threads getTime filteredEmails) ->
  t_emails t <> []
  /\ hasUnread t = existsb (fun e => negb (read e)) (t_emails t)
  /\ (exists e, In e (t_emails t) /\ latestTimestamp t = timestamp e)
  /\ (forall e, In e (t_emails t) -> notOlder getTime (latestTimestamp t) (timestamp e)).
Proof. intros Hv Ht. exact (threads_summarized filteredEmails t Hv Ht). Qed.

(** X10: when every timestamp is a valid date, the inbox is ordered
    newest first: the threads by their latest timestamp, and the emails
    of each thread by their timestamp. *)
Theorem threads_newest_first (filteredEmails : list Email) :
  datesValid getTime filteredEmails ->
  StronglySorted
    (fun a b => notOlder getTime (latestTimestamp a) (latestTimestamp b))
    (threads getTime filteredEmails)
  /\ (forall t, In t (threads getTime filteredEmails) ->
      StronglySorted (fun a b => notOlder getTime (timestamp a) (timestamp b))
        (t_emails t)).
Proof.
  intros Hv. split.
  - unfold threads. apply sort_byNewest_sorted. apply List.Forall_forall.
    intros t Ht. apply summarized_dated. apply in_map_iff in Ht.
    destruct Ht as (t0 & <- & Ht0). apply sortThreadEmails_summarized.
    apply (groupThreads_summarized filteredEmails); assumption.
  - intros t Ht. apply threads_from_groups in Ht. destruct Ht as (t0 & Ht0 & ->).
    simpl. apply sort_byNewest_sorted. apply List.Forall_forall. intros e He.
    apply (groupThreads_invariant (fun e => dated getTime (timestamp e))
             (fun t => forall e, In e (t_emails t) -> dated getTime (timestamp e))
             filteredEmails) with (t := t0); auto.
    + intros e0 He0 e1 [<- | []]. exact He0.
    + intros e0 t1 He0 Ht1 e1 He1. simpl in He1. apply in_app_or in He1.
      destruct He1 as [He1 | [<- | []]]; auto.
Qed.

Lemma flat_map_pointwise {A B : Type} (f g : A -> list B) (l : list A) :
  (forall x, Permutation (f x) (g x)) -> Permutation (flat_map f l) (flat_map g l).
Proof.
  intros Hfg. induction l as [|x r IH]; simpl; [reflexivity |].
  apply Permutation_app; [apply Hfg | exact IH].
Qed.

Lemma flat_map_updateThread (key : string) (email : Email) (ts : list EmailThread) :
  hasThread key ts = true ->
  Permutation (flat_map t_emails (updateThread key (pushEmail getTime email) ts))
    (email :: flat_map t_emails ts).
Proof.
  unfold hasThread. induction ts as [|t r IH]; simpl; [discriminate |].
  destruct (String.eqb (t_id t) key); simpl.
  - intros _. rewrite <- app_assoc. simpl. symmetry. apply Permutation_middle.
  - intros Hr. rewrite (IH Hr). symmetry. apply Permutation_middle.
Qed.

Lemma flat_map_groupEmail (ts : list EmailThread) (email : Email) :
  Permutation (flat_map t_emails (groupEmail getTime ts email))
    (email :: flat_map t_emails ts).
Proof.
  unfold groupEmail.
  destruct (hasThread (normalizeSubject (subject email)) ts) eqn:Hhas; simpl.
  - apply flat_map_updateThread. exact Hhas.
  - rewrite flat_map_app. simpl. symmetry. apply Permutation_cons_append.
Qed.

Lemma flat_map_fold_groupEmail (rest : list Email) (ts : list EmailThread) :
  Permutation (flat_map t_emails (fold_left (groupEmail getTime) rest ts))
    (flat_map t_emails ts ++ rest).
Proof.
  revert ts. induction rest as [|e r IH]; intros ts; simpl.
  - rewrite app_nil_r. reflexivity.
  - rewrite IH, flat_map_groupEmail. simpl. apply Permutation_middle.
Qed.

(** X11: the threads partition the listed emails.  Taken together, the
    emails of the threads are the listed emails, each as often as it is
    listed: none is lost, none is shown in two threads. *)
Theorem threads_partition_the_list (filteredEmails : list Email) :
  Permutation (flat_map t_emails (threads getTime filteredEmails)) filteredEmails
  /\ length (flat_map t_emails (threads getTime filteredEmails)) = length filteredEmails.
Proof.
  assert (Hp : Permutation (flat_map t_emails (threads getTime filteredEmails))
                 filteredEmails).
  { unfold threads. rewrite sort_Permutation. rewrite flat_map_concat_map, map_map.
    rewrite <- flat_map_concat_map.
    rewrite (flat_map_pointwise (fun t => t_emails (sortThreadEmails getTime t)) t_emails)
      by (intros t; simpl; apply sort_Permutation).
    unfold groupThreads. rewrite flat_map_fold_groupEmail. reflexivity. }
  split; [exact Hp | apply Permutation_length; exact Hp].
Qed.

End ThreadShape.

Lemma sample_dates_valid :
  Props.datesValid Sample.clock [Sample.budget; Sample.budgetAgain].
Proof. intros e [<- | [<- | []]]; discriminate. Qed.

Lemma thread_summary_of_its_emails_witness :
  let thread :=
    InboxViewer.mkEmailThread "budget" "Budget" [Sample.budgetAgain; Sample.budget]
      "2024-03-02T09:00:00Z" true in
  Props.datesValid Sample.clock [Sample.budget; Sample.budgetAgain]
  /\ In thread (InboxViewer.threads Sample.clock [Sample.budget; Sample.budgetAgain])
  /\ InboxViewer.hasUnread thread
     = existsb (fun e => negb (Types.read e)) (InboxViewer.t_emails thread)
  /\ (forall e, In e (InboxViewer.t_emails thread) ->
        Props.notOlder Sample.clock (InboxViewer.latestTimestamp thread) (Types.timestamp e)).
Proof.
  intros thread.
  assert (Ht : In thread (InboxViewer.threads Sample.clock [Sample.budget; Sample.budgetAgain]))
    by (left; vm_compute; reflexivity).
  destruct (thread_summary_of_its_emails Sample.clock [Sample.budget; Sample.budgetAgain]
              thread sample_dates_valid Ht) as (_ & Hun & _ & Hmax).
  split; [exact sample_dates_valid |]. split; [exact Ht |]. split; [exact Hun | exact Hmax].
Defined.

Lemma threads_newest_first_witness :
  Props.datesValid Sample.clock [Sample.budget; Sample.budgetAgain]
  /\ StronglySorted
       (fun a b => Props.notOlder Sample.clock (InboxViewer.latestTimestamp a)
                     (InboxViewer.latestTimestamp b))
       (InboxViewer.threads Sample.clock [Sample.budget; Sample.budgetAgain]).
Proof.
  split; [exact sample_dates_valid |].
  exact (proj1 (threads_newest_first Sample.clock [Sample.budget; Sample.budgetAgain]
                  sample_dates_valid)).
Defined.

(** * Normalized subjects *)

Section Subjects.
Import JsString Types InboxViewer Props.

Lemma lowerChar_idem (c : ascii) : lowerChar (lowerChar c) = lowerChar c.
Proof. destruct c as [[] [] [] [] [] [] [] []]; reflexivity. Qed.

Lemma isWhiteSpace_lowerChar (c : ascii) : isWhiteSpace (lowerChar c) = isWhiteSpace c.
Proof. destruct c as [[] [] [] [] [] [] [] []]; reflexivity. Qed.

Lemma toLowerCase_idem (s : string) : toLowerCase (toLowerCase s) = toLowerCase s.
Proof. induction s as [|c r IH]; simpl; [| rewrite lowerChar_idem, IH]; reflexivity. Qed.

Lemma trimStart_toLowerCase (s : string) :
  trimStart (toLowerCase s) = toLowerCase (trimStart s).
Proof.
  induction s as [|c r IH]; simpl; [reflexivity |].
  rewrite isWhiteSpace_lowerChar. destruct (isWhiteSpace c); [exact IH | reflexivity].
Qed.

Lemma trimEnd_toLowerCase (s : string) :
  trimEnd (toLowerCase s) = toLowerCase (trimEnd s).
Proof.
  induction s as [|c r IH]; simpl; [reflexivity |].
  rewrite IH, isWhiteSpace_lowerChar.
  destruct (trimEnd r); simpl; [destruct (isWhiteSpace c) |]; reflexivity.
Qed.

Lemma trim_toLowerCase (s : string) : trim (toLowerCase s) = toLowerCase (trim s).
Proof. unfold trim. rewrite trimStart_toLowerCase, trimEnd_toLowerCase. reflexivity. Qed.

Lemma startsWithIgnoreCase_toLowerCase (p s : string) :
  startsWithIgnoreCase p (toLowerCase s) = startsWithIgnoreCase p s.
Proof.
  revert s. induction p as [|a p IH]; intros s; [reflexivity |].
  destruct s as [|c r]; simpl; [reflexivity |]. rewrite lowerChar_idem, IH. reflexivity.
Qed.

(** A string that is empty or starts with a character that is not white
    space is left alone by [trimStart], and [trimEnd] keeps it such. *)
Lemma trimEnd_head (s : string) :
  trimStart s = s -> trimStart (trimEnd s) = trimEnd s.
Proof.
  destruct s as [|c r]; [reflexivity |]. simpl.
  destruct (isWhiteSpace c) eqn:Hc.
  - intros H. exfalso.
    assert (Hlen : forall t, String.length (trimStart t) <= String.length t).
    { induction t as [|a t IH]; simpl; [lia |]. destruct (isWhiteSpace a); simpl; lia. }
    specialize (Hlen r). rewrite H in Hlen. simpl in Hlen. lia.
  - intros _. destruct (trimEnd r); simpl; rewrite Hc; reflexivity.
Qed.

Lemma trimStart_idem (s : string) : trimStart (trimStart s) = trimStart s.
Proof.
  induction s as [|c r IH]; simpl; [reflexivity |].
  destruct (isWhiteSpace c) eqn:Hc; [exact IH | simpl; rewrite Hc; reflexivity].
Qed.

Lemma trimEnd_cons (c : ascii) (r : string) :
  trimEnd (String c r)
  = match trimEnd r with
    | EmptyString => if isWhiteSpace c then EmptyString else String c EmptyString
    | r' => String c r'
    end.
Proof. reflexivity. Qed.

Lemma trimEnd_idem (s : string) : trimEnd (trimEnd s) = trimEnd s.
Proof.
  induction s as [|c r IH]; [reflexivity |]. rewrite trimEnd_cons.
  destruct (trimEnd r) as [|a t] eqn:Hr.
  - destruct (isWhiteSpace c) eqn:Hc; [reflexivity |].
    rewrite trimEnd_cons. simpl. rewrite Hc. reflexivity.
  - rewrite trimEnd_cons, IH. reflexivity.
Qed.

Lemma trim_idem (s : string) : trim (trim s) = trim s.
Proof.
  unfold trim. rewrite trimEnd_head by apply trimStart_idem. apply trimEnd_idem.
Qed.

Lemma toLowerCase_append (a b : string) :
  toLowerCase (String.append a b) = String.append (toLowerCase a) (toLowerCase b).
Proof. induction a as [|c r IH]; simpl; [| rewrite IH]; reflexivity. Qed.

Lemma toLowerCase_length (s : string) : String.length (toLowerCase s) = String.length s.
Proof. induction s as [|c r IH]; simpl; [| rewrite IH]; reflexivity. Qed.

Lemma slice_append (prefix rest : string) :
  slice (String.length prefix) (String.append prefix rest) = rest.
Proof. induction prefix as [|c r IH]; simpl; [destruct rest |]; auto. Qed.

Lemma trim_trimStart (s : string) : trim (trimStart s) = trim s.
Proof. unfold trim. rewrite trimStart_idem. reflexivity. Qed.

(** The subject behind a reply or forward prefix, in any letter case. *)
Lemma normalizeSubject_prefix (prefix rest : string) :
  toLowerCase prefix = "re:" \/ toLowerCase prefix = "fwd:" \/ toLowerCase prefix = "fw:" ->
  normalizeSubject (String.append prefix rest) = toLowerCase (trim rest).
Proof.
  intros Hprefix. unfold normalizeSubject, stripReplyPrefix.
  rewrite <- !(startsWithIgnoreCase_toLowerCase _ (String.append prefix rest)).
  rewrite toLowerCase_append.
  assert (Hlen := toLowerCase_length prefix).
  destruct Hprefix as [H | [H | H]]; rewrite H in *; simpl in Hlen.
  - change (startsWithIgnoreCase "re:" ("re:" +:+ toLowerCase rest)) with true.
    cbv iota. rewrite Hlen, slice_append, trim_trimStart. reflexivity.
  - change (startsWithIgnoreCase "re:" ("fwd:" +:+ toLowerCase rest)) with false.
    change (startsWithIgnoreCase "fwd:" ("fwd:" +:+ toLowerCase rest)) with true.
    cbv iota. rewrite Hlen, slice_append, trim_trimStart. reflexivity.
  - change (startsWithIgnoreCase "re:" ("fw:" +:+ toLowerCase rest)) with false.
    change (startsWithIgnoreCase "fwd:" ("fw:" +:+ toLowerCase rest)) with false.
    change (startsWithIgnoreCase "fw:" ("fw:" +:+ toLowerCase rest)) with true.
    cbv iota. rewrite Hlen, slice_append, trim_trimStart. reflexivity.
Qed.

(** X12: a reply or forward prefix is recognised whatever its letter
    case, and is removed with the blanks around the rest of the subject;
    and the normalized subject is in normal form: lower-casing or
    trimming it again changes nothing. *)
Theorem normalizeSubject_canonical (subject : string) :
  (forall prefix rest : string,
     subject = String.append prefix rest ->
     toLowerCase prefix = "re:" \/ toLowerCase prefix = "fwd:"
     \/ toLowerCase prefix = "fw:" ->
     normalizeSubject subject = toLowerCase (trim rest))
  /\ toLowerCase (normalizeSubject subject) = normalizeSubject subject
  /\ trim (normalizeSubject subject) = normalizeSubject subject.
Proof.
  split; [| split].
  - intros prefix rest -> Hprefix. apply normalizeSubject_prefix. exact Hprefix.
  - unfold normalizeSubject. apply toLowerCase_idem.
  - unfold normalizeSubject. rewrite trim_toLowerCase, trim_idem. reflexivity.
Qed.

Lemma normalizeSubject_canonical_witness :
  toLowerCase "FWD:" = "fwd:"
  /\ normalizeSubject "FWD:  Budget 2024 " = "budget 2024".
Proof.
  split; [reflexivity |].
  apply (proj1 (normalizeSubject_canonical "FWD:  Budget 2024 ") "FWD:" "  Budget 2024 ");
    [reflexivity | right; left; reflexivity].
Defined.

(** X13: the subject the page gives to a reply falls into the thread of
    the email replied to, when the subject of that email starts with
    [Re:] or carries no reply or forward prefix. *)
Theorem reply_subject_same_thread (subject : string) :
  startsWith "Re:" subject = true \/ stripReplyPrefix subject = subject ->
  normalizeSubject (Page.replySubject subject) = normalizeSubject subject.
Proof.
  unfold Page.replySubject. destruct (startsWith "Re:" subject) eqn:Hre; [reflexivity |].
  intros [H | Hplain]; [discriminate |].
  unfold normalizeSubject. rewrite Hplain.
  change (stripReplyPrefix (String.append "Re: " subject))
    with (trimStart subject).
  unfold trim. rewrite trimStart_idem. reflexivity.
Qed.

Lemma reply_subject_same_thread_witness :
  stripReplyPrefix "Budget 2024" = "Budget 2024"
  /\ Page.replySubject "Budget 2024" = "Re: Budget 2024"
  /\ normalizeSubject (Page.replySubject "Budget 2024") = normalizeSubject "Budget 2024".
Proof.
  split; [reflexivity |]. split; [reflexivity |].
  apply (reply_subject_same_thread "Budget 2024"). right. reflexivity.
Defined.

Example reply_to_lower_case_prefix_leaves_the_thread :
  normalizeSubject (Page.replySubject "re: budget") = "re: budget"
  /\ normalizeSubject "re: budget" = "budget".
Proof. split; reflexivity. Qed.

End Subjects.

(** * Clicks in the inbox list *)

Section Clicks.
Import JsString Types InboxViewer InboxView Props.

Lemma toggleThread_twice (threadId : string) (expandedThreads : gset string) :
  toggleThread threadId (toggleThread threadId expandedThreads) = expandedThreads.
Proof.
  unfold toggleThread. destruct (bool_decide_reflect (threadId ∈ expandedThreads)) as [Hin | Hout].
  - rewrite bool_decide_eq_false_2 by set_solver.
    apply set_eq. intros x. set_unfold. destruct (decide (x = threadId)); naive_solver.
  - rewrite bool_decide_eq_true_2 by set_solver.
    apply set_eq. intros x. set_unfold. naive_solver.
Qed.

Lemma click_selects (email : Email) (thread : EmailThread)
    (expandedThreads : gset string) (s : Store.AppState) :
  Store.selectedEmailId (snd (fst (handleEmailClick email thread expandedThreads s)))
  = Some (id email).
Proof.
  unfold handleEmailClick.
  destruct (Store.setSelectedEmailId (Some (id email)) s) as [s1 requests] eqn:Hs.
  assert (H1 : Store.selectedEmailId s1 = Some (id email)).
  { unfold Store.setSelectedEmailId in Hs. destruct (id email); injection Hs as <- _;
      reflexivity. }
  destruct (Nat.ltb 1 (length (t_emails thread))); [| exact H1].
  destruct (if match Store.selectedEmailId s with
               | Some i => String.eqb i (id email)
               | None => false
               end
            then negb (bool_decide (t_id thread ∈ expandedThreads)) else true);
    exact H1.
Qed.

(** X14: a click on an email of a thread of several emails selects that
    email and leaves the thread context and the expansion in step: the
    thread ends up expanded with the clicked email alone as context, or
    collapsed with the whole thread as context.  A click on an email
    that was not selected always expands; the expansion of the other
    threads is not touched. *)
Theorem click_context_follows_expansion (email : Email) (thread : EmailThread)
    (expandedThreads : gset string) (s : Store.AppState) :
  1 < length (t_emails thread) ->
  let result := handleEmailClick email thread expandedThreads s in
  let expanded' := fst (fst result) in
  let s' := snd (fst result) in
  Store.selectedEmailId s' = Some (id email)
  /\ (((t_id thread ∈ expanded') /\ Store.selectedThreadEmails s' = [email])
      \/ ((t_id thread ∉ expanded') /\ Store.selectedThreadEmails s' = t_emails thread))
  /\ (Store.selectedEmailId s <> Some (id email) -> t_id thread ∈ expanded')
  /\ (forall k, k <> t_id thread -> (k ∈ expanded' <-> k ∈ expandedThreads)).
Proof.
  intros Hlen. cbv zeta. split; [apply click_selects |].
  unfold handleEmailClick.
  destruct (Store.setSelectedEmailId (Some (id email)) s) as [s1 requests].
  apply Nat.ltb_lt in Hlen. rewrite Hlen.
  destruct (Store.selectedEmailId s) as [i|] eqn:Hsel.
  - destruct (String.eqb_spec i (id email)) as [-> | Hne].
    + destruct (bool_decide_reflect (t_id thread ∈ expandedThreads)) as [Hin | Hout];
        simpl.
      * split; [right; split; [set_solver | reflexivity] |].
        split; [congruence | intros k Hk; set_solver].
      * split; [left; split; [set_solver | reflexivity] |].
        split; [congruence | intros k Hk; set_solver].
    + simpl. split; [left; split; [set_solver | reflexivity] |].
      split; [intros _; set_solver | intros k Hk; set_solver].
  - simpl. split; [left; split; [set_solver | reflexivity] |].
    split; [intros _; set_solver | intros k Hk; set_solver].
Qed.

Lemma click_context_follows_expansion_witness :
  let thread :=
    mkEmailThread "budget" "Budget" [Sample.budgetAgain; Sample.budget]
      "2024-03-02T09:00:00Z" true in
  let s := Sample.stateOf [Sample.budget; Sample.budgetAgain] (Some Sample.connected) in
  let result := handleEmailClick Sample.budget thread ∅ s in
  1 < length (t_emails thread)
  /\ Store.selectedEmailId (snd (fst result)) = Some "m1"
  /\ ("budget" ∈ fst (fst result)).
Proof.
  intros thread s result. assert (Hlen : 1 < length (t_emails thread)) by (simpl; lia).
  destruct (click_context_follows_expansion Sample.budget thread ∅ s Hlen)
    as (Hsel & _ & Hexp & _).
  split; [exact Hlen |]. split; [exact Hsel |]. apply Hexp. discriminate.
Defined.

(** X15: the expansion of a thread is a switch.  Toggling a thread twice
    with its chevron gives the expanded threads back, and so does
    clicking twice the selected email of a thread of several emails. *)
Theorem expansion_is_a_switch (email : Email) (thread : EmailThread)
    (expandedThreads : gset string) (s : Store.AppState) :
  toggleThread (t_id thread) (toggleThread (t_id thread) expandedThreads)
  = expandedThreads
  /\ (1 < length (t_emails thread) ->
      Store.selectedEmailId s = Some (id email) ->
      let once := handleEmailClick email thread expandedThreads s in
      let twice := handleEmailClick email thread (fst (fst once)) (snd (fst once)) in
      fst (fst once) = toggleThread (t_id thread) expandedThreads
      /\ fst (fst twice) = expandedThreads).
Proof.
  split; [apply toggleThread_twice |]. intros Hlen Hsel. cbv zeta.
  assert (Honce : forall ex st, Store.selectedEmailId st = Some (id email) ->
            fst (fst (handleEmailClick email thread ex st)) = toggleThread (t_id thread) ex).
  { intros ex st Hst. unfold handleEmailClick, toggleThread.
    destruct (Store.setSelectedEmailId (Some (id email)) st) as [s1 requests].
    apply Nat.ltb_lt in Hlen. rewrite Hlen, Hst, String.eqb_refl.
    destruct (bool_decide (t_id thread ∈ ex)); reflexivity. }
  split; [apply Honce; exact Hsel |].
  rewrite Honce by apply click_selects. rewrite Honce by exact Hsel.
  apply toggleThread_twice.
Qed.

Lemma expansion_is_a_switch_witness :
  let thread :=
    mkEmailThread "budget" "Budget" [Sample.budgetAgain; Sample.budget]
      "2024-03-02T09:00:00Z" true in
  let s := Store.set_selectedEmailId (Some "m2")
             (Sample.stateOf [Sample.budget; Sample.budgetAgain] (Some Sample.connected)) in
  let once := handleEmailClick Sample.budgetAgain thread {[ "budget" ]} s in
  let twice := handleEmailClick Sample.budgetAgain thread (fst (fst once)) (snd (fst once)) in
  1 < length (t_emails thread)
  /\ Store.selectedEmailId s = Some (id Sample.budgetAgain)
  /\ fst (fst twice) = {[ "budget" ]}.
Proof.
  intros thread s once twice.
  assert (Hlen : 1 < length (t_emails thread)) by (simpl; lia).
  split; [exact Hlen |]. split; [reflexivity |].
  exact (proj2 (proj2 (expansion_is_a_switch Sample.budgetAgain thread {[ "budget" ]} s)
                  Hlen eq_refl)).
Defined.

Variable getTime : string -> option Z.

(** X16: when every timestamp is a valid date, the one row a collapsed
    thread shows is an email of the thread that is not older than any
    other of its emails. *)
Theorem collapsed_thread_shows_newest (filteredEmails : list Email) (t : EmailThread)
    (expandedThreads : gset string) :
  datesValid getTime filteredEmails ->
  In t (threads getTime filteredEmails) ->
  t_id t ∉ expandedThreads ->
  exists e, displayEmails t expandedThreads = [e]
            /\ In e (t_emails t)
            /\ forall e', In e' (t_emails t) ->
                 notOlder getTime (timestamp e) (timestamp e').
Proof.
  intros Hv Ht Hout.
  destruct (threads_summarized getTime filteredEmails t Hv Ht) as (Hne & _ & _ & _).
  pose proof (proj2 (threads_newest_first getTime filteredEmails Hv) t Ht) as Hsorted.
  assert (Hd : forall e, In e (t_emails t) -> dated getTime (timestamp e)).
  { intros e He. apply (threads_grouped getTime filteredEmails t e Ht) in He.
    apply Hv. apply He. }
  unfold displayEmails. rewrite bool_decide_eq_false_2 by exact Hout.
  destruct (t_emails t) as [|e r] eqn:Hem; [congruence |]. exists e.
  assert (Hshown : (if Nat.eqb (length (e :: r)) 1 then e :: r else firstn 1 (e :: r)) = [e]).
  { destruct r; reflexivity. }
  split; [exact Hshown |]. split; [left; reflexivity |].
  intros e' [<- | He'].
  - apply notOlder_refl. apply Hd. left. reflexivity.
  - apply StronglySorted_inv in Hsorted. destruct Hsorted as [_ Hall].
    apply (proj1 (List.Forall_forall _ _) Hall e' He').
Qed.

End Clicks.

Lemma collapsed_thread_shows_newest_witness :
  let thread :=
    InboxViewer.mkEmailThread "budget" "Budget" [Sample.budgetAgain; Sample.budget]
      "2024-03-02T09:00:00Z" true in
  Props.datesValid Sample.clock [Sample.budget; Sample.budgetAgain]
  /\ In thread (InboxViewer.threads Sample.clock [Sample.budget; Sample.budgetAgain])
  /\ ("budget" ∉ (∅ : gset string))
  /\ exists e, InboxView.displayEmails thread ∅ = [e]
               /\ In e (InboxViewer.t_emails thread)
               /\ forall e', In e' (InboxViewer.t_emails thread) ->
                    Props.notOlder Sample.clock (Types.timestamp e) (Types.timestamp e').
Proof.
  intros thread.
  assert (Ht : In thread (InboxViewer.threads Sample.clock [Sample.budget; Sample.budgetAgain]))
    by (left; vm_compute; reflexivity).
  assert (Hout : "budget" ∉ (∅ : gset string)) by set_solver.
  split; [exact sample_dates_valid |]. split; [exact Ht |]. split; [exact Hout |].
  exact (collapsed_thread_shows_newest Sample.clock [Sample.budget; Sample.budgetAgain]
           thread ∅ sample_dates_valid Ht Hout).
Defined.

(** * Folders and categories of the inbox *)

Section Folders.
Import JsString Types InboxViewer InboxView Props.

Lemma keepEmail_all (filter : Folder) (email : Email) :
  keepEmail filter "all" email = matchesFolder filter email.
Proof. unfold keepEmail. destruct (matchesFolder filter email); reflexivity. Qed.

Lemma keepEmail_folder (filter : Folder) (subFilter : string) (email : Email) :
  keepEmail filter subFilter email = true -> matchesFolder filter email = true.
Proof. unfold keepEmail. destruct (matchesFolder filter email); [reflexivity | discriminate]. Qed.

Lemma inbox_complement (email : Email) :
  matchesFolder inbox email
  = negb (matchesFolder spam email || matchesFolder drafts email
          || matchesFolder sent email).
Proof.
  unfold matchesFolder, categoryIncludes. destruct (category email) as [c|]; simpl;
    [| reflexivity].
  destruct (includes "spam" (toLowerCase c)), (includes "draft" (toLowerCase c)),
    (includes "sent" (toLowerCase c)); reflexivity.
Qed.

(** X17: with the sub-filter [all], the inbox folder holds exactly the
    emails that none of the spam, drafts and sent folders holds, so every
    email is in the inbox or in one of those, never both; an email
    without category is in the inbox; and every sub-filter only narrows
    a folder. *)
Theorem inbox_is_the_rest (emails : list Email) :
  (forall e,
     In e (filteredEmails inbox "all" emails)
     <-> In e emails
         /\ ~ In e (filteredEmails spam "all" emails)
         /\ ~ In e (filteredEmails drafts "all" emails)
         /\ ~ In e (filteredEmails sent "all" emails))
  /\ (forall e, In e emails -> category e = None ->
        In e (filteredEmails inbox "all" emails))
  /\ (forall filter subFilter e,
        In e (filteredEmails filter subFilter emails) ->
        In e (filteredEmails filter "all" emails)).
Proof.
  unfold filteredEmails. split; [| split].
  - intros e. rewrite !filter_In, !keepEmail_all, inbox_complement.
    destruct (matchesFolder spam e), (matchesFolder drafts e), (matchesFolder sent e);
      simpl; intuition congruence.
  - intros e He Hc. apply filter_In. split; [exact He |].
    rewrite keepEmail_all. unfold matchesFolder, categoryIncludes. rewrite Hc. reflexivity.
  - intros filter subFilter e He. apply filter_In in He. destruct He as [He Hk].
    apply filter_In. split; [exact He |]. rewrite keepEmail_all.
    apply (keepEmail_folder filter subFilter). exact Hk.
Qed.

Lemma existsb_eqb_In (v : string) (seen : list string) :
  existsb (String.eqb v) seen = true <-> In v seen.
Proof.
  rewrite existsb_exists. split.
  - intros (x & Hx & Heq). apply String.eqb_eq in Heq. congruence.
  - intros Hin. exists v. split; [exact Hin | apply String.eqb_refl].
Qed.

Lemma fromSet_In (seen values : list string) (c : string) :
  In c (fromSet seen values) <-> In c values /\ ~ In c seen.
Proof.
  revert seen. induction values as [|v r IH]; intros seen; simpl; [tauto |].
  destruct (existsb (String.eqb v) seen) eqn:Hs.
  - apply existsb_eqb_In in Hs. rewrite IH. split.
    + intros [Hr Hn]. auto.
    + intros [[<- | Hr] Hn]; [contradiction | auto].
  - assert (Hv : ~ In v seen).
    { intros Hin. apply existsb_eqb_In in Hin. congruence. }
    simpl. rewrite IH. simpl. split.
    + intros [<- | [Hr Hn]]; [auto | split; [auto | tauto]].
    + intros [[<- | Hr] Hn]; [auto |].
      destruct (String.eqb_spec v c) as [-> | Hne]; [auto |]. right. split; [auto |].
      intros [Heq | Hin]; [congruence | contradiction].
Qed.

Lemma fromSet_NoDup (seen values : list string) : List.NoDup (fromSet seen values).
Proof.
  revert seen. induction values as [|v r IH]; intros seen; simpl; [constructor |].
  destruct (existsb (String.eqb v) seen); [apply IH |].
  constructor; [| apply IH]. intros Hin. apply fromSet_In in Hin.
  destruct Hin as [_ Hn]. apply Hn. left. reflexivity.
Qed.

(** X18: the category pills list each category once: the categories of
    the displayed emails that are not blank, without repetition. *)
Theorem categories_distinct (emails : list Email) :
  List.NoDup (categories emails)
  /\ forall c, In c (categories emails)
               <-> exists e, In e emails /\ category e = Some c /\ trim c <> "".
Proof.
  unfold categories. split; [apply fromSet_NoDup |].
  intros c. rewrite fromSet_In, in_flat_map. split.
  - intros [(e & He & Hc) _]. exists e. split; [exact He |].
    destruct (category e) as [cat|]; [| destruct Hc].
    destruct (String.eqb_spec (trim cat) ""); simpl in Hc; [destruct Hc |].
    destruct Hc as [<- | []]. auto.
  - intros (e & He & Hc & Ht). split; [| intros []]. exists e. split; [exact He |].
    rewrite Hc. destruct (String.eqb_spec (trim c) ""); [contradiction |].
    left. reflexivity.
Qed.

End Folders.

(** * Chat keys *)

Section ChatKeys.
Import JsString Types AgentChat Props.

Lemma ascii_compare_refl (a : ascii) : Ascii.compare a a = Eq.
Proof. unfold Ascii.compare. apply N.compare_refl. Qed.

Lemma ascii_compare_lt_trans (a b c : ascii) :
  Ascii.compare a b = Lt -> Ascii.compare b c = Lt -> Ascii.compare a c = Lt.
Proof.
  unfold Ascii.compare. rewrite !N.compare_lt_iff. apply N.lt_trans.
Qed.

Lemma strLe_trans (a b c : string) : strLe a b -> strLe b c -> strLe a c.
Proof.
  unfold strLe. revert b c. induction a as [|x a IH]; intros b c Hab Hbc.
  - destruct c; simpl; discriminate.
  - destruct b as [|y b]; [simpl in Hab; congruence |].
    destruct c as [|z c]; [simpl in Hbc; congruence |].
    simpl in *. destruct (Ascii.compare x y) eqn:Exy; [| | congruence].
    + apply Ascii.compare_eq_iff in Exy. subst y.
      destruct (Ascii.compare x z) eqn:Exz; [| discriminate | congruence].
      apply (IH b c); assumption.
    + destruct (Ascii.compare y z) eqn:Eyz; [| | congruence].
      * apply Ascii.compare_eq_iff in Eyz. subst z. rewrite Exy. discriminate.
      * rewrite (ascii_compare_lt_trans x y z Exy Eyz). discriminate.
Qed.

Lemma strLe_antisym (a b : string) : strLe a b -> strLe b a -> a = b.
Proof.
  unfold strLe. intros Hab Hba. apply String.compare_eq_iff.
  rewrite String.compare_antisym in Hba.
  destruct (String.compare a b); simpl in *; congruence.
Qed.

Lemma compareStrings_swap (a b : string) :
  (0 <? compareStrings a b)%Z = true -> strLe b a.
Proof.
  unfold compareStrings, strLe. rewrite (String.compare_antisym a b).
  destruct (String.compare b a); simpl; intros H; try discriminate H; discriminate.
Qed.

Lemma compareStrings_keep (a b : string) :
  (0 <? compareStrings a b)%Z = false -> strLe a b.
Proof.
  unfold compareStrings, strLe.
  destruct (String.compare a b); simpl; intros H; try discriminate H; discriminate.
Qed.

Lemma insertBy_strings_sorted (x : string) (l : list string) :
  StronglySorted strLe l -> StronglySorted strLe (insertBy compareStrings x l).
Proof.
  intros Hs. induction l as [|y r IH]; simpl.
  - constructor; constructor.
  - apply StronglySorted_inv in Hs. destruct Hs as [Hr Hy].
    destruct (0 <? compareStrings x y)%Z eqn:Hc.
    + constructor; [apply IH; exact Hr |].
      apply List.Forall_forall. intros z Hz. apply insertBy_In in Hz.
      destruct Hz as [-> | Hz]; [apply compareStrings_swap; exact Hc |].
      apply (proj1 (List.Forall_forall _ _) Hy z Hz).
    + constructor; [constructor; assumption |].
      constructor; [apply compareStrings_keep; exact Hc |].
      apply List.Forall_forall. intros z Hz.
      apply strLe_trans with (b := y); [apply compareStrings_keep; exact Hc |].
      apply (proj1 (List.Forall_forall _ _) Hy z Hz).
Qed.

Lemma sort_strings_sorted (l : list string) : StronglySorted strLe (sort compareStrings l).
Proof.
  unfold sort. induction l as [|x r IH]; simpl; [constructor |].
  apply insertBy_strings_sorted. exact IH.
Qed.

Lemma sort_strings_canonical (l1 l2 : list string) :
  Permutation l1 l2 -> sort compareStrings l1 = sort compareStrings l2.
Proof.
  intros Hp.
  apply (StronglySorted_unique strLe (AntiSymm0 := strLe_antisym));
    [apply sort_strings_sorted | apply sort_strings_sorted |].
  rewrite !sort_Permutation. exact Hp.
Qed.

(** X19: the chat key of a thread does not depend on the order in which
    the emails of the thread are listed. *)
Theorem chatKey_order_independent (selectedEmailId : option string)
    (thread1 thread2 : list Email) :
  Permutation thread1 thread2 ->
  chatKey selectedEmailId thread1 = chatKey selectedEmailId thread2.
Proof.
  intros Hp. unfold chatKey. rewrite (Permutation_length Hp).
  rewrite (sort_strings_canonical (map id thread1) (map id thread2))
    by (apply Permutation_map; exact Hp).
  reflexivity.
Qed.

Lemma chatKey_order_independent_witness :
  Permutation [Sample.budget; Sample.budgetAgain] [Sample.budgetAgain; Sample.budget]
  /\ chatKey (Some "m1") [Sample.budget; Sample.budgetAgain]
     = chatKey (Some "m1") [Sample.budgetAgain; Sample.budget].
Proof.
  assert (Hp : Permutation [Sample.budget; Sample.budgetAgain]
                 [Sample.budgetAgain; Sample.budget]) by apply perm_swap.
  split; [exact Hp |].
  exact (chatKey_order_independent (Some "m1") _ _ Hp).
Defined.

(** X20: the chat of a single email and the chat of a thread never share
    a key, and the chats of two single emails share a key only when the
    emails have the same id. *)
Theorem chatKey_separates (i j : option string) (single single' thread : list Email)
    (k : string) :
  length single <= 1 -> length single' <= 1 -> 1 < length thread ->
  chatKey i single = Some k ->
  chatKey j thread <> Some k /\ (chatKey j single' = Some k -> i = j).
Proof.
  intros Hs Hs' Ht. unfold chatKey.
  assert (H1 : Nat.ltb 1 (length single) = false) by (apply Nat.ltb_ge; exact Hs).
  assert (H2 : Nat.ltb 1 (length single') = false) by (apply Nat.ltb_ge; exact Hs').
  assert (H3 : Nat.ltb 1 (length thread) = true) by (apply Nat.ltb_lt; exact Ht).
  rewrite H1, H2, H3.
  destruct i as [[|c r]|]; try discriminate. intros Hk. injection Hk as <-.
  split.
  - destruct j as [[|c' r']|]; discriminate.
  - destruct j as [[|c' r']|]; try discriminate. intros Hj. injection Hj as -> ->.
    reflexivity.
Qed.

Lemma chatKey_separates_witness :
  length [Sample.budget] <= 1 /\ 1 < length [Sample.budget; Sample.budgetAgain]
  /\ chatKey (Some "m1") [Sample.budget] = Some "email:m1"
  /\ chatKey (Some "m1") [Sample.budget; Sample.budgetAgain] <> Some "email:m1".
Proof.
  assert (H1 : length [Sample.budget] <= 1) by (simpl; lia).
  assert (H2 : 1 < length [Sample.budget; Sample.budgetAgain]) by (simpl; lia).
  split; [exact H1 |]. split; [exact H2 |]. split; [reflexivity |].
  exact (proj1 (chatKey_separates (Some "m1") (Some "m1") [Sample.budget] [Sample.budget]
                  [Sample.budget; Sample.budgetAgain] "email:m1" H1 H1 H2 eq_refl)).
Defined.

Example thread_keys_of_ids_with_commas_collide :
  let a := Sample.mail "a,b" "x" "" None None None in
  let c := Sample.mail "c" "x" "" None None None in
  let ab := Sample.mail "a" "x" "" None None None in
  let bc := Sample.mail "b,c" "x" "" None None None in
  chatKey (Some "a,b") [a; c] = chatKey (Some "a") [ab; bc].
Proof. reflexivity. Qed.

End ChatKeys.

(** * Sending, skipping and resetting in the chat panels *)

Section ChatSends.
Import JsString Types Props.

Lemma trimStart_blank (s : string) : blank s = true -> trimStart s = "".
Proof.
  induction s as [|c r IH]; simpl; [reflexivity |].
  destruct (isWhiteSpace c); simpl; [exact IH | discriminate].
Qed.

Lemma trim_blank (s : string) : blank s = true -> trim s = "".
Proof. intros Hb. unfold trim. rewrite trimStart_blank by exact Hb. reflexivity. Qed.



(** X22: nothing is sent for an input of white space only.  Both panels
    leave their state as it is and issue no request; the per-email panel
    does the same without a selected email, and the general chat while a
    send is in flight. *)
Theorem blank_input_is_not_sent
    (chat : AgentChat.ChatRequest -> AgentChat.ChatOutcome) :
  (forall sel thread p,
     blank (AgentChat.input p) = true \/ sel = None \/ sel = Some "" ->
     AgentChat.handleSend chat sel thread p = Returned p)
  /\ (forall now later q,
        blank (Chat.input q) = true \/ Chat.isLoading q = true ->
        Chat.handleSend chat now later q = Returned q).
Proof.
  split.
  - intros sel thread p H. unfold AgentChat.handleSend.
    destruct sel as [[|c r]|]; try reflexivity.
    destruct H as [Hb | [H | H]]; try discriminate.
    destruct (AgentChat.chatKey _ thread); [| reflexivity].
    rewrite (trim_blank _ Hb). reflexivity.
  - intros now later q [Hb | Hl]; unfold Chat.handleSend.
    + rewrite (trim_blank _ Hb). reflexivity.
    + rewrite Hl, orb_true_r. reflexivity.
Qed.

Lemma blank_input_is_not_sent_witness :
  let chat := fun _ : AgentChat.ChatRequest => AgentChat.Resolved "Friday." in
  blank "   " = true
  /\ AgentChat.handleSend chat (Some "m1") [Sample.budget] (Sample.asking "   ")
     = Returned (Sample.asking "   ").
Proof.
  intros chat. split; [reflexivity |].
  apply (proj1 (blank_input_is_not_sent chat)). left. reflexivity.
Defined.

(** X23: resetting a chat discards its conversation and nothing else.
    The conversation of the current key becomes the reset greeting
    alone, the conversations of the other keys stay, and no request is
    sent; in the general chat, a confirmed reset empties the
    conversation and a declined one changes nothing. *)
Theorem reset_discards_one_conversation
    (sel : option string) (thread : list Email) (key : string) (p : AgentChat.Panel) :
  AgentChat.chatKey sel thread = Some key ->
  let p' := AgentChat.handleReset sel thread p in
  (exists greeting,
     AgentChat.currentMessages (AgentChat.history p') sel thread
     = [AgentChat.mkMessage AgentChat.agent greeting])
  /\ (forall other, other <> key ->
        AgentChat.history p' !! other = AgentChat.history p !! other)
  /\ AgentChat.sent p' = AgentChat.sent p
  /\ AgentChat.input p' = AgentChat.input p
  /\ (forall q, Chat.messages (ChatPage.handleReset true q) = []
                /\ ChatPage.handleReset false q = q).
Proof.
  intros Hkey. cbv zeta. unfold AgentChat.handleReset, AgentChat.currentMessages.
  rewrite Hkey. simpl. rewrite lookup_insert_eq.
  split; [eexists; reflexivity |].
  split; [intros other Hne; apply lookup_insert_ne; congruence |].
  repeat split.
Qed.

Lemma reset_discards_one_conversation_witness :
  let p := AgentChat.mkPanel
             {[ "email:m1" := [AgentChat.mkMessage AgentChat.user "When is it due?"] ]}
             "" false [] in
  AgentChat.chatKey (Some "m1") [Sample.budget] = Some "email:m1"
  /\ exists greeting,
       AgentChat.currentMessages
         (AgentChat.history (AgentChat.handleReset (Some "m1") [Sample.budget] p))
         (Some "m1") [Sample.budget]
       = [AgentChat.mkMessage AgentChat.agent greeting].
Proof.
  intros p. split; [reflexivity |].
  exact (proj1 (reset_discards_one_conversation (Some "m1") [Sample.budget] "email:m1" p
                  eq_refl)).
Defined.

End ChatSends.

(** * Splitting and joining *)

Section SplitJoin.
Import JsString Types Props.

Lemma split_not_nil (c : ascii) (s : string) : split c s <> [].
Proof.
  destruct s as [|a r]; simpl; [discriminate |].
  destruct (Ascii.eqb a c); [discriminate |]. destruct (split c r); discriminate.
Qed.

Lemma split_lacks (c : ascii) (s : string) : lacks c s = true -> split c s = [s].
Proof.
  induction s as [|a r IH]; simpl; [reflexivity |].
  destruct (Ascii.eqb a c); simpl; [discriminate |]. intros Hr. rewrite (IH Hr). reflexivity.
Qed.

Lemma split_app_sep (c : ascii) (a r : string) :
  lacks c a = true -> split c (String.append a (String c r)) = a :: split c r.
Proof.
  induction a as [|x a IH]; simpl.
  - intros _. rewrite Ascii.eqb_refl. reflexivity.
  - destruct (Ascii.eqb x c); simpl; [discriminate |]. intros Ha. rewrite (IH Ha).
    reflexivity.
Qed.

Lemma split_pieces_lack (c : ascii) (s : string) :
  Forall (fun piece => lacks c piece = true) (split c s).
Proof.
  induction s as [|a r IH]; simpl; [repeat constructor |].
  destruct (Ascii.eqb a c) eqn:Ha; [constructor; [reflexivity | exact IH] |].
  destruct (split c r) as [|h t]; [repeat constructor; simpl; rewrite Ha; reflexivity |].
  inversion IH as [|? ? Hh Ht]; subst. constructor; [| exact Ht].
  simpl. rewrite Ha, Hh. reflexivity.
Qed.

Lemma split_join (c : ascii) (l : list string) :
  l <> [] -> Forall (fun piece => lacks c piece = true) l ->
  split c (join (String c EmptyString) l) = l.
Proof.
  intros Hne Hl. induction Hl as [|x r Hx Hr IH]; [congruence |].
  destruct r as [|y r]; [simpl; apply split_lacks; exact Hx |].
  change (join (String c EmptyString) (x :: y :: r))
    with (String.append x (String c (join (String c EmptyString) (y :: r)))).
  rewrite split_app_sep by exact Hx. rewrite IH by discriminate. reflexivity.
Qed.

Lemma lacks_append (c : ascii) (a b : string) :
  lacks c (String.append a b) = lacks c a && lacks c b.
Proof.
  induction a as [|x a IH]; simpl; [reflexivity |]. rewrite IH, andb_assoc. reflexivity.
Qed.

Lemma lacks_trimStart (c : ascii) (s : string) :
  lacks c s = true -> lacks c (trimStart s) = true.
Proof.
  induction s as [|a r IH]; simpl; [reflexivity |].
  destruct (isWhiteSpace a); [| simpl; tauto].
  intros H. apply andb_true_iff in H. apply IH, H.
Qed.

Lemma lacks_trimEnd (c : ascii) (s : string) :
  lacks c s = true -> lacks c (trimEnd s) = true.
Proof.
  induction s as [|a r IH]; [reflexivity |]. rewrite trimEnd_cons. simpl.
  intros H. apply andb_true_iff in H. destruct H as [Ha Hr]. specialize (IH Hr).
  destruct (trimEnd r); [destruct (isWhiteSpace a); simpl; [reflexivity |] |];
    simpl in *; rewrite Ha; simpl; [reflexivity | exact IH].
Qed.

Lemma lacks_trim (c : ascii) (s : string) : lacks c s = true -> lacks c (trim s) = true.
Proof. intros H. unfold trim. apply lacks_trimEnd, lacks_trimStart, H. Qed.

End SplitJoin.

(** * Recipients of the composer *)

Section Recipients.
Import JsString Types GmailComposer ComposerForm Props.

Lemma trim_leading_space (s : string) : trim (String " " s) = trim s.
Proof. reflexivity. Qed.

Lemma split_comma_leading_space (s : string) :
  map trim (split "," (String " " s)) = map trim (split "," s).
Proof.
  cbn [split]. change (Ascii.eqb " " ",") with false. cbv iota.
  destruct (split "," s) as [|h t] eqn:Hs; [exfalso; exact (split_not_nil _ _ Hs) |].
  simpl map. rewrite trim_leading_space. reflexivity.
Qed.

Lemma split_join_recipients (l : list string) :
  l <> [] -> Forall cleanRecipient l -> map trim (split "," (join ", " l)) = l.
Proof.
  intros Hne Hl. induction Hl as [|x r Hx Hr IH]; [congruence |].
  destruct Hx as (_ & Htrim & Hcomma).
  destruct r as [|y r].
  - simpl join. rewrite split_lacks by exact Hcomma. simpl. rewrite Htrim. reflexivity.
  - change (join ", " (x :: y :: r))
      with (String.append x (String "," (String " " (join ", " (y :: r))))).
    rewrite split_app_sep by exact Hcomma. cbn [map].
    rewrite split_comma_leading_space, IH by discriminate. rewrite Htrim. reflexivity.
Qed.

Lemma filter_truthy_clean (l : list string) :
  Forall cleanRecipient l -> List.filter truthy l = l.
Proof.
  induction 1 as [|x r Hx Hr IH]; simpl; [reflexivity |].
  destruct Hx as (Hne & _). destruct x; [congruence |]. simpl. rewrite IH. reflexivity.
Qed.

Lemma parseRecipients_toInput (l : list string) :
  Forall cleanRecipient l -> parseRecipients (toInput (Some l)) = l.
Proof.
  intros Hl. destruct l as [|x r]; [reflexivity |].
  unfold parseRecipients, toInput.
  rewrite (split_join_recipients (x :: r)) by (discriminate || exact Hl).
  apply filter_truthy_clean. exact Hl.
Qed.

Lemma parseRecipients_clean (value : string) :
  Forall cleanRecipient (parseRecipients value).
Proof.
  unfold parseRecipients. apply List.Forall_forall. intros r Hr.
  apply filter_In in Hr. destruct Hr as [Hin Ht].
  apply in_map_iff in Hin. destruct Hin as (piece & <- & Hpiece).
  split; [destruct (trim piece); [discriminate | discriminate] |].
  split; [apply trim_idem |]. apply lacks_trim.
  apply (proj1 (List.Forall_forall _ _) (split_pieces_lack "," value) piece Hpiece).
Qed.

(** X24: writing recipients into a field and reading them back gives the
    same recipients: for a list of recipients that are not empty, carry
    no blank at either end and no comma, [parseRecipients] undoes
    [toInput]; and [parseRecipients] returns such a list whatever the
    field holds, so reading, writing and reading again is reading once. *)
Theorem recipients_round_trip (l : list string) (value : string) :
  (Forall cleanRecipient l -> parseRecipients (toInput (Some l)) = l)
  /\ Forall cleanRecipient (parseRecipients value)
  /\ parseRecipients (toInput (Some (parseRecipients value))) = parseRecipients value.
Proof.
  split; [apply parseRecipients_toInput |].
  split; [apply parseRecipients_clean |].
  apply parseRecipients_toInput, parseRecipients_clean.
Qed.

Lemma recipients_round_trip_witness :
  Forall cleanRecipient ["ana@example.com"; "Bo <bo@example.com>"]
  /\ toInput (Some ["ana@example.com"; "Bo <bo@example.com>"])
     = "ana@example.com, Bo <bo@example.com>"
  /\ parseRecipients (toInput (Some ["ana@example.com"; "Bo <bo@example.com>"]))
     = ["ana@example.com"; "Bo <bo@example.com>"].
Proof.
  assert (Hl : Forall cleanRecipient ["ana@example.com"; "Bo <bo@example.com>"]).
  { repeat constructor; discriminate. }
  split; [exact Hl |]. split; [reflexivity |].
  exact (proj1 (recipients_round_trip ["ana@example.com"; "Bo <bo@example.com>"] "") Hl).
Defined.

(** X25: a send with at least one recipient never fails and ends with the
    sending flag reset and the form as typed.  The calls it makes are the
    send, then the refresh of the emails, then the refresh of the Gmail
    status, up to the first that fails: when all three succeed the
    composer is closed after them and no error is shown; when one fails,
    no later call is made, the composer is not closed, the failure is
    logged and the error message is shown. *)
Theorem composer_send_outcome (config : ComposerConfig) (backend : Backend) (w : World) :
  parseRecipients (to (composer w)) <> [] ->
  let c := composer w in
  let payload :=
    mkSendPayload (parseRecipients (to c)) (parseRecipients (cc c))
      (parseRecipients (bcc c)) (subject c) (body c) (threadId config)
      (inReplyTo config) in
  let failed := ConsoleError "Failed to send Gmail message" in
  exists w',
    handleSend config backend w = Returned w'
    /\ effects w'
       = effects w
         ++ (if sendGmail backend payload then
               if fetchEmails backend then
                 if fetchGmailStatus backend
                 then [SendGmail payload; FetchEmails; FetchGmailStatus; OnClose]
                 else [SendGmail payload; FetchEmails; FetchGmailStatus; failed]
               else [SendGmail payload; FetchEmails; failed]
             else [SendGmail payload; failed])
    /\ isSending (composer w') = false
    /\ to (composer w') = to c /\ cc (composer w') = cc c /\ bcc (composer w') = bcc c
    /\ subject (composer w') = subject c /\ body (composer w') = body c
    /\ error (composer w')
       = (if sendGmail backend payload && fetchEmails backend && fetchGmailStatus backend
          then None
          else Some "Unable to send email. Please recheck recipients and try again.").
Proof.
  intros Hto. cbv zeta. unfold handleSend.
  destruct (parseRecipients (to (composer w))) as [|r rs] eqn:Hp; [congruence |].
  simpl Nat.eqb. cbv iota. unfold await.
  destruct (sendGmail backend _) eqn:Hs;
    [destruct (fetchEmails backend) eqn:Hf;
     [destruct (fetchGmailStatus backend) eqn:Hg |] |];
    eexists; (split; [reflexivity |]); simpl; rewrite <- ?app_assoc; simpl;
    repeat split.
Qed.

Lemma composer_send_outcome_witness :
  let w := Sample.form "ana@example.com" in
  let payload :=
    mkSendPayload ["ana@example.com"] [] [] "Budget" "See attached." None None in
  parseRecipients (to (composer w)) <> []
  /\ (exists w',
        handleSend Sample.plainConfig Sample.reliable w = Returned w'
        /\ effects w' = [SendGmail payload; FetchEmails; FetchGmailStatus; OnClose])
  /\ (exists w',
        handleSend Sample.plainConfig (mkBackend (fun _ => true) false true) w = Returned w'
        /\ effects w'
           = [SendGmail payload; FetchEmails; ConsoleError "Failed to send Gmail message"]).
Proof.
  intros w payload. assert (Hto : parseRecipients (to (composer w)) <> []) by discriminate.
  split; [exact Hto |]. split.
  - destruct (composer_send_outcome Sample.plainConfig Sample.reliable w Hto)
      as (w' & Hrun & Heff & _).
    exists w'. split; [exact Hrun | exact Heff].
  - destruct (composer_send_outcome Sample.plainConfig
                (mkBackend (fun _ => true) false true) w Hto)
      as (w' & Hrun & Heff & _).
    exists w'. split; [exact Hrun | exact Heff].
Defined.

(** X26: a composer opened with a configuration sends what the
    configuration says.  For clean recipient lists, of which the To list
    is not empty, the send right after loading the configuration issues
    first the request that carries these lists, the subject and body of
    the configuration, and its thread and reply ids. *)
Theorem composer_sends_its_configuration
    (backend : Backend) (c : Composer)
    (toList ccList bccList : list string) (subj bod : string)
    (thread reply : option string) :
  toList <> [] ->
  Forall cleanRecipient toList -> Forall cleanRecipient ccList ->
  Forall cleanRecipient bccList ->
  let config :=
    mkComposerConfig (Some toList) (Some ccList) (Some bccList) (Some subj) (Some bod)
      thread reply in
  exists rest,
    effects (settled (handleSend config backend (mkWorld (loadConfig (Some config) c) [])))
    = SendGmail (mkSendPayload toList ccList bccList subj bod thread reply) :: rest.
Proof.
  intros Hne Hto Hcc Hbcc. cbv zeta. unfold handleSend, loadConfig. cbn [composer to cc bcc
    subject body cfg_to cfg_cc cfg_bcc cfg_subject cfg_body threadId inReplyTo].
  rewrite !parseRecipients_toInput by assumption.
  destruct toList as [|r rs]; [congruence |]. simpl Nat.eqb. cbv iota.
  assert (Hs : (match subj with String _ _ => subj | EmptyString => "" end) = subj)
    by (destruct subj; reflexivity).
  assert (Hb : (match bod with String _ _ => bod | EmptyString => "" end) = bod)
    by (destruct bod; reflexivity).
  unfold await. rewrite Hs, Hb.
  destruct (sendGmail backend _); simpl;
    [destruct (fetchEmails backend); simpl;
     [destruct (fetchGmailStatus backend); simpl |] |];
    eexists; reflexivity.
Qed.

Lemma composer_sends_its_configuration_witness :
  let config :=
    mkComposerConfig (Some ["ana@example.com"]) (Some []) (Some []) (Some "Re: Budget")
      (Some "Thanks.") (Some "thread-17") None in
  ["ana@example.com"] <> []
  /\ Forall cleanRecipient ["ana@example.com"]
  /\ exists rest,
       effects (settled (handleSend config Sample.reliable
                           (mkWorld (loadConfig (Some config) (composer (Sample.form ""))) [])))
       = SendGmail (mkSendPayload ["ana@example.com"] [] [] "Re: Budget" "Thanks."
                      (Some "thread-17") None) :: rest.
Proof.
  intros config.
  assert (Hne : ["ana@example.com"] <> []) by discriminate.
  assert (Hto : Forall cleanRecipient ["ana@example.com"]) by (repeat constructor; discriminate).
  split; [exact Hne |]. split; [exact Hto |].
  exact (composer_sends_its_configuration Sample.reliable (composer (Sample.form ""))
           ["ana@example.com"] [] [] "Re: Budget" "Thanks." (Some "thread-17") None
           Hne Hto (List.Forall_nil _) (List.Forall_nil _)).
Defined.

End Recipients.

(** * Replying from the page *)

Section Replies.
Import JsString Types Page Props.

Lemma upToGt_app (address rest : string) :
  lacks ">" address = true ->
  upToGt (String.append address (String ">" rest)) = Some address.
Proof.
  induction address as [|a r IH]; simpl; [reflexivity |].
  destruct (Ascii.eqb a ">"); simpl; [discriminate |]. intros Hr. rewrite (IH Hr).
  reflexivity.
Qed.

Lemma matchAngle_lacks (v : string) : lacks "<" v = true -> matchAngle v = None.
Proof.
  induction v as [|a r IH]; simpl; [reflexivity |].
  destruct (Ascii.eqb a "<"); simpl; [discriminate | exact IH].
Qed.

Lemma matchAngle_app (name address rest : string) :
  lacks "<" name = true -> address <> "" -> lacks ">" address = true ->
  matchAngle (String.append name (String "<" (String.append address (String ">" rest))))
  = Some address.
Proof.
  intros Hname Hne Haddr. induction name as [|a r IH]; simpl.
  - rewrite upToGt_app by exact Haddr. destruct address; [congruence | reflexivity].
  - simpl in Hname. destruct (Ascii.eqb a "<"); simpl in *; [discriminate |].
    apply IH. exact Hname.
Qed.

(** X27: the address a reply goes to is the bare address of the sender.
    From a sender written as a name followed by an address between angle
    brackets, [extractAddress] takes the address; a sender without an
    opening bracket is taken whole, and a missing or empty sender gives
    the empty string. *)
Theorem extractAddress_takes_the_address (name address rest v : string) :
  (lacks "<" name = true -> address <> "" -> lacks ">" address = true ->
   extractAddress
     (Some (String.append name
              (String "<" (String.append address (String ">" rest)))))
   = address)
  /\ (lacks "<" v = true -> extractAddress (Some v) = v)
  /\ extractAddress None = "".
Proof.
  split; [| split; [| reflexivity]].
  - intros Hname Hne Haddr. unfold extractAddress.
    rewrite matchAngle_app by assumption.
    destruct (String.append name _) eqn:E; [| reflexivity].
    destruct name; discriminate.
  - intros Hv. unfold extractAddress. rewrite matchAngle_lacks by exact Hv.
    destruct v; reflexivity.
Qed.

Lemma extractAddress_takes_the_address_witness :
  lacks "<" "Ana Lima " = true /\ lacks ">" "ana@example.com" = true
  /\ extractAddress (Some "Ana Lima <ana@example.com>") = "ana@example.com"
  /\ extractAddress (Some "ana@example.com") = "ana@example.com".
Proof.
  split; [reflexivity |]. split; [reflexivity |].
  destruct (extractAddress_takes_the_address "Ana Lima " "ana@example.com" ""
              "ana@example.com") as (Hbare & Hwhole & _).
  split; [apply Hbare; [reflexivity | discriminate | reflexivity] | apply Hwhole; reflexivity].
Defined.

(** X28: the quotation of a body has the lines of the body, each behind
    the mark [> ]: splitting the quotation into lines gives the lines of
    the body with the mark in front, as many as the body has; an empty
    body is quoted as the empty string. *)
Theorem quoted_marks_every_line (body : string) :
  body <> "" ->
  split "010" (quoted body) = map (String.append "> ") (split "010" body)
  /\ length (split "010" (quoted body)) = length (split "010" body)
  /\ quoted "" = "".
Proof.
  intros Hne.
  assert (Hq : split "010" (quoted body) = map (String.append "> ") (split "010" body)).
  { unfold quoted. destruct body as [|c r]; [congruence |].
    apply split_join.
    - intros Hnil. apply map_eq_nil in Hnil. exact (split_not_nil _ _ Hnil).
    - apply List.Forall_forall. intros line Hline. apply in_map_iff in Hline.
      destruct Hline as (piece & <- & Hpiece). rewrite lacks_append. simpl.
      apply (proj1 (List.Forall_forall _ _) (split_pieces_lack "010" (String c r)) piece
               Hpiece). }
  split; [exact Hq |]. split; [rewrite Hq; apply length_map | reflexivity].
Qed.

Lemma quoted_marks_every_line_witness :
  let body := String.append "Hello," (String.append Sample.newline "see you.") in
  body <> ""
  /\ split "010" (quoted body) = ["> Hello,"; "> see you."].
Proof.
  intros body. assert (Hne : body <> "") by discriminate.
  split; [exact Hne |].
  exact (proj1 (quoted_marks_every_line body Hne)).
Defined.

End Replies.

Section ReplyComposer.
Import JsString Types Page Props.

Variable toLocaleString : string -> string.

(** X29: the composer opens for a reply only with Gmail connected.
    Without an authenticated status the page shows the notice and keeps
    its tab and configuration; with one it switches to the compose tab
    with a configuration addressed to the bare address of the sender,
    under the reply subject, that carries the thread id and the message
    id of the email replied to. *)
Theorem reply_opens_in_the_thread (gmailStatus : option GmailStatus) (email : Email)
    (p : PageState) :
  let p' := handleReplyWithGmail toLocaleString gmailStatus email p in
  (Store.isAuthenticated gmailStatus = false ->
   activeTab p' = activeTab p /\ composerConfig p' = composerConfig p
   /\ shown p' = shown p ++ ["Connect Gmail before composing."])
  /\ (Store.isAuthenticated gmailStatus = true ->
      activeTab p' = tab_compose /\ shown p' = shown p
      /\ exists config,
           composerConfig p' = Some config
           /\ GmailComposer.cfg_to config = Some [extractAddress (Some (sender email))]
           /\ GmailComposer.cfg_subject config = Some (replySubject (subject email))
           /\ GmailComposer.threadId config = thread_id email
           /\ GmailComposer.inReplyTo config = message_id email).
Proof.
  cbv zeta. unfold handleReplyWithGmail, openComposer. split; intros Ha; rewrite Ha; simpl.
  - repeat split.
  - split; [reflexivity |]. split; [reflexivity |]. eexists. split; [reflexivity |].
    simpl. split; [reflexivity |].
    split; [destruct (replySubject (subject email)); reflexivity |].
    split; reflexivity.
Qed.

End ReplyComposer.

Lemma reply_opens_in_the_thread_witness :
  let p := Page.mkPageState Page.tab_inbox None [] in
  let p' := Page.handleReplyWithGmail (fun s => s) (Some Sample.connected) Sample.budget p in
  Store.isAuthenticated (Some Sample.connected) = true
  /\ Page.activeTab p' = Page.tab_compose
  /\ exists config,
       Page.composerConfig p' = Some config
       /\ GmailComposer.cfg_to config = Some ["ana@example.com"]
       /\ GmailComposer.cfg_subject config = Some "Re: Budget"
       /\ GmailComposer.threadId config = Some "thread-17".
Proof.
  intros p p'.
  destruct (proj2 (reply_opens_in_the_thread (fun s => s) (Some Sample.connected)
                     Sample.budget p) eq_refl)
    as (Htab & _ & config & Hc & Hto & Hsubj & Hthread & _).
  split; [reflexivity |]. split; [exact Htab |].
  exists config. split; [exact Hc |]. split; [exact Hto |]. split; [exact Hsubj | exact Hthread].
Defined.

Lemma inbox_is_the_rest_witness :
  let spamMail := Types.with_category Sample.lunch (Some "Spam") in
  let mails := [Sample.budget; spamMail] in
  In Sample.budget mails /\ Types.category Sample.budget = None
  /\ In Sample.budget (InboxView.filteredEmails InboxView.inbox "all" mails)
  /\ ~ In spamMail (InboxView.filteredEmails InboxView.inbox "all" mails).
Proof.
  intros spamMail mails.
  destruct (inbox_is_the_rest mails) as (Hrest & Hnone & _).
  assert (Hin : In Sample.budget mails) by (left; reflexivity).
  split; [exact Hin |]. split; [reflexivity |].
  split; [apply Hnone; [exact Hin | reflexivity] |].
  intros Hs. apply Hrest in Hs. destruct Hs as (_ & Hnot & _).
  apply Hnot. apply filter_In. split; [right; left; reflexivity | reflexivity].
Defined.

Lemma categories_distinct_witness :
  let work := Types.with_category Sample.budget (Some "Work") in
  let more := Types.with_category Sample.budgetAgain (Some "Work") in
  let none := Types.with_category Sample.lunch (Some "  ") in
  InboxView.categories [work; more; none] = ["Work"]
  /\ List.NoDup (InboxView.categories [work; more; none])
  /\ In "Work" (InboxView.categories [work; more; none]).
Proof.
  intros work more none.
  destruct (categories_distinct [work; more; none]) as [Hnd Hin].
  split; [reflexivity |]. split; [exact Hnd |].
  apply Hin. exists work. split; [left; reflexivity |]. split; [reflexivity | discriminate].
Defined.

Example category_named_unread_filters_by_read_flag :
  let odd := Types.with_category Sample.budget (Some "unread") in
  let seen := Types.with_read odd true in
  InboxView.categories [seen] = ["unread"]
  /\ InboxView.filteredEmails InboxView.inbox "unread" [seen] = [].
Proof. split; reflexivity. Qed.
